(* Spec2Rocq.v

   A shallow embedding of treegen4gpt.py (TreeGen4GPT) and the properties of it
   that the specification states.

   Text is list ascii: a character is a code point below 256. Python's own
   library enters in three ways. The str methods, int, pathlib's pure POSIX
   paths (Python 3.9 to 3.11) and re.sub on the one pattern the program uses are
   written out as functions. tokenize.generate_tokens, ast.parse and ast.unparse
   are parameters of the functions that call them, each with the exceptions it
   can raise. A directory is the finite tree of its entries; the settings file
   is its decoded text, or None when there is no file; a set is a gset, and the
   order in which a set is iterated is a parameter of save_settings.

   The command line (prompt_user, get_user_settings, write_template, run_cli)
   is a state and exception monad over a world: the lines still to be read from
   standard input, what was written to standard output, and the two files the
   program writes. What rglob yields, what a file holds and the listing of the
   directory are parameters of the functions that use them; writing a file
   always succeeds. The graphical interface is not modelled.

   Part I holds the model, Part II the proofs; the claims of the specification
   and further properties of the code follow. *)

From Stdlib Require Import List Ascii String ZArith Lia Bool DecimalNat.
From stdpp Require Import base gmap sets list strings.
Set Warnings "-register-all".
Import ListNotations.
Open Scope char_scope.
Open Scope list_scope.

Abbreviation str := (list ascii).
Definition py (s : string) : str := list_ascii_of_string s.
Definition LF : ascii := "010".
Definition CR : ascii := "013".

(* what a call ends in: an exception or a value *)
Inductive outcome (E A : Type) : Type :=
| Raised (e : E)
| Returned (v : A).
Arguments Raised {E A} e.
Arguments Returned {E A} v.

(* ====================================================================== *)
(* Part I. The model                                                      *)
(* ====================================================================== *)

(* ---- remove_extra_line_jumps ---- *)
(* the number of characters c that s opens with *)
Fixpoint run_length (c : ascii) (s : str) : nat :=
  match s with
  | x :: s' => if decide (x = c) then S (run_length c s') else 0
  | [] => 0
  end.

(* re.sub on the pattern c{least,} (least above 0): scanning from the left, a run
   of at least [least] characters c is matched whole (the quantifier is greedy)
   and replaced by repl; any other character is copied. [skip] counts the
   characters of the run just matched that are still to be passed over. *)
Fixpoint sub_run (c : ascii) (least : nat) (repl : str) (skip : nat) (s : str) : str :=
  match s with
  | [] => []
  | x :: s' =>
      match skip with
      | S k => sub_run c least repl k s'
      | O =>
          let n := run_length c s in
          if (least <=? n)%nat
          then repl ++ sub_run c least repl (n - 1) s'
          else x :: sub_run c least repl 0 s'
      end
  end.

(* code = re.sub(r'\n{3,}', '\n\n', code) *)
Definition remove_extra_line_jumps (code : str) : str :=
  sub_run LF 3 [LF; LF] 0 code.

(* the lines of s, as s.split('\n') gives them: a blank line is an empty one *)
Definition split_lines (s : str) : list str :=
  let fix go (cur : str) (s : str) : list str :=
    match s with
    | [] => [rev cur]
    | x :: s' => if decide (x = LF) then rev cur :: go [] s' else go (x :: cur) s'
    end in go [] s.

(* A text cut at its runs of newlines: each piece is a text followed by a run
   of n newlines. The runs are maximal when no text holds a newline and no text
   but the first is empty. *)
Definition text_of_runs (runs : list (str * nat)) : str :=
  concat (map (fun piece => fst piece ++ repeat LF (snd piece)) runs).

Definition maximal_runs (runs : list (str * nat)) : Prop :=
  Forall (fun piece => LF ∉ fst piece) runs
  /\ Forall (fun piece => fst piece <> []) (tail runs).

(* the pieces of a text, read from its end *)
Fixpoint runs_of (s : str) : list (str * nat) :=
  match s with
  | [] => [([], O)]
  | c :: s' =>
      match runs_of s' with
      | (text, n) :: runs =>
          if decide (c = LF)
          then match text with
               | [] => ([], S n) :: runs
               | _ => ([], 1%nat) :: (text, n) :: runs
               end
          else (c :: text, n) :: runs
      | [] => [([c], O)]
      end
  end.

(* a run of n newlines becomes one of min(n, 2), the text before it stays *)
Definition clip (piece : str * nat) : str * nat := (fst piece, Nat.min (snd piece) 2).

(* ---- pathlib and is_parent_ignored ---- *)
(* pathlib.PurePosixPath (Python 3.9 to 3.11): the root is '', '/' or '//'; the
   parts are the components, after the root itself when there is one. *)
Definition SEP : ascii := "/".

Record Path := mkPath { path_root : str; path_parts : list str }.

(* Path.name *)
Definition path_name (p : Path) : str :=
  if (length (path_parts p) =? (if decide (path_root p = []) then 0 else 1))%nat
  then [] else List.last (path_parts p) [].

(* Path.parent *)
Definition path_parent (p : Path) : Path :=
  if ((length (path_parts p) =? 1)%nat && negb (bool_decide (path_root p = [])))%bool
  then p
  else mkPath (path_root p) (removelast (path_parts p)).

(* Path.__eq__ compares the parts *)
Definition path_eqb (p q : Path) : bool :=
  bool_decide (path_parts p = path_parts q).

(* Path('.'): parsing '.' leaves no part (Path_dot_parsed below) *)
Definition Path_dot : Path := mkPath [] [].

(* while current != Path('.'):
       if current.name in ignored_folders: return True
       current = current.parent
   return False
   None when the fuel runs out before the loop ends. *)
Fixpoint is_parent_ignored_loop (fuel : nat) (current : Path) (ignored_folders : gset str)
  : option bool :=
  match fuel with
  | O => None
  | S fuel' =>
      if path_eqb current Path_dot then Some false
      else if bool_decide (path_name current ∈ ignored_folders) then Some true
      else is_parent_ignored_loop fuel' (path_parent current) ignored_folders
  end.

(* current = file.parent, then the loop; App.is_parent_ignored is the same code *)
Definition is_parent_ignored (fuel : nat) (file : Path) (ignored_folders : gset str)
  : option bool :=
  is_parent_ignored_loop fuel (path_parent file) ignored_folders.

Definition relative (p : Path) : Prop := path_root p = [].
Definition absolute (p : Path) : Prop :=
  path_root p ≠ [] ∧ head (path_parts p) = Some (path_root p).

(* ---- get_arborescence ---- *)
(* str.startswith and str.endswith *)
Definition startswith (s p : str) : bool := bool_decide (take (length p) s = p).
Definition endswith (s suf : str) : bool :=
  (length suf <=? length s)%nat && bool_decide (drop (length s - length suf) s = suf).

Definition ALLOWED_EXTENSIONS : list str :=
  map py [".py"; ".pyw"; ".pyx"; ".pyi"; ".pyd"; ".pxd"; ".pxi"; ".pyp"; ".pyt";
          ".py3"; ".pyde"; ".pyst"; ".pyz"; ".pyc"]%string.

(* What iterdir() yields, as is_dir() and is_file() tell the items apart: a
   directory with its own entries, a regular file, or anything else (a socket,
   a dangling link). Reading the tree is taken to succeed. *)
Inductive entry : Type :=
| Dir (name : str) (children : list entry)
| RegularFile (name : str)
| Special (name : str).

Definition entry_name (e : entry) : str :=
  match e with Dir n _ | RegularFile n | Special n => n end.
Definition is_dir (e : entry) : bool := match e with Dir _ _ => true | _ => false end.
Definition is_file (e : entry) : bool := match e with RegularFile _ => true | _ => false end.

(* f"{'  ' * indent}- {item.name}\n" *)
Definition listing_line (indent : nat) (name : str) : str :=
  concat (repeat (py "  ") indent) ++ py "- " ++ name ++ [LF].

(* the body of the loop over path.iterdir(), for one item *)
Fixpoint arborescence_of_item (ignored_folders ignored_files : gset str)
  (indent : nat) (item : entry) {struct item} : str :=
  if bool_decide (entry_name item ∈ ignored_files) then []
  else
    match item with
    | Dir name children =>
        if negb (bool_decide (name ∈ ignored_folders))
        then listing_line indent name
             ++ concat (map (arborescence_of_item ignored_folders ignored_files (S indent))
                            children)
        else []
    | RegularFile name =>
        if existsb (endswith name) ALLOWED_EXTENSIONS
        then listing_line indent name else []
    | Special _ => []
    end.

(* get_arborescence(path, ...), path given by the items path.iterdir() yields *)
Definition get_arborescence (items : list entry) (ignored_folders ignored_files : gset str)
  (indent : nat) : str :=
  concat (map (arborescence_of_item ignored_folders ignored_files indent) items).

(* The same walk, keeping for each line written the names that lead from the
   root to its entry instead of the line's text. *)
Fixpoint listed_of_item (ignored_folders ignored_files : gset str) (item : entry)
  {struct item} : list (list str) :=
  if bool_decide (entry_name item ∈ ignored_files) then []
  else
    match item with
    | Dir name children =>
        if negb (bool_decide (name ∈ ignored_folders))
        then [name] :: map (cons name)
                         (concat (map (listed_of_item ignored_folders ignored_files) children))
        else []
    | RegularFile name =>
        if existsb (endswith name) ALLOWED_EXTENSIONS then [[name]] else []
    | Special _ => []
    end.

Definition listed_paths (items : list entry) (ignored_folders ignored_files : gset str)
  : list (list str) :=
  concat (map (listed_of_item ignored_folders ignored_files) items).

(* the line written for the entry reached by the names p *)
Definition path_line (indent : nat) (p : list str) : str :=
  listing_line (indent + (length p - 1)) (List.last p []).

Section Listing.
Variables ignored_folders ignored_files : gset str.

(* an entry that gets a line once the walk is at it and its name is not in
   ignored_files *)
Definition shown (e : entry) : Prop :=
  match e with
  | Dir name _ => name ∉ ignored_folders
  | RegularFile name => existsb (endswith name) ALLOWED_EXTENSIONS = true
  | Special _ => False
  end.

(* the walk comes to the entry e by the names p and writes its line *)
Inductive reaches : list entry -> list str -> entry -> Prop :=
| reaches_here items e :
    e ∈ items -> entry_name e ∉ ignored_files -> shown e ->
    reaches items [entry_name e] e
| reaches_below items name children p e :
    Dir name children ∈ items ->
    name ∉ ignored_files -> name ∉ ignored_folders ->
    reaches children p e ->
    reaches items (name :: p) e.
End Listing.

(* ---- tokenize and remove_comments_and_docstrings ---- *)
(* the token types generate_tokens yields *)
Inductive tok_type : Set :=
| ENDMARKER | NAME | NUMBER | STRING | NEWLINE | INDENT | DEDENT | OP
| COMMENT | NL | ERRORTOKEN.

Global Instance tok_type_eq_dec : EqDecision tok_type.
Proof. solve_decision. Defined.

(* a token: type, text, (line, column) of its start and of its end *)
Record TokenInfo := mkTok {
  tok_type_of : tok_type;
  tok_string : str;
  tok_start : Z * Z;
  tok_end : Z * Z
}.

(* the variables of the loop *)
Record strip_state := mkState {
  clean_code_lines : list str;
  prev_toktype : tok_type;
  last_lineno : Z;
  last_col : Z
}.

Definition DQ : ascii := "034".
Definition SQ : ascii := "039".

Definition strip_init : strip_state := mkState [] INDENT (-1) 0.

Definition spaces (n : Z) : str := repeat " " (Z.to_nat n).

(* one turn of the loop over the tokens *)
Definition strip_step (st : strip_state) (tok : TokenInfo) : strip_state :=
  let token_type := tok_type_of tok in
  let token_string := tok_string tok in
  let '(start_line, start_col) := tok_start tok in
  let '(end_line, end_col) := tok_end tok in
  let last_col := if (start_line >? last_lineno st)%Z then 0%Z else last_col st in
  let lines := clean_code_lines st in
  let lines := if (start_col >? last_col)%Z
               then lines ++ [spaces (start_col - last_col)] else lines in
  let lines :=
    match token_type with
    | COMMENT => lines
    | STRING =>
        if negb (bool_decide (prev_toktype st = INDENT))
        then if negb (bool_decide (take 3 token_string ∈ [[DQ; DQ; DQ]; [SQ; SQ; SQ]]))
             then lines ++ [token_string] else lines
        else lines
    | _ => lines ++ [token_string]
    end in
  mkState lines token_type end_line end_col.

(* the loop, then ''.join(clean_code_lines) *)
Definition strip_tokens (toks : list TokenInfo) : str :=
  concat (clean_code_lines (fold_left strip_step toks strip_init)).

Section Tokenizer.
Variable TokenError : Type.
Variable generate_tokens : str -> TokenError + list TokenInfo.

(* generate_tokens either yields all its tokens or raises on the way
   (TokenError, IndentationError); nothing catches that here *)
Definition remove_comments_and_docstrings (code : str) : outcome TokenError str :=
  match generate_tokens code with
  | inl e => Raised e
  | inr toks => Returned (strip_tokens toks)
  end.
End Tokenizer.

(* the spaces written before a token *)
Definition gap (last_lineno last_col : Z) (t : TokenInfo) : str :=
  let col := if (fst (tok_start t) >? last_lineno)%Z then 0%Z else last_col in
  if (snd (tok_start t) >? col)%Z then spaces (snd (tok_start t) - col) else [].

(* whether the text of a token is written, given the type of the token before it *)
Definition kept (prev : tok_type) (t : TokenInfo) : bool :=
  match tok_type_of t with
  | COMMENT => false
  | STRING => negb (bool_decide (prev = INDENT))
              && negb (bool_decide (take 3 (tok_string t) ∈ [[DQ; DQ; DQ]; [SQ; SQ; SQ]]))
  | _ => true
  end.


(* what the loop writes, token by token *)
Fixpoint pieces (prev : tok_type) (last_lineno last_col : Z) (toks : list TokenInfo) : str :=
  match toks with
  | [] => []
  | t :: ts =>
      gap last_lineno last_col t
      ++ (if kept prev t then tok_string t else [])
      ++ pieces (tok_type_of t) (fst (tok_end t)) (snd (tok_end t)) ts
  end.


Definition tok (ty : tok_type) (s : string) (sl sc el ec : Z) : TokenInfo :=
  mkTok ty (py s) (sl, sc) (el, ec).

(* ---- ast and remove_function_body ---- *)
(* the value of an ast.Constant *)
Inductive constant : Type :=
| CStr (s : str)
| CBytes (b : str)
| CNum (repr : str)
| CBool (b : bool)
| CNone
| CEllipsis.

(* Expression-level subtrees (expressions, arguments, keywords, patterns): a
   Constant, or any other node by its class name, its plain fields and its
   children. No statement occurs below one, and FunctionBodyRemover has no
   visitor for any of them, so a visit leaves them as they are. *)
Inductive expr : Type :=
| Constant (value : constant)
| ExprNode (cls : str) (atoms : list str) (children : list expr).

(* The nodes that hold statements: the statements of the ast grammar, Module,
   match_case and ExceptHandler. SimpleStmt stands for the statements with no
   statement inside (Return, Assign, Import, ...). *)
Inductive node : Type :=
| Module (body : list node)
| FunctionDef (name : str) (args : expr) (body : list node)
    (decorator_list : list expr) (returns : option expr)
| AsyncFunctionDef (name : str) (args : expr) (body : list node)
    (decorator_list : list expr) (returns : option expr)
| ClassDef (name : str) (bases keywords : list expr) (body : list node)
    (decorator_list : list expr)
| For (target iter : expr) (body orelse : list node)
| AsyncFor (target iter : expr) (body orelse : list node)
| While (test : expr) (body orelse : list node)
| If (test : expr) (body orelse : list node)
| With (items : list expr) (body : list node)
| AsyncWith (items : list expr) (body : list node)
| Match (subject : expr) (cases : list node)
| match_case (pattern : expr) (guard : option expr) (body : list node)
| Try (body handlers orelse finalbody : list node)
| TryStar (body handlers orelse finalbody : list node)
| ExceptHandler (type : option expr) (name : option str) (body : list node)
| Expr (value : expr)
| Pass
| SimpleStmt (cls : str) (atoms : list str) (children : list expr).

(* isinstance(n, ast.Expr) and isinstance(n.value, ast.Str) *)
Definition is_docstring (n : node) : bool :=
  match n with
  | Expr (Constant (CStr _)) => true
  | _ => false
  end.

(* ast.parse("pass").body[0] *)
Definition pass_stmt : node := Pass.

(* FunctionBodyRemover().visit: visit_FunctionDef and visit_AsyncFunctionDef
   replace the body and then call generic_visit, which visits the statements of
   the new body; every other node goes through generic_visit, which visits the
   members of each statement list. The pass statement is new each time and a
   visit leaves it as it is, so it is written here unvisited. *)
Fixpoint visit (n : node) : node :=
  match n with
  | FunctionDef name args body decorator_list returns =>
      FunctionDef name args
        match body with
        | docstring :: _ =>
            if is_docstring docstring then [visit docstring; pass_stmt] else [pass_stmt]
        | [] => [pass_stmt]
        end
        decorator_list returns
  | AsyncFunctionDef name args body decorator_list returns =>
      AsyncFunctionDef name args
        match body with
        | docstring :: _ =>
            if is_docstring docstring then [visit docstring; pass_stmt] else [pass_stmt]
        | [] => [pass_stmt]
        end
        decorator_list returns
  | Module body => Module (map visit body)
  | ClassDef name bases keywords body decorator_list =>
      ClassDef name bases keywords (map visit body) decorator_list
  | For target iter body orelse => For target iter (map visit body) (map visit orelse)
  | AsyncFor target iter body orelse =>
      AsyncFor target iter (map visit body) (map visit orelse)
  | While test body orelse => While test (map visit body) (map visit orelse)
  | If test body orelse => If test (map visit body) (map visit orelse)
  | With items body => With items (map visit body)
  | AsyncWith items body => AsyncWith items (map visit body)
  | Match subject cases => Match subject (map visit cases)
  | match_case pattern guard body => match_case pattern guard (map visit body)
  | Try body handlers orelse finalbody =>
      Try (map visit body) (map visit handlers) (map visit orelse) (map visit finalbody)
  | TryStar body handlers orelse finalbody =>
      TryStar (map visit body) (map visit handlers) (map visit orelse) (map visit finalbody)
  | ExceptHandler type name body => ExceptHandler type name (map visit body)
  | Expr value => Expr value
  | Pass => Pass
  | SimpleStmt cls atoms children => SimpleStmt cls atoms children
  end.

(* An exception of the ast module that is no SyntaxError, by the name of its
   class and its message: ValueError for a source that holds a null byte (up to
   CPython 3.11) or for an f-string that ast.unparse cannot write, RecursionError,
   MemoryError. *)
Record AstError := mkAstError { error_class : str; error_message : str }.

(* what ast.parse(code) ends in: a tree, a SyntaxError or another exception *)
Inductive parsed (SyntaxError : Type) : Type :=
| Parsed (tree : node)
| SyntaxFailure (e : SyntaxError)
| OtherFailure (e : AstError).
Arguments Parsed {SyntaxError} tree.
Arguments SyntaxFailure {SyntaxError} e.
Arguments OtherFailure {SyntaxError} e.

Section Ast.
Variable SyntaxError : Type.
(* str(e) *)
Variable error_text : SyntaxError -> str.
Variable parse : str -> parsed SyntaxError.
(* ast.unparse(tree): the text, or the exception it raises *)
Variable unparse : node -> AstError + str.

(* SyntaxError is the one exception caught here: any other exception of
   ast.parse, and any exception of ast.unparse, ends the call. The result is
   the returned text and the lines printed. The visit walks the nodes of the
   tree it returns and no others (a function's old body is replaced before it
   is walked); on a tree too deep for the interpreter it raises RecursionError,
   and so does ast.unparse on the same tree, which needs more frames a level:
   that end of the call is the one unparse gives here. *)
Definition remove_function_body (code : str) : outcome AstError (str * list str) :=
  match parse code with
  | SyntaxFailure e => Returned (code, [py "Error: " ++ error_text e])
  | OtherFailure e => Raised e
  | Parsed tree =>
      let tree := visit tree in
      match unparse tree with
      | inl e => Raised e
      | inr modified_code => Returned (modified_code, [])
      end
  end.
End Ast.

(* the statement lists directly below a node *)
Definition blocks (n : node) : list (list node) :=
  match n with
  | Module body => [body]
  | FunctionDef _ _ body _ _ | AsyncFunctionDef _ _ body _ _ => [body]
  | ClassDef _ _ _ body _ => [body]
  | For _ _ body orelse | AsyncFor _ _ body orelse
  | While _ body orelse | If _ body orelse => [body; orelse]
  | With _ body | AsyncWith _ body => [body]
  | Match _ cases => [cases]
  | match_case _ _ body => [body]
  | Try body handlers orelse finalbody
  | TryStar body handlers orelse finalbody => [body; handlers; orelse; finalbody]
  | ExceptHandler _ _ body => [body]
  | Expr _ | Pass | SimpleStmt _ _ _ => []
  end.



(* every function definition in the tree, outermost first, in source order *)
Fixpoint all_defs (n : node) : list node :=
  match n with
  | Module body => concat (map all_defs body)
  | FunctionDef _ _ body _ _ | AsyncFunctionDef _ _ body _ _ =>
      n :: concat (map all_defs body)
  | ClassDef _ _ _ body _ => concat (map all_defs body)
  | For _ _ body orelse | AsyncFor _ _ body orelse
  | While _ body orelse | If _ body orelse =>
      concat (map all_defs body) ++ concat (map all_defs orelse)
  | With _ body | AsyncWith _ body => concat (map all_defs body)
  | Match _ cases => concat (map all_defs cases)
  | match_case _ _ body => concat (map all_defs body)
  | Try body handlers orelse finalbody
  | TryStar body handlers orelse finalbody =>
      concat (map all_defs body) ++ concat (map all_defs handlers)
      ++ concat (map all_defs orelse) ++ concat (map all_defs finalbody)
  | ExceptHandler _ _ body => concat (map all_defs body)
  | Expr _ | Pass | SimpleStmt _ _ _ => []
  end.


(* the body the reducer is to leave: the docstring statement, if the body opens
   with one, then one pass statement *)
Definition reduced_body (body : list node) : list node :=
  match body with
  | Expr (Constant (CStr s)) :: _ => [Expr (Constant (CStr s)); Pass]
  | _ => [Pass]
  end.








Section Grammar.
(* whether the node's own fields (names, expressions) are acceptable to the
   grammar, whatever its statement lists hold *)
Variable valid_header : node -> Prop.

End Grammar.

(* ---- str methods and int ---- *)

(* str.isspace on the code points below 256 *)
Definition is_space (c : ascii) : bool :=
  let n := nat_of_ascii c in
  ((9 <=? n) && (n <=? 13) || (28 <=? n) && (n <=? 32) || (n =? 133) || (n =? 160))%nat.

(* str.lstrip(), str.rstrip(), str.strip() *)
Fixpoint lstrip (s : str) : str :=
  match s with
  | c :: s' => if is_space c then lstrip s' else s
  | [] => []
  end.
Definition rstrip (s : str) : str := rev (lstrip (rev s)).
Definition strip (s : str) : str := rstrip (lstrip s).

(* str.split() *)
Fixpoint split_ws_from (cur : str) (s : str) : list str :=
  match s with
  | [] => match cur with [] => [] | _ => [rev cur] end
  | c :: s' =>
      if is_space c
      then match cur with [] => split_ws_from [] s' | _ => rev cur :: split_ws_from [] s' end
      else split_ws_from (c :: cur) s'
  end.
Definition split_ws (s : str) : list str := split_ws_from [] s.

(* str.split(sep), sep not empty: [skip] characters of a separator just matched
   are still to be passed over *)
Fixpoint split_from (sep : str) (skip : nat) (cur : str) (s : str) : list str :=
  match s with
  | [] => [rev cur]
  | c :: s' =>
      match skip with
      | S k => split_from sep k cur s'
      | O =>
          if startswith s sep
          then rev cur :: split_from sep (length sep - 1) [] s'
          else split_from sep 0 (c :: cur) s'
      end
  end.
Definition split (sep : str) (s : str) : list str := split_from sep 0 [] s.

(* sep.join(l) *)
Fixpoint join (sep : str) (l : list str) : str :=
  match l with
  | [] => []
  | [x] => x
  | x :: l' => x ++ sep ++ join sep l'
  end.

(* str.replace(old, new), old not empty *)
Fixpoint replace_from (old new : str) (skip : nat) (s : str) : str :=
  match s with
  | [] => []
  | c :: s' =>
      match skip with
      | S k => replace_from old new k s'
      | O =>
          if startswith s old
          then new ++ replace_from old new (length old - 1) s'
          else c :: replace_from old new 0 s'
      end
  end.
Definition replace (old new : str) (s : str) : str := replace_from old new 0 s.

(* str(n) for a length *)
Fixpoint digits (d : Decimal.uint) : str :=
  match d with
  | Decimal.Nil => []
  | Decimal.D0 d => "0" :: digits d
  | Decimal.D1 d => "1" :: digits d
  | Decimal.D2 d => "2" :: digits d
  | Decimal.D3 d => "3" :: digits d
  | Decimal.D4 d => "4" :: digits d
  | Decimal.D5 d => "5" :: digits d
  | Decimal.D6 d => "6" :: digits d
  | Decimal.D7 d => "7" :: digits d
  | Decimal.D8 d => "8" :: digits d
  | Decimal.D9 d => "9" :: digits d
  end.
Definition str_of_nat (n : nat) : str := digits (Nat.to_uint n).

(* str(b) *)
Definition str_of_bool (b : bool) : str := if b then py "True" else py "False".

(* int(s), digits 0 to 9 with single underscores between them after an optional
   sign: None stands for ValueError. The limit on the number of digits (4300
   from CPython 3.11 on, a ValueError as well) is not modelled. *)
Definition digit_value (c : ascii) : option Z :=
  let n := nat_of_ascii c in
  if ((48 <=? n) && (n <=? 57))%nat then Some (Z.of_nat (n - 48)) else None.

Fixpoint int_digits (acc : Z) (after_digit : bool) (s : str) : option Z :=
  match s with
  | [] => if after_digit then Some acc else None
  | c :: s' =>
      if decide (c = "_")
      then (if after_digit then int_digits acc false s' else None)
      else match digit_value c with
           | Some d => int_digits (10 * acc + d) true s'
           | None => None
           end
  end.

(* the blanks int() passes over at both ends: unlike str.strip() it keeps the
   separators 28 to 31 *)
Definition is_int_space (c : ascii) : bool :=
  let n := nat_of_ascii c in
  ((9 <=? n) && (n <=? 13) || (n =? 32) || (n =? 133) || (n =? 160))%nat.

Fixpoint lstrip_int (s : str) : str :=
  match s with
  | c :: s' => if is_int_space c then lstrip_int s' else s
  | [] => []
  end.
Definition strip_int (s : str) : str := rev (lstrip_int (rev (lstrip_int s))).

Definition int (s : str) : option Z :=
  match strip_int s with
  | "-" :: r => Z.opp <$> int_digits 0 false r
  | "+" :: r => int_digits 0 false r
  | r => int_digits 0 false r
  end.

(* ---- pathlib: parsing and printing ---- *)
(* str.lstrip(c) *)
Fixpoint lstrip_char (c : ascii) (s : str) : str :=
  match s with
  | x :: s' => if decide (x = c) then lstrip_char c s' else s
  | [] => []
  end.

(* _PosixFlavour.splitroot: the root and the rest *)
Definition splitroot (part : str) : str * str :=
  match part with
  | c :: _ =>
      if decide (c = SEP)
      then let stripped_part := lstrip_char SEP part in
           if (length part - length stripped_part =? 2)%nat
           then ([SEP; SEP], stripped_part)
           else ([SEP], stripped_part)
      else ([], part)
  | [] => ([], part)
  end.

(* Path(part): parse_parts on one string *)
Definition Path_of_str (part : str) : Path :=
  match part with
  | [] => mkPath [] []
  | _ =>
      let '(root, rel) := splitroot part in
      let parsed :=
        filter (fun x => x <> [] /\ x <> py ".") (split [SEP] rel) in
      mkPath root (match root with [] => parsed | _ => root :: parsed end)
  end.

(* str(p) *)
Definition str_of_Path (p : Path) : str :=
  let s := match path_root p with
           | [] => join [SEP] (path_parts p)
           | root => root ++ join [SEP] (tail (path_parts p))
           end in
  match s with [] => py "." | _ => s end.

(* ---- dict, in insertion order ---- *)
(* d.get(k), d[k] = v, k in d *)
Abbreviation dict := (list (Path * bool)).

Fixpoint dict_get (d : dict) (k : Path) : option bool :=
  match d with
  | [] => None
  | (k', v) :: d' => if path_eqb k' k then Some v else dict_get d' k
  end.

Fixpoint dict_set (d : dict) (k : Path) (v : bool) : dict :=
  match d with
  | [] => [(k, v)]
  | (k', v') :: d' => if path_eqb k' k then (k', v) :: d' else (k', v') :: dict_set d' k v
  end.

Definition dict_has (d : dict) (k : Path) : bool :=
  match dict_get d k with Some _ => true | None => false end.

(* ---- text files ---- *)
(* reading in text mode: "\r\n" and "\r" both arrive as "\n" *)
Fixpoint universal_newlines (s : str) : str :=
  match s with
  | [] => []
  | c :: s' =>
      if decide (c = CR)
      then LF :: match s' with
                 | c' :: s'' => if decide (c' = LF) then universal_newlines s''
                                else universal_newlines s'
                 | [] => []
                 end
      else c :: universal_newlines s'
  end.

(* f.readline(): the line with its newline, and what is left to read *)
Fixpoint readline (f : str) : str * str :=
  match f with
  | [] => ([], [])
  | c :: f' =>
      if decide (c = LF) then ([LF], f')
      else let '(line, rest) := readline f' in (c :: line, rest)
  end.

(* ---- settings ---- *)
Definition DEFAULT_IGNORED_FOLDERS : gset str :=
  list_to_set (map py [".git"; ".idea"; "__pycache__"; "venv"; "img"; "assessment"]%string).
Definition DEFAULT_IGNORED_FILES : gset str :=
  list_to_set (map py [".gitignore"; "treegen4gpt.py"; "README.md"; "LICENSE";
                       "requirements.txt"]%string).

(* the tuple load_settings returns, and the exception int raises *)
Definition settings : Type := str * dict * dict * dict * gset str * gset str.

Inductive ValueError : Set := invalid_literal_for_int.

Section Settings.
(* the order in which iterating over a set yields its elements *)
Variable iter : gset str -> list str.

(* what the loop over selected_files writes for one file *)
Definition save_line (remove_comments remove_functions : dict) (entry : Path * bool) : str :=
  let '(file, selected) := entry in
  match dict_get remove_comments file, dict_get remove_functions file with
  | Some rc, Some rf =>
      str_of_Path file ++ py " " ++ str_of_bool selected ++ py " "
      ++ str_of_bool rc ++ py " " ++ str_of_bool rf ++ [LF]
  | _, _ => []
  end.

(* the text written to the settings file *)
Definition save_settings (description : str)
  (selected_files remove_comments remove_functions : dict)
  (ignored_folders ignored_files : gset str) : str :=
  let description_save := replace [LF] (py "<newline>") description in
  (description_save ++ [LF])
  ++ (str_of_nat (length selected_files) ++ [LF])
  ++ concat (map (save_line remove_comments remove_functions) selected_files)
  ++ (join (py ", ") (iter ignored_folders) ++ [LF])
  ++ (join (py ", ") (iter ignored_files) ++ [LF]).
End Settings.

(* for i in range(num_files): ... *)
Fixpoint load_files (n : nat) (f : str) (selected_files remove_comments remove_functions : dict)
  : dict * dict * dict * str :=
  match n with
  | O => (selected_files, remove_comments, remove_functions, f)
  | S n' =>
      let '(l, f) := readline f in
      let line := split_ws (strip l) in
      match line with
      | l0 :: l1 :: l2 :: l3 :: _ =>
          let file_path := Path_of_str l0 in
          load_files n' f
            (dict_set selected_files file_path (bool_decide (l1 = py "True")))
            (dict_set remove_comments file_path (bool_decide (l2 = py "True")))
            (dict_set remove_functions file_path (bool_decide (l3 = py "True")))
      | _ => load_files n' f selected_files remove_comments remove_functions
      end
  end.

(* [file] is the text of the settings file as open() decodes it, None when
   there is no file. A file that exists and cannot be opened or decoded raises
   in open() or readline() and is outside this model. *)
Definition load_settings (file : option str) : outcome ValueError (option settings) :=
  match file with
  | None => Returned None
  | Some content =>
      let f := universal_newlines content in
      let '(l, f) := readline f in
      let description := strip l in
      let description := replace (py "<newline>") [LF] description in
      let '(l, f) := readline f in
      match int (strip l) with
      | None => Raised invalid_literal_for_int
      | Some num_files =>
          let '(selected_files, remove_comments, remove_functions, f) :=
            load_files (Z.to_nat num_files) f [] [] [] in
          let '(l, f) := readline f in
          let ignored_folders_line := strip l in
          let '(l, f) := readline f in
          let ignored_files_line := strip l in
          let ignored_folders :=
            match ignored_folders_line with
            | [] => DEFAULT_IGNORED_FOLDERS
            | _ => list_to_set (split (py ", ") ignored_folders_line)
            end in
          let ignored_files :=
            match ignored_files_line with
            | [] => DEFAULT_IGNORED_FILES
            | _ => list_to_set (split (py ", ") ignored_files_line)
            end in
          Returned (Some (description, selected_files, remove_comments, remove_functions,
                          ignored_folders, ignored_files))
      end
  end.

(* old occurs in s, as a proposition and as a test *)
Definition occurs (old s : str) : Prop := exists a b, s = a ++ old ++ b.

Fixpoint contains (old s : str) : bool :=
  startswith s old || match s with [] => false | _ :: s' => contains old s' end.

(* no proper suffix of sep opens sep again *)
Definition border_free (sep : str) : Prop :=
  forall k, (0 < k < length sep)%nat -> ~ drop k sep `prefix_of` sep.

Definition no_space (s : str) : bool := forallb (fun c => negb (is_space c)) s.

(* a path component as pathlib keeps it *)
Definition component_ok (x : str) : bool :=
  negb (bool_decide (x = [])) && negb (bool_decide (x = py "."))
  && negb (bool_decide (SEP ∈ x)).

(* the paths pathlib builds: an anchor "", "/" or "//", kept as first part when there
   is one, then components *)
Definition wf_path (p : Path) : bool :=
  match path_root p with
  | [] => forallb component_ok (path_parts p)
  | r => (bool_decide (r = [SEP]) || bool_decide (r = [SEP; SEP]))
         && match path_parts p with
            | r' :: ps => bool_decide (r' = r) && forallb component_ok ps
            | [] => false
            end
  end.

(* Python's == on dicts *)
Definition dict_eq (d1 d2 : dict) : Prop := forall k, dict_get d1 k = dict_get d2 k.

(* no two keys are equal as paths *)
Definition keys_distinct (d : dict) : Prop :=
  NoDup (map (fun e => path_parts (fst e)) d).

Definition path_ok (file : Path) : bool := wf_path file && no_space (str_of_Path file).

Definition same_keys (d1 d2 : dict) : Prop := forall k, dict_has d1 k = dict_has d2 k.

(* a name that a line of names joined by ", " gives back *)
Definition name_ok (x : str) : bool :=
  negb (bool_decide (x = [])) && bool_decide (strip x = x)
  && negb (contains (py ", ") x)
  && negb (bool_decide (LF ∈ x)) && negb (bool_decide (CR ∈ x)).

(* ---- notions the statements below use ---- *)
Definition trimmed (s : str) : Prop :=
  (forall c, head s = Some c -> is_space c = false)
  /\ (forall c, last s = Some c -> is_space c = false).

Definition all_digits (s : str) : Prop := Forall (fun c => digit_value c <> None) s.

Definition words4 (w1 w2 w3 w4 : str) : str :=
  w1 ++ " " :: w2 ++ " " :: w3 ++ " " :: w4.

Definition flags_of (d : dict) (sel : dict) : dict :=
  map (fun e => (fst e, default false (dict_get d (fst e)))) sel.

(* ---- where an entry sits in the tree ---- *)
Inductive located : list entry -> list str -> entry -> Prop :=
| located_here items e :
    e ∈ items -> located items [entry_name e] e
| located_below items name children p e :
    Dir name children ∈ items -> located children p e ->
    located items (name :: p) e.

(* the second line of the settings file as load_settings reads it *)
Definition count_line (content : str) : str :=
  fst (readline (snd (readline (universal_newlines content)))).

(* ---- sample inputs ---- *)
Definition lines_of (ls : list string) : str := concat (map (fun l => py l ++ [LF]) ls).

(* x = 1  # c *)
Definition commented_source : str := lines_of ["x = 1  # c"]%string.
Definition commented_tokens : list TokenInfo :=
  [tok NAME "x" 1 0 1 1; tok OP "=" 1 2 1 3; tok NUMBER "1" 1 4 1 5;
   tok COMMENT "# c" 1 7 1 10; mkTok NEWLINE [LF] (1, 10)%Z (1, 11)%Z;
   tok ENDMARKER "" 2 0 2 0].
Definition uncommented_source : str := lines_of ["x = 1  "]%string.
Definition uncommented_tokens : list TokenInfo :=
  [tok NAME "x" 1 0 1 1; tok OP "=" 1 2 1 3; tok NUMBER "1" 1 4 1 5;
   mkTok NEWLINE [LF] (1, 7)%Z (1, 8)%Z; tok ENDMARKER "" 2 0 2 0].

(* a function whose docstring is followed by a second string statement *)
Definition two_strings_source : str :=
  py "def f():" ++ [LF]
  ++ py "    " ++ [DQ; DQ; DQ] ++ py "doc" ++ [DQ; DQ; DQ] ++ [LF]
  ++ py "    " ++ [DQ] ++ py "second" ++ [DQ] ++ [LF].
Definition two_strings_tokens : list TokenInfo :=
  [tok NAME "def" 1 0 1 3; tok NAME "f" 1 4 1 5; tok OP "(" 1 5 1 6; tok OP ")" 1 6 1 7;
   tok OP ":" 1 7 1 8; mkTok NEWLINE [LF] (1, 8)%Z (1, 9)%Z;
   tok INDENT "    " 2 0 2 4;
   mkTok STRING ([DQ; DQ; DQ] ++ py "doc" ++ [DQ; DQ; DQ]) (2, 4)%Z (2, 13)%Z;
   mkTok NEWLINE [LF] (2, 13)%Z (2, 14)%Z;
   mkTok STRING ([DQ] ++ py "second" ++ [DQ]) (3, 4)%Z (3, 12)%Z;
   mkTok NEWLINE [LF] (3, 12)%Z (3, 13)%Z;
   tok DEDENT "" 4 0 4 0; tok ENDMARKER "" 4 0 4 0].
Definition one_string_source : str :=
  py "def f():" ++ [LF]
  ++ py "    " ++ [LF]
  ++ py "    " ++ [DQ] ++ py "second" ++ [DQ] ++ [LF].
Definition one_string_tokens : list TokenInfo :=
  [tok NAME "def" 1 0 1 3; tok NAME "f" 1 4 1 5; tok OP "(" 1 5 1 6; tok OP ")" 1 6 1 7;
   tok OP ":" 1 7 1 8; mkTok NEWLINE [LF] (1, 8)%Z (1, 9)%Z;
   mkTok NL [LF] (2, 4)%Z (2, 5)%Z;
   tok INDENT "    " 3 0 3 4;
   mkTok STRING ([DQ] ++ py "second" ++ [DQ]) (3, 4)%Z (3, 12)%Z;
   mkTok NEWLINE [LF] (3, 12)%Z (3, 13)%Z;
   tok DEDENT "" 4 0 4 0; tok ENDMARKER "" 4 0 4 0].

(* the assignment of a triple-quoted string abc to x *)
Definition assigned_string_source : str :=
  py "x = " ++ [DQ; DQ; DQ] ++ py "abc" ++ [DQ; DQ; DQ] ++ [LF].
Definition assigned_string_tokens : list TokenInfo :=
  [tok NAME "x" 1 0 1 1; tok OP "=" 1 2 1 3;
   mkTok STRING ([DQ; DQ; DQ] ++ py "abc" ++ [DQ; DQ; DQ]) (1, 4)%Z (1, 13)%Z;
   mkTok NEWLINE [LF] (1, 13)%Z (1, 14)%Z; tok ENDMARKER "" 2 0 2 0].

(* tokenize.generate_tokens on the sample sources, as CPython 3.11 answers; no
   other text is in the table *)
Definition sample_tokens (code : str) : unit + list TokenInfo :=
  if decide (code = commented_source) then inr commented_tokens
  else if decide (code = uncommented_source) then inr uncommented_tokens
  else if decide (code = two_strings_source) then inr two_strings_tokens
  else if decide (code = one_string_source) then inr one_string_tokens
  else if decide (code = assigned_string_source) then inr assigned_string_tokens
  else inl tt.

(* def f(): 'doc'; return 1 *)
Definition documented_source : str :=
  lines_of ["def f():"; "    'doc'"; "    return 1"]%string.
Definition no_arguments : expr := ExprNode (py "arguments") [] [].
Definition documented_tree : node :=
  Module [FunctionDef (py "f") no_arguments
            [Expr (Constant (CStr (py "doc")));
             SimpleStmt (py "Return") [] [Constant (CNum (py "1"))]]
            [] None].
Definition reduced_source : str :=
  py "def f():" ++ [LF]
  ++ py "    " ++ [DQ; DQ; DQ] ++ py "doc" ++ [DQ; DQ; DQ] ++ [LF]
  ++ py "    pass".
Definition reduced_tree : node :=
  Module [FunctionDef (py "f") no_arguments
            [Expr (Constant (CStr (py "doc"))); Pass] [] None].
Definition broken_source : str := lines_of ["def f(:"]%string.

(* def f(): def g(): return 1; return g *)
Definition nested_source : str :=
  lines_of ["def f():"; "    def g():"; "        return 1"; "    return g"]%string.
Definition inner_function : node :=
  FunctionDef (py "g") no_arguments
    [SimpleStmt (py "Return") [] [Constant (CNum (py "1"))]] [] None.
Definition nested_tree : node :=
  Module [FunctionDef (py "f") no_arguments
            [inner_function;
             SimpleStmt (py "Return") [] [ExprNode (py "Name") [py "g"] [ExprNode (py "Load") [] []]]]
            [] None].
Definition emptied_source : str := py "def f():" ++ [LF] ++ py "    pass".
Definition emptied_tree : node :=
  Module [FunctionDef (py "f") no_arguments [Pass] [] None].

(* x = f'{s}' where s is a string literal that holds the control character
   U+0001 itself: a source that parses and compiles *)
Definition control_character : ascii := "001".
Definition control_source : str :=
  py "x = f'{" ++ [DQ; control_character; DQ] ++ py "}'" ++ [LF].
Definition control_tree : node :=
  Module [SimpleStmt (py "Assign") []
            [ExprNode (py "Name") [py "x"] [ExprNode (py "Store") [] []];
             ExprNode (py "JoinedStr") []
               [ExprNode (py "FormattedValue") [py "-1"]
                  [Constant (CStr [control_character])]]]].
Definition no_backslash : AstError :=
  mkAstError (py "ValueError") (py "Unable to avoid backslash in f-string expression part").

(* x = 1 followed by a null byte *)
Definition null_source : str := py "x = 1" ++ ["000"%char; LF].
Definition null_bytes : AstError :=
  mkAstError (py "ValueError") (py "source code string cannot contain null bytes").

Definition not_a_sample : AstError := mkAstError (py "LookupError") (py "not a sample").

(* ast.parse and ast.unparse on the sample sources and trees, as CPython 3.11
   answers, with str(e) for a SyntaxError; nothing else is in the tables *)
Definition sample_parse (code : str) : parsed str :=
  if decide (code = documented_source) then Parsed documented_tree
  else if decide (code = reduced_source) then Parsed reduced_tree
  else if decide (code = nested_source) then Parsed nested_tree
  else if decide (code = emptied_source) then Parsed emptied_tree
  else if decide (code = control_source) then Parsed control_tree
  else if decide (code = py "pass") then Parsed (Module [Pass])
  else if decide (code = broken_source)
       then SyntaxFailure (py "invalid syntax (<unknown>, line 1)")
  else if decide (code = null_source) then OtherFailure null_bytes
  else OtherFailure not_a_sample.
Definition sample_unparse (tree : node) : AstError + str :=
  match tree with
  | Module [FunctionDef name (ExprNode _ [] []) [Expr (Constant (CStr s)); Pass] [] None] =>
      if decide (name = py "f" /\ s = py "doc") then inr reduced_source
      else inl not_a_sample
  | Module [FunctionDef name (ExprNode _ [] []) [Pass] [] None] =>
      if decide (name = py "f") then inr emptied_source else inl not_a_sample
  | Module [Pass] => inr (py "pass")
  | Module [SimpleStmt _ [] [_; ExprNode _ [] [ExprNode _ _ [Constant (CStr s)]]]] =>
      if decide (s = [control_character]) then inl no_backslash else inl not_a_sample
  | _ => inl not_a_sample
  end.

Definition P (s : string) : Path := Path_of_str (py s).

(* ---- induction over the nested trees ---- *)
Section EntryInd.
Variable P : entry -> Prop.
Hypothesis HDir : forall name children, Forall P children -> P (Dir name children).
Hypothesis HFile : forall name, P (RegularFile name).
Hypothesis HSpecial : forall name, P (Special name).

Fixpoint entry_rect_nested (e : entry) : P e :=
  match e with
  | Dir name children =>
      HDir name children
        ((fix all (cs : list entry) : Forall P cs :=
            match cs with
            | [] => @List.Forall_nil _ P
            | c :: cs0 => @List.Forall_cons _ P c cs0 (entry_rect_nested c) (all cs0)
            end) children)
  | RegularFile name => HFile name
  | Special name => HSpecial name
  end.
End EntryInd.

Section NodeInd.
Variable P : node -> Prop.
Hypothesis Hblocks : forall n, Forall (Forall P) (blocks n) -> P n.

Fixpoint node_ind_blocks (n : node) : P n.
Proof.
  apply Hblocks.
  pose (all := fix all (l : list node) : Forall P l :=
          match l with
          | [] => @List.Forall_nil _ P
          | x :: l' => @List.Forall_cons _ P x l' (node_ind_blocks x) (all l')
          end).
  destruct n; cbn [blocks]; repeat constructor; apply all.
Defined.
End NodeInd.

(* ---- the command line ---- *)
(* ---- str.lower ---- *)
(* str.lower on the code points below 256: A to Z and the capital letters of
   Latin-1 (192 to 222 without the sign 215) move up by 32 *)
Definition lower_char (c : ascii) : ascii :=
  let n := nat_of_ascii c in
  if ((65 <=? n) && (n <=? 90) || (192 <=? n) && (n <=? 222) && negb (n =? 215))%nat
  then ascii_of_nat (n + 32) else c.
Definition lower (s : str) : str := map lower_char s.

(* ---- the command line: its world, its exceptions, its calls ---- *)
(* The lines still to be read from standard input (each without its newline),
   what was written to standard output (one element per write), and the two
   files the program writes, None while a file does not exist. *)
Record world := mkWorld {
  stdin : list str;
  stdout : list str;
  save_file : option str;
  template_file : option str
}.

(* the exceptions the command line can end in: input() at the end of the
   input, d[k] or del d[k] without the key k, int() on the count line, open()
   or read() on a file that cannot be read, what the tokenizer raises, and
   what ast.parse and ast.unparse raise that is no SyntaxError *)
Inductive exception (TokenError : Type) : Type :=
| EOFError
| KeyError (key : Path)
| Invalid (e : ValueError)
| OSError (file : Path)
| Tokenize (e : TokenError)
| Ast (e : AstError).
Arguments EOFError {TokenError}.
Arguments KeyError {TokenError} key.
Arguments Invalid {TokenError} e.
Arguments OSError {TokenError} file.
Arguments Tokenize {TokenError} e.
Arguments Ast {TokenError} e.

(* A call from a world: it does not return (None), or it ends in an exception
   or a value and leaves a world. *)
Definition M (E A : Type) : Type := world -> option (outcome E A * world).

Definition ret {E A : Type} (v : A) : M E A := fun w => Some (Returned v, w).
Definition raise {E A : Type} (e : E) : M E A := fun w => Some (Raised e, w).
Definition bind {E A B : Type} (m : M E A) (k : A -> M E B) : M E B :=
  fun w =>
    match m w with
    | None => None
    | Some (Raised e, w') => Some (Raised e, w')
    | Some (Returned v, w') => k v w'
    end.

Declare Scope cli_scope.
Delimit Scope cli_scope with cli.
Notation "x <- m ;; k" := (bind m (fun x => k))
  (at level 20, m at level 99, k at level 200, only parsing) : cli_scope.
Notation "' p <- m ;; k" := (bind m (fun p : _ => k))
  (at level 20, p pattern, m at level 99, k at level 200, only parsing) : cli_scope.
Open Scope cli_scope.

(* for x in l: state = body(x, state) *)
Fixpoint for_each {E A S : Type} (body : A -> S -> M E S) (l : list A) (state : S) : M E S :=
  match l with
  | [] => ret state
  | x :: l' => state <- body x state ;; for_each body l' state
  end.

Definition write (text : str) (w : world) : world :=
  mkWorld (stdin w) (stdout w ++ [text]) (save_file w) (template_file w).

(* print(text) *)
Definition print {E : Type} (text : str) : M E unit :=
  fun w => Some (Returned tt, write (text ++ [LF]) w).

(* input(message): the prompt is written, then a line is read *)
Definition input {T : Type} (message : str) : M (exception T) str :=
  fun w =>
    let w := write message w in
    match stdin w with
    | [] => Some (Raised EOFError, w)
    | line :: rest =>
        Some (Returned line, mkWorld rest (stdout w) (save_file w) (template_file w))
    end.

(* d[k] *)
Definition lookup {T : Type} (d : dict) (k : Path) : M (exception T) bool :=
  match dict_get d k with
  | Some v => ret v
  | None => raise (KeyError k)
  end.

(* del d[k] *)
Fixpoint dict_del (d : dict) (k : Path) : option dict :=
  match d with
  | [] => None
  | (k', v) :: d' => if path_eqb k' k then Some d' else cons (k', v) <$> dict_del d' k
  end.

Definition del {T : Type} (d : dict) (k : Path) : M (exception T) dict :=
  match dict_del d k with
  | Some d' => ret d'
  | None => raise (KeyError k)
  end.

(* ---- prompt_user ---- *)
(* while True:
       user_input = input(message)
       if user_input.lower() in {'y', 'n', ''}: return user_input.lower()
   None when the fuel runs out before the loop ends. *)
Fixpoint prompt_user_loop {T : Type} (fuel : nat) (message : str) : M (exception T) str :=
  match fuel with
  | O => fun _ => None
  | S fuel' =>
      user_input <- input message ;;
      if bool_decide (lower user_input ∈ [py "y"; py "n"; []])
      then ret (lower user_input)
      else prompt_user_loop fuel' message
  end.

(* every turn of the loop reads a line, and the read after the last line
   raises: one turn more than there are lines is all the loop can take *)
Definition prompt_user {T : Type} (message : str) : M (exception T) str :=
  fun w => prompt_user_loop (S (length (stdin w))) message w.

(* is_parent_ignored(file, ignored_folders), with one turn more than the path
   has parts: when that is not enough, no number of turns is
   (is_parent_ignored_never below), and the call does not return *)
Definition parent_ignored {E : Type} (file : Path) (ignored_folders : gset str) : M E bool :=
  fun w =>
    match is_parent_ignored (S (length (path_parts file))) file ignored_folders with
    | Some b => Some (Returned b, w)
    | None => None
    end.

Section Cli.
Variable TokenError : Type.
Variable generate_tokens : str -> TokenError + list TokenInfo.
Variable SyntaxError : Type.
Variable error_text : SyntaxError -> str.
Variable parse : str -> parsed SyntaxError.
Variable unparse : node -> AstError + str.
(* the order in which iterating over a set yields its elements *)
Variable iter : gset str -> list str.
(* what Path('.').rglob('*.py') yields *)
Variable rglob_py : list Path.
(* what file.open('r').read() returns, None when open or read raises *)
Variable read_text : Path -> option str.
(* what Path('.').iterdir() yields, each directory with its own entries *)
Variable iterdir : list entry.

Local Abbreviation exn := (exception TokenError).

(* ---- get_user_settings ---- *)
(* the body of the loop over the files found *)
Definition settings_for_file (ignored_folders ignored_files : gset str) (file : Path)
  (dicts : dict * dict * dict) : M exn (dict * dict * dict) :=
  let '(selected_files, remove_comments, remove_functions) := dicts in
  ignored <- parent_ignored file ignored_folders ;;
  if ignored || bool_decide (path_name file ∈ ignored_files) then ret dicts
  else
    match dict_get selected_files file with
    | None =>
        include <- prompt_user (py "Include " ++ str_of_Path file ++ py "? (y/n): ") ;;
        if bool_decide (include = py "y")
        then
          let selected_files := dict_set selected_files file true in
          answer <- prompt_user (py "Remove comments and docstrings from "
                                 ++ str_of_Path file ++ py "? (y/n): ") ;;
          let remove_comments :=
            dict_set remove_comments file (bool_decide (answer = py "y")) in
          answer <- prompt_user (py "Remove function bodies from "
                                 ++ str_of_Path file ++ py "? (y/n): ") ;;
          let remove_functions :=
            dict_set remove_functions file (bool_decide (answer = py "y")) in
          ret (selected_files, remove_comments, remove_functions)
        else ret (dict_set selected_files file false, remove_comments, remove_functions)
    | Some true => ret dicts
    | Some false =>
        selected_files <- del selected_files file ;;
        remove_comments <- del remove_comments file ;;
        remove_functions <- del remove_functions file ;;
        ret (selected_files, remove_comments, remove_functions)
    end.

(* set(text.split(',')) if text else default *)
Definition names_or (default : gset str) (text : str) : gset str :=
  match text with
  | [] => default
  | _ => list_to_set (split (py ",") text)
  end.

Definition get_user_settings (saved_settings : option settings) : M exn settings :=
  description <- input (py "Enter the description: ") ;;
  '(ignored_folders, ignored_files) <-
    match saved_settings with
    | Some (_, _, _, _, ignored_folders, ignored_files) =>
        ret (ignored_folders, ignored_files)
    | None =>
        ignored_folders_input <-
          input (py "Enter ignored folders (comma-separated, default: "
                 ++ join (py ", ") (iter DEFAULT_IGNORED_FOLDERS) ++ py "): ") ;;
        let ignored_folders := names_or DEFAULT_IGNORED_FOLDERS ignored_folders_input in
        ignored_files_input <-
          input (py "Enter ignored files (comma-separated, default: "
                 ++ join (py ", ") (iter DEFAULT_IGNORED_FILES) ++ py "): ") ;;
        let ignored_files := names_or DEFAULT_IGNORED_FILES ignored_files_input in
        ret (ignored_folders, ignored_files)
    end ;;
  let dicts :=
    match saved_settings with
    | Some (_, selected_files, remove_comments, remove_functions, _, _) =>
        (selected_files, remove_comments, remove_functions)
    | None => ([], [], [])
    end in
  '(selected_files, remove_comments, remove_functions) <-
    for_each (settings_for_file ignored_folders ignored_files) rglob_py dicts ;;
  ret (description, selected_files, remove_comments, remove_functions,
       ignored_folders, ignored_files).

(* ---- write_template ---- *)
(* with file.open('r') as f: content = f.read() *)
Definition read (file : Path) : M exn str :=
  match read_text file with
  | Some content => ret content
  | None => raise (OSError file)
  end.

(* remove_function_body(content), its line printed when there is one *)
Definition reduced (content : str) : M exn str :=
  match remove_function_body SyntaxError error_text parse unparse content with
  | Raised e => raise (Ast e)
  | Returned (code, printed) =>
      _ <- for_each (fun line (_ : unit) => print line) printed tt ;;
      ret code
  end.

(* remove_comments_and_docstrings(content) *)
Definition stripped (content : str) : M exn str :=
  match remove_comments_and_docstrings TokenError generate_tokens content with
  | Raised e => raise (Tokenize e)
  | Returned code => ret code
  end.

(* f"- {file.name}\n" and f"- {file.name}\n```py\n{content}\n```\n" *)
Definition name_line (file : Path) : str := py "- " ++ path_name file ++ [LF].
Definition fenced (file : Path) (content : str) : str :=
  py "- " ++ path_name file ++ [LF] ++ py "```py" ++ [LF] ++ content ++ [LF]
  ++ py "```" ++ [LF].

(* the body of the loop over the keys of selected_files *)
Definition embed_file (selected_files remove_comments remove_functions : dict) (file : Path)
  (arborescence : str) : M exn str :=
  selected <- lookup selected_files file ;;
  if negb selected then ret arborescence
  else
    content <- read file ;;
    remove <- lookup remove_functions file ;;
    content <- (if remove : bool then reduced content else ret content) ;;
    remove <- lookup remove_comments file ;;
    content <- (if remove : bool then stripped content else ret content) ;;
    let content := remove_extra_line_jumps content in
    ret (replace (name_line file) (fenced file content) arborescence).

Definition template_text (description arborescence : str) : str :=
  description ++ [LF; LF]
  ++ py "Here is there arborescence with most files content (may be reduced or skeleton only):"
  ++ [LF] ++ arborescence ++ [LF].

(* with open("template.txt", "w") as f: f.write(template) *)
Definition write_template_txt (template : str) : M exn unit :=
  fun w => Some (Returned tt, mkWorld (stdin w) (stdout w) (save_file w) (Some template)).

Definition write_template (description arborescence : str)
  (selected_files remove_comments remove_functions : dict) : M exn unit :=
  arborescence <-
    for_each (embed_file selected_files remove_comments remove_functions)
      (map fst selected_files) arborescence ;;
  let template := template_text description arborescence in
  _ <- write_template_txt template ;;
  print (py "Template generated in template.txt").

(* ---- run_cli ---- *)
(* load_settings() on the settings file of the world *)
Definition load : M exn (option settings) :=
  fun w =>
    match load_settings (save_file w) with
    | Raised e => Some (Raised (Invalid e), w)
    | Returned saved => Some (Returned saved, w)
    end.

(* save_settings(...): the settings file is written anew *)
Definition save (text : str) : M exn unit :=
  fun w => Some (Returned tt, mkWorld (stdin w) (stdout w) (Some text) (template_file w)).

Definition run_cli : M exn unit :=
  saved_settings <- load ;;
  '(description, selected_files, remove_comments, remove_functions,
    ignored_folders, ignored_files) <-
    match saved_settings with
    | Some saved =>
        use_saved_settings <-
          prompt_user (py "Do you want to use the saved settings? (y/n): ") ;;
        if bool_decide (use_saved_settings = py "y") then ret saved
        else get_user_settings (Some saved)
    | None => get_user_settings None
    end ;;
  let arborescence := get_arborescence iterdir ignored_folders ignored_files 0 in
  _ <- print ([LF] ++ py "Arborescence:" ++ [LF] ++ arborescence) ;;
  _ <- write_template description arborescence
         selected_files remove_comments remove_functions ;;
  save_choice <- prompt_user (py "Do you want to save these settings? (y/n): ") ;;
  if bool_decide (save_choice = py "y")
  then save (save_settings iter description selected_files remove_comments remove_functions
               ignored_folders ignored_files)
  else ret tt.

(* The settings run_cli works with, its first statements taken alone: the saved
   settings when there are some and the answer is y, those of
   get_user_settings otherwise. *)
Definition chosen_settings : M exn settings :=
  saved_settings <- load ;;
  match saved_settings with
  | Some saved =>
      use_saved_settings <-
        prompt_user (py "Do you want to use the saved settings? (y/n): ") ;;
      if bool_decide (use_saved_settings = py "y") then ret saved
      else get_user_settings (Some saved)
  | None => get_user_settings None
  end.

(* what run_cli goes on to do with its settings *)
Definition finish (chosen : settings) : M exn unit :=
  let '(description, selected_files, remove_comments, remove_functions,
        ignored_folders, ignored_files) := chosen in
  let arborescence := get_arborescence iterdir ignored_folders ignored_files 0 in
  _ <- print ([LF] ++ py "Arborescence:" ++ [LF] ++ arborescence) ;;
  _ <- write_template description arborescence
         selected_files remove_comments remove_functions ;;
  save_choice <- prompt_user (py "Do you want to save these settings? (y/n): ") ;;
  if bool_decide (save_choice = py "y")
  then save (save_settings iter description selected_files remove_comments remove_functions
               ignored_folders ignored_files)
  else ret tt.

(* what save_settings writes for the settings of a run *)
Definition saved_text (chosen : settings) : str :=
  let '(description, selected_files, remove_comments, remove_functions,
        ignored_folders, ignored_files) := chosen in
  save_settings iter description selected_files remove_comments remove_functions
    ignored_folders ignored_files.
End Cli.

(* ---- notions the statements about the command line use ---- *)
(* every file selected has both of its flags *)
Definition flagged (selected_files remove_comments remove_functions : dict) : Prop :=
  forall k, dict_get selected_files k = Some true ->
            dict_has remove_comments k = true /\ dict_has remove_functions k = true.

(* a line of text: its only newline is its last character *)
Definition one_line (l : str) : Prop := exists body, l = body ++ [LF] /\ LF ∉ body.

(* a call that, when it ends, ends in no KeyError, and in a value that meets Q *)
Definition safe {T A : Type} (Q : A -> Prop) (m : M (exception T) A) : Prop :=
  forall w r w', m w = Some (r, w') ->
    match r with
    | Raised e => forall key, e <> KeyError key
    | Returned v => Q v
    end.

(* a call that ends, whatever the world it starts from *)
Definition ends {E A : Type} (m : M E A) : Prop := forall w, m w <> None.

(* a call that leaves the settings file as it is *)
Definition keeps_settings {E A : Type} (m : M E A) : Prop :=
  forall w r w', m w = Some (r, w') -> save_file w' = save_file w.

(* every key of selected_files has both of its flags *)
Definition complete (selected_files remove_comments remove_functions : dict) : Prop :=
  forall k, dict_has selected_files k = true ->
            dict_has remove_comments k = true /\ dict_has remove_functions k = true.

(* saved settings whose dictionary of selected files holds a key once and is
   complete; no settings at all will do as well *)
Definition saved_ok (saved_settings : option settings) : Prop :=
  match saved_settings with
  | Some (_, selected_files, remove_comments, remove_functions, _, _) =>
      keys_distinct selected_files
      /\ complete selected_files remove_comments remove_functions
  | None => True
  end.

(* the dictionaries of get_user_settings with the files [todo] still to come:
   the selected files and the keys among the files to come have their flags *)
Definition asked (todo : list Path) (dicts : dict * dict * dict) : Prop :=
  let '(selected_files, remove_comments, remove_functions) := dicts in
  keys_distinct selected_files
  /\ NoDup (map path_parts todo)
  /\ forall k,
       dict_get selected_files k = Some true \/ path_parts k ∈ map path_parts todo ->
       dict_has selected_files k = true ->
       dict_has remove_comments k = true /\ dict_has remove_functions k = true.

(* a line of the arborescence as the template holds it: followed by the fenced
   content when it ends with the name line of the file *)
Definition line_with (file : Path) (content : str) (l : str) : str :=
  if endswith l (name_line file)
  then l ++ py "```py" ++ [LF] ++ content ++ [LF] ++ py "```" ++ [LF]
  else l.

(* what write_template leaves when it returns: its message on standard output
   and the template in template.txt *)
Definition template_written (template : str) (w : world) : world :=
  mkWorld (stdin w) (stdout w ++ [py "Template generated in template.txt" ++ [LF]])
    (save_file w) (Some template).

(* what a call ended in is no KeyError *)
Definition no_KeyError {T A : Type} (r : outcome (exception T) A) : Prop :=
  match r with
  | Raised (KeyError _) => False
  | _ => True
  end.

(* ---- the settings file, line by line ---- *)
(* what is left of the text after n calls of readline *)
Fixpoint skip_lines (n : nat) (f : str) : str :=
  match n with
  | O => f
  | S n' => skip_lines n' (snd (readline f))
  end.

(* the lines save_settings writes: a file without both flags gets none *)
Definition saved_lines (iter : gset str -> list str) (description : str)
  (selected_files remove_comments remove_functions : dict)
  (ignored_folders ignored_files : gset str) : list str :=
  [replace [LF] (py "<newline>") description ++ [LF];
   str_of_nat (length selected_files) ++ [LF]]
  ++ filter (fun l => l <> []) (map (save_line remove_comments remove_functions) selected_files)
  ++ [join (py ", ") (iter ignored_folders) ++ [LF];
      join (py ", ") (iter ignored_files) ++ [LF]].

(* a token with another text *)
Definition with_text (t : TokenInfo) (text : str) : TokenInfo :=
  mkTok (tok_type_of t) text (tok_start t) (tok_end t).

(* the type of the token before the one that follows [pre] *)
Definition type_before (pre : list TokenInfo) : tok_type :=
  match last pre with
  | Some t => tok_type_of t
  | None => INDENT
  end.

(* ---- a session at the command line ---- *)
(* No settings file; the user types a description, a folder and a file to
   ignore, includes a.py with its function bodies removed and its comments
   kept, and saves the settings. *)
Definition session_start : world :=
  mkWorld [py "demo"; py "venv"; py "setup.py"; py "y"; py "n"; py "y"; py "y"]
    [] None None.
Definition session_files : Path -> option str := fun _ => Some documented_source.
Definition session_entries : list entry := [RegularFile (py "a.py")].
Definition session_template : str :=
  template_text (py "demo")
    (py "- a.py" ++ [LF] ++ py "```py" ++ [LF] ++ reduced_source ++ [LF] ++ py "```" ++ [LF]).
Definition session_saved : str :=
  lines_of ["demo"; "1"; "a.py True False True"; "venv"; "setup.py"]%string.
Definition session_written : list str :=
  [py "Enter the description: ";
   py "Enter ignored folders (comma-separated, default: "
   ++ join (py ", ") (elements DEFAULT_IGNORED_FOLDERS) ++ py "): ";
   py "Enter ignored files (comma-separated, default: "
   ++ join (py ", ") (elements DEFAULT_IGNORED_FILES) ++ py "): ";
   py "Include a.py? (y/n): ";
   py "Remove comments and docstrings from a.py? (y/n): ";
   py "Remove function bodies from a.py? (y/n): ";
   [LF] ++ py "Arborescence:" ++ [LF] ++ py "- a.py" ++ [LF] ++ [LF];
   py "Template generated in template.txt" ++ [LF];
   py "Do you want to save these settings? (y/n): "].
Definition session_end : world :=
  mkWorld [] session_written (Some session_saved) (Some session_template).

(* ====================================================================== *)
(* Part II. Proofs                                                        *)
(* ====================================================================== *)

(* ---- collapsing runs of newlines ---- *)
Lemma sub_run_skip c least repl k s :
  sub_run c least repl k s = sub_run c least repl 0 (drop k s).
Proof.
  revert k. induction s as [|x s IH]; intros [|k]; simpl; try reflexivity.
  - apply IH.
Qed.

Lemma run_length_repeat c n rest :
  head rest ≠ Some c -> run_length c (repeat c n ++ rest) = n.
Proof.
  intros Hh. induction n as [|n IH]; simpl.
  - destruct rest as [|x rest]; simpl; [reflexivity|].
    destruct (decide (x = c)) as [->|]; [|reflexivity]. now destruct Hh.
  - destruct (decide (c = c)); [|congruence]. now rewrite IH.
Qed.

Lemma run_length_split c s :
  s = repeat c (run_length c s) ++ drop (run_length c s) s
  /\ head (drop (run_length c s) s) ≠ Some c.
Proof.
  induction s as [|x s [IH1 IH2]]; simpl.
  - split; [reflexivity|discriminate].
  - destruct (decide (x = c)) as [->|Hne]; simpl.
    + split; [now rewrite <- IH1|exact IH2].
    + split; [reflexivity|]. intros [=]. contradiction.
Qed.

Lemma sub_run_char c least repl x rest :
  x ≠ c -> (0 < least)%nat ->
  sub_run c least repl 0 (x :: rest) = x :: sub_run c least repl 0 rest.
Proof.
  intros Hne Hl. simpl. destruct (decide (x = c)); [contradiction|].
  destruct least; [lia|]. reflexivity.
Qed.

Lemma drop_repeat_app {A} (x : A) n rest : drop n (repeat x n ++ rest) = rest.
Proof. induction n; simpl; auto. Qed.

Lemma sub_run_short c least repl n rest :
  head rest ≠ Some c -> (n < least)%nat ->
  sub_run c least repl 0 (repeat c n ++ rest) = repeat c n ++ sub_run c least repl 0 rest.
Proof.
  intros Hh Hn. induction n as [|n IH]; [reflexivity|].
  cbn [repeat app sub_run].
  change (c :: repeat c n ++ rest) with (repeat c (S n) ++ rest).
  rewrite run_length_repeat by assumption.
  destruct (Nat.leb_spec least (S n)); [lia|].
  f_equal. apply IH. lia.
Qed.

Lemma sub_run_long c least repl n rest :
  head rest ≠ Some c -> (0 < least <= n)%nat ->
  sub_run c least repl 0 (repeat c n ++ rest) = repl ++ sub_run c least repl 0 rest.
Proof.
  intros Hh Hn. destruct n as [|n]; [lia|].
  cbn [repeat app sub_run].
  change (c :: repeat c n ++ rest) with (repeat c (S n) ++ rest).
  rewrite run_length_repeat by assumption.
  destruct (Nat.leb_spec least (S n)); [|lia].
  rewrite sub_run_skip. replace (S n - 1)%nat with n by lia.
  now rewrite drop_repeat_app.
Qed.

Lemma newline_run n rest :
  head rest ≠ Some LF ->
  remove_extra_line_jumps (repeat LF n ++ rest)
  = repeat LF (Nat.min n 2) ++ remove_extra_line_jumps rest.
Proof.
  intros Hh. unfold remove_extra_line_jumps.
  destruct (Nat.le_gt_cases 3 n) as [Hn|Hn].
  - rewrite sub_run_long by (auto; lia).
    replace (Nat.min n 2) with 2%nat by lia. reflexivity.
  - rewrite sub_run_short by (auto; lia).
    replace (Nat.min n 2) with n by lia. reflexivity.
Qed.

Lemma last_cons_ne {A} (x : A) l : l ≠ [] -> last (x :: l) = last l.
Proof. destruct l; [congruence|reflexivity]. Qed.

Lemma remove_extra_line_jumps_app pre rest :
  last pre ≠ Some LF ->
  remove_extra_line_jumps (pre ++ rest)
  = remove_extra_line_jumps pre ++ remove_extra_line_jumps rest.
Proof.
  remember (length pre) as m eqn:Hm. revert pre Hm.
  induction m as [m IH] using lt_wf_ind. intros pre Hm Hlast.
  destruct pre as [|x pre]; [reflexivity|].
  destruct (decide (x = LF)) as [->|Hx].
  - destruct (run_length_split LF (LF :: pre)) as [Hsplit Hhead].
    set (k := run_length LF (LF :: pre)) in *.
    set (tl := drop k (LF :: pre)) in *.
    assert (Htl : tl ≠ []).
    { intros E. rewrite E, app_nil_r in Hsplit. rewrite Hsplit in Hlast.
      apply Hlast. destruct k; [discriminate|].
      clear. induction k; [reflexivity|]. simpl in *. destruct (repeat LF k); auto. }
    assert (Hk : (0 < k)%nat).
    { subst k. simpl. destruct (decide (LF = LF)); [lia|congruence]. }
    assert (Hl : last tl ≠ Some LF).
    { rewrite Hsplit in Hlast. rewrite last_app in Hlast.
      destruct (last tl) eqn:E; [exact Hlast|discriminate]. }
    rewrite Hsplit. rewrite <- app_assoc.
    assert (Hhead' : head (tl ++ rest) ≠ Some LF).
    { destruct tl; [congruence|exact Hhead]. }
    rewrite !newline_run by assumption.
    rewrite <- app_assoc. f_equal.
    apply (IH (length tl)); [|reflexivity|assumption].
    pose proof (f_equal length Hsplit) as Hlen.
    rewrite length_app, repeat_length in Hlen. lia.
  - unfold remove_extra_line_jumps in *. cbn [app].
    rewrite !sub_run_char by (auto; lia). cbn [app]. f_equal.
    destruct pre as [|y pre]; [reflexivity|].
    apply (IH (length (y :: pre))); [simpl in *; lia|reflexivity|].
    exact Hlast.
Qed.

(* ---- the chain of parents ---- *)
Lemma removelast_snoc {A} (l : list A) x : removelast (l ++ [x]) = l.
Proof. apply removelast_last. Qed.

Lemma loop_relative fuel (ds : list str) ign :
  (length ds < fuel)%nat ->
  is_parent_ignored_loop fuel (mkPath [] ds) ign
  = Some (bool_decide (Exists (λ d, d ∈ ign) ds)).
Proof.
  revert fuel. induction ds as [|d ds IH] using rev_ind; intros fuel Hf.
  - destruct fuel; [simpl in Hf; lia|]. cbn [is_parent_ignored_loop].
    unfold path_eqb. cbn [path_parts Path_dot].
    rewrite bool_decide_eq_true_2 by reflexivity.
    rewrite bool_decide_eq_false_2; [reflexivity|]. now rewrite Exists_nil.
  - rewrite length_app in Hf. simpl in Hf.
    destruct fuel; [lia|]. cbn [is_parent_ignored_loop].
    unfold path_eqb. cbn [path_parts Path_dot].
    rewrite bool_decide_eq_false_2 by (now destruct ds).
    unfold path_name. cbn [path_parts path_root].
    destruct (decide (@nil ascii = [])); [|congruence].
    rewrite length_app. simpl length.
    destruct (Nat.eqb_spec (length ds + 1) 0); [lia|].
    rewrite last_last.
    destruct (decide (d ∈ ign)) as [Hin|Hin].
    + rewrite bool_decide_eq_true_2 by assumption.
      rewrite bool_decide_eq_true_2; [reflexivity|].
      apply Exists_app. right. now constructor.
    + rewrite bool_decide_eq_false_2 by assumption.
      unfold path_parent. cbn [path_parts path_root].
      rewrite bool_decide_eq_true_2 by reflexivity. rewrite andb_false_r.
      rewrite removelast_last. rewrite IH by lia.
      f_equal. apply bool_decide_ext. rewrite Exists_app.
      split; [tauto|]. intros [H|H]; [assumption|].
      inversion H as [? ? H1|? ? H1]; subst; [contradiction|inversion H1].
Qed.

Lemma parent_absolute p : absolute p -> absolute (path_parent p).
Proof.
  intros [Hr Hh]. unfold path_parent.
  destruct (Nat.eqb_spec (length (path_parts p)) 1) as [E|E]; simpl.
  - rewrite bool_decide_eq_false_2 by assumption. simpl. now split.
  - split; [exact Hr|]. simpl.
    destruct (path_parts p) as [|a [|b l]]; simpl in *; try congruence.
Qed.

Lemma absolute_not_dot p : absolute p -> path_eqb p Path_dot = false.
Proof.
  intros [Hr Hh]. unfold path_eqb. apply bool_decide_eq_false_2.
  simpl. intros E. rewrite E in Hh. discriminate.
Qed.

Lemma loop_absolute fuel p ign :
  absolute p -> is_parent_ignored_loop fuel p ign ≠ Some false.
Proof.
  revert p. induction fuel as [|fuel IH]; intros p Ha; simpl; [discriminate|].
  rewrite absolute_not_dot by assumption.
  destruct (bool_decide _); [discriminate|].
  apply IH. now apply parent_absolute.
Qed.

Lemma iter_parent_absolute k p :
  absolute p -> absolute (Nat.iter k path_parent p).
Proof. intros Ha. induction k; simpl; [assumption|]. now apply parent_absolute. Qed.

(* ---- the directory walk ---- *)

Lemma get_arborescence_unfold name children fo fi indent :
  arborescence_of_item fo fi indent (Dir name children)
  = if bool_decide (name ∈ fi) then []
    else if negb (bool_decide (name ∈ fo))
         then listing_line indent name ++ get_arborescence children fo fi (S indent)
         else [].
Proof. reflexivity. Qed.

Lemma path_line_cons indent name p :
  p <> [] -> path_line indent (name :: p) = path_line (S indent) p.
Proof.
  intros Hp. unfold path_line. destruct p as [|a p]; [congruence|].
  cbn [length]. replace (indent + (S (S (length p)) - 1))%nat
    with (S indent + (S (length p) - 1))%nat by lia.
  reflexivity.
Qed.

Lemma listed_of_item_nonempty fo fi e p : p ∈ listed_of_item fo fi e -> p <> [].
Proof.
  destruct e as [name children|name|name]; cbn [listed_of_item entry_name];
    destruct (bool_decide (name ∈ fi)); try (intros Hin; now apply not_elem_of_nil in Hin).
  - destruct (negb _); [|intros Hin; now apply not_elem_of_nil in Hin].
    intros Hin. apply elem_of_cons in Hin as [->|Hin]; [discriminate|].
    apply list_elem_of_fmap in Hin as (q & -> & _). discriminate.
  - destruct (existsb _ _); [|intros Hin; now apply not_elem_of_nil in Hin].
    intros Hin. apply elem_of_cons in Hin as [->|Hin]; [discriminate|].
    now apply not_elem_of_nil in Hin.
Qed.

Lemma arborescence_of_item_lines fo fi e : forall indent,
  arborescence_of_item fo fi indent e
  = concat (map (path_line indent) (listed_of_item fo fi e)).
Proof.
  induction e as [name children IH|name|name] using entry_rect_nested; intros indent.
  - cbn [arborescence_of_item listed_of_item entry_name].
    destruct (bool_decide (name ∈ fi)); [reflexivity|].
    destruct (negb (bool_decide (name ∈ fo))); [|reflexivity].
    cbn [map concat]. unfold path_line at 1. cbn [length List.last].
    rewrite Nat.add_0_r. f_equal.
    induction IH as [|c cs Hc _ IHcs]; [reflexivity|].
    cbn [map concat]. rewrite map_app, map_app, concat_app. rewrite <- IHcs.
    f_equal. rewrite Hc. rewrite map_map. f_equal.
    apply map_ext_in. intros p Hp. symmetry. apply path_line_cons.
    apply (listed_of_item_nonempty fo fi c). now apply list_elem_of_In.
  - cbn [arborescence_of_item listed_of_item entry_name].
    destruct (bool_decide _); [reflexivity|].
    destruct (existsb _ _); [|reflexivity].
    cbn [map concat]. unfold path_line. cbn [length List.last].
    now rewrite Nat.add_0_r, app_nil_r.
  - cbn [arborescence_of_item listed_of_item entry_name].
    now destruct (bool_decide _).
Qed.

Lemma get_arborescence_lines items fo fi indent :
  get_arborescence items fo fi indent
  = concat (map (path_line indent) (listed_paths items fo fi)).
Proof.
  unfold get_arborescence, listed_paths.
  induction items as [|e items IH]; [reflexivity|].
  cbn [map concat]. rewrite map_app, concat_app, <- IH.
  now rewrite arborescence_of_item_lines.
Qed.

Lemma elem_of_concat_map {A B} (f : A -> list B) (l : list A) (y : B) :
  y ∈ concat (map f l) <-> exists x, x ∈ l /\ y ∈ f x.
Proof.
  induction l as [|a l IH]; cbn [map concat].
  - split; [intros H; now apply not_elem_of_nil in H|].
    intros (x & H & _). now apply not_elem_of_nil in H.
  - rewrite elem_of_app, IH. split.
    + intros [H|(x & Hx & Hy)]; [exists a|exists x]; split; auto; now constructor.
    + intros (x & Hx & Hy). apply elem_of_cons in Hx as [->|Hx]; [now left|].
      right. now exists x.
Qed.

Lemma listed_of_item_reaches fo fi e :
  forall items p, e ∈ items -> p ∈ listed_of_item fo fi e ->
  exists e', reaches fo fi items p e'.
Proof.
  induction e as [name children IH|name|name] using entry_rect_nested;
    intros items p He; cbn [listed_of_item entry_name];
    destruct (bool_decide_reflect (name ∈ fi)) as [Hfi|Hfi];
    try (intros Hin; now apply not_elem_of_nil in Hin).
  - destruct (bool_decide_reflect (name ∈ fo)) as [Hfo|Hfo]; cbn [negb];
      [intros Hin; now apply not_elem_of_nil in Hin|].
    intros Hin. apply elem_of_cons in Hin as [->|Hin].
    + exists (Dir name children).
      apply (reaches_here fo fi items (Dir name children)); auto.
    + apply list_elem_of_fmap in Hin as (q & -> & Hq).
      apply elem_of_concat_map in Hq as (c & Hc & Hq).
      rewrite Forall_forall in IH.
      destruct (IH c Hc children q Hc Hq) as (e' & He').
      exists e'. now apply (reaches_below fo fi items name children).
  - destruct (existsb (endswith name) ALLOWED_EXTENSIONS) eqn:Hext;
      [|intros Hin; now apply not_elem_of_nil in Hin].
    intros Hin. apply elem_of_cons in Hin as [->|Hin];
      [|now apply not_elem_of_nil in Hin].
    exists (RegularFile name).
    apply (reaches_here fo fi items (RegularFile name)); auto.
Qed.

Lemma reaches_listed fo fi items p e :
  reaches fo fi items p e -> p ∈ listed_paths items fo fi.
Proof.
  induction 1 as [items e He Hfi Hshown|items name children p e Hd Hfi Hfo _ IH];
    unfold listed_paths; apply elem_of_concat_map.
  - exists e. split; [assumption|].
    destruct e as [name children|name|name]; cbn [listed_of_item entry_name] in *;
      rewrite bool_decide_eq_false_2 by assumption.
    + rewrite bool_decide_eq_false_2 by assumption. cbn [negb]. now left.
    + rewrite Hshown. now left.
    + contradiction.
  - exists (Dir name children). split; [assumption|].
    cbn [listed_of_item entry_name].
    rewrite !bool_decide_eq_false_2 by assumption. cbn [negb].
    right. apply list_elem_of_fmap. now exists p.
Qed.

Lemma listed_paths_iff fo fi items p :
  p ∈ listed_paths items fo fi <-> exists e, reaches fo fi items p e.
Proof.
  split.
  - unfold listed_paths. intros Hin.
    apply elem_of_concat_map in Hin as (e & He & Hp).
    now apply (listed_of_item_reaches fo fi e).
  - intros (e & He). now apply (reaches_listed fo fi items p e).
Qed.

Lemma reaches_ancestors fo fi items p e :
  reaches fo fi items p e ->
  List.last p [] = entry_name e
  /\ (forall d, d ∈ removelast p -> (d ∉ fo) /\ (d ∉ fi))
  /\ (entry_name e ∉ fi)
  /\ (is_dir e = true -> entry_name e ∉ fo)
  /\ (is_dir e = false ->
      is_file e = true /\ existsb (endswith (entry_name e)) ALLOWED_EXTENSIONS = true).
Proof.
  induction 1 as [items e He Hfi Hshown|items name children p e Hd Hfi Hfo Hr IH].
  - split; [reflexivity|]. split; [intros d Hd; now apply not_elem_of_nil in Hd|].
    split; [assumption|].
    destruct e; cbn in *; split; try discriminate; try contradiction; auto.
  - destruct IH as (Hl & Hanc & Hrest).
    assert (Hp : p <> []) by (inversion Hr; discriminate).
    split; [destruct p; [congruence|exact Hl]|].
    split; [|exact Hrest].
    intros d Hin. destruct p as [|a p]; [congruence|].
    cbn [removelast] in Hin. 
    change (d ∈ name :: removelast (a :: p)) in Hin.
    apply elem_of_cons in Hin as [->|Hin]; [now split|]. now apply Hanc.
Qed.

(* ---- the token loop ---- *)
Lemma strip_step_lines st t :
  strip_step st t
  = mkState (clean_code_lines st
             ++ (if (snd (tok_start t) >? (if (fst (tok_start t) >? last_lineno st)%Z
                                           then 0 else last_col st))%Z
                 then [spaces (snd (tok_start t)
                               - (if (fst (tok_start t) >? last_lineno st)%Z
                                  then 0 else last_col st))] else [])
             ++ (if kept (prev_toktype st) t then [tok_string t] else []))
            (tok_type_of t) (fst (tok_end t)) (snd (tok_end t)).
Proof.
  destruct t as [ty s [sl sc] [el ec]]. unfold strip_step, kept.
  cbn [tok_type_of tok_string tok_start tok_end fst snd].
  destruct (Z.gtb sc _); destruct ty; cbn [negb andb];
    repeat (destruct (bool_decide _); cbn [negb andb]);
    rewrite <- ?app_assoc, ?app_nil_r; reflexivity.
Qed.

Lemma fold_strip_step toks : forall st,
  concat (clean_code_lines (fold_left strip_step toks st))
  = concat (clean_code_lines st)
    ++ pieces (prev_toktype st) (last_lineno st) (last_col st) toks.
Proof.
  induction toks as [|t toks IH]; intros st; cbn [fold_left pieces].
  - now rewrite app_nil_r.
  - rewrite IH, strip_step_lines. cbn [clean_code_lines prev_toktype last_lineno last_col].
    rewrite !concat_app, <- !app_assoc. f_equal. unfold gap.
    destruct (Z.gtb (snd (tok_start t)) _); destruct (kept _ t); cbn [concat app];
      rewrite ?app_nil_r; reflexivity.
Qed.

Lemma strip_tokens_pieces toks : strip_tokens toks = pieces INDENT (-1) 0 toks.
Proof. unfold strip_tokens. now rewrite fold_strip_step. Qed.

(* ---- the body reducer ---- *)

Lemma visit_docstring d : is_docstring d = true -> visit d = d.
Proof. destruct d; try discriminate. reflexivity. Qed.

Lemma reduced_body_spec body :
  match body with
  | docstring :: _ =>
      if is_docstring docstring then [visit docstring; pass_stmt] else [pass_stmt]
  | [] => [pass_stmt]
  end = reduced_body body.
Proof.
  destruct body as [|d body]; [reflexivity|].
  destruct d; try reflexivity.
  destruct value as [[]|]; reflexivity.
Qed.

Lemma visit_FunctionDef name args body decorator_list returns :
  visit (FunctionDef name args body decorator_list returns)
  = FunctionDef name args (reduced_body body) decorator_list returns.
Proof. cbn [visit]. now rewrite reduced_body_spec. Qed.

Lemma visit_AsyncFunctionDef name args body decorator_list returns :
  visit (AsyncFunctionDef name args body decorator_list returns)
  = AsyncFunctionDef name args (reduced_body body) decorator_list returns.
Proof. cbn [visit]. now rewrite reduced_body_spec. Qed.

















Section GrammarFacts.
Variable valid_header : node -> Prop.
Hypothesis valid_pass : valid_header Pass.




End GrammarFacts.

(* ---- strings, paths and the settings file ---- *)
Lemma startswith_true s p : startswith s p = true <-> p `prefix_of` s.
Proof.
  unfold startswith. rewrite bool_decide_eq_true. split.
  - intros H. exists (drop (length p) s). now rewrite <- H at 1; rewrite take_drop.
  - intros [t ->]. now rewrite take_app_length.
Qed.

Lemma startswith_app p t : startswith (p ++ t) p = true.
Proof. apply startswith_true. now exists t. Qed.

Lemma startswith_false s p : startswith s p = false <-> ~ p `prefix_of` s.
Proof. rewrite <- startswith_true. now destruct (startswith s p). Qed.

Lemma contains_occurs old s : contains old s = true <-> occurs old s.
Proof.
  induction s as [|c s IH]; cbn [contains].
  - rewrite orb_false_r, startswith_true. split.
    + intros [t H]. exists [], t. exact H.
    + intros (a & b & H). destruct a; [now exists b|discriminate].
  - rewrite orb_true_iff, IH, startswith_true. split.
    + intros [[t H]|(a & b & H)]; [exists [], t; exact H|].
      exists (c :: a), b. now rewrite H.
    + intros (a & b & H). destruct a as [|x a]; [left; now exists b|].
      right. injection H as -> ->. now exists a, b.
Qed.

Lemma not_occurs_cons old c s : ~ occurs old (c :: s) -> ~ occurs old s.
Proof. intros H (a & b & ->). apply H. now exists (c :: a), b. Qed.

Lemma not_occurs_prefix old s : ~ occurs old s -> ~ old `prefix_of` s.
Proof. intros H [t ->]. apply H. now exists [], t. Qed.

(* an occurrence cannot start inside e and run into the separator after it *)
Lemma no_straddle sep e rest :
  border_free sep -> ~ occurs sep e -> e <> [] ->
  ~ sep `prefix_of` e ++ sep ++ rest.
Proof.
  intros Hb Ho He [t Ht].
  apply app_eq_app in Ht as [l [[H1 H2]|[H1 H2]]].
  - apply Ho. exists [], l. now rewrite H1.
  - assert (Hlen : (0 < length e < length sep)%nat).
    { rewrite H1, length_app. destruct e; [congruence|]. destruct l; cbn; [|lia].
      exfalso. apply Ho. exists [], []. now rewrite H1, !app_nil_r. }
    apply (Hb (length e) Hlen).
    rewrite H1 at 1. rewrite drop_app_length.
    apply app_eq_app in H2 as [l' [[H3 H4]|[H3 H4]]].
    + now exists l'.
    + apply (f_equal length) in H3. rewrite H1, !length_app in H3.
      rewrite H1, length_app in Hlen. lia.
Qed.

Lemma border_free_single c : border_free [c].
Proof. intros k Hk. cbn in Hk. lia. Qed.

Lemma border_free_comma_space : border_free (py ", ").
Proof.
  intros k Hk. cbn in Hk. assert (k = 1)%nat as -> by lia.
  cbn. intros [t H]. discriminate.
Qed.

Lemma split_from_skip sep k cur s :
  split_from sep k cur s = split_from sep 0 cur (drop k s).
Proof.
  revert k. induction s as [|c s IH]; intros [|k]; cbn [split_from drop]; auto.
Qed.

Lemma split_from_match sep cur rest :
  sep <> [] ->
  split_from sep 0 cur (sep ++ rest) = rev cur :: split_from sep 0 [] rest.
Proof.
  intros Hs. destruct sep as [|c sep]; [congruence|].
  change ((c :: sep) ++ rest) with (c :: (sep ++ rest)). cbn [split_from].
  change (c :: sep ++ rest) with ((c :: sep) ++ rest). rewrite startswith_app.
  f_equal. rewrite split_from_skip.
  replace (length (c :: sep) - 1)%nat with (length sep) by (cbn [length]; lia).
  now rewrite drop_app_length.
Qed.

Lemma split_from_step sep cur c s :
  startswith (c :: s) sep = false ->
  split_from sep 0 cur (c :: s) = split_from sep 0 (c :: cur) s.
Proof. intros H. cbn [split_from]. now rewrite H. Qed.

Lemma split_from_element sep e : forall cur rest,
  border_free sep -> sep <> [] -> ~ occurs sep e ->
  split_from sep 0 cur (e ++ sep ++ rest)
  = rev (rev e ++ cur) :: split_from sep 0 [] rest.
Proof.
  induction e as [|c e IH]; intros cur rest Hb Hs Ho.
  - cbn [app rev]. now apply split_from_match.
  - change ((c :: e) ++ sep ++ rest) with (c :: (e ++ sep ++ rest)).
    rewrite split_from_step.
    + rewrite IH by eauto using not_occurs_cons. cbn [rev]. now rewrite <- app_assoc.
    + apply startswith_false.
      change (c :: e ++ sep ++ rest) with ((c :: e) ++ sep ++ rest).
      now apply no_straddle.
Qed.

Lemma split_from_last sep e : forall cur,
  sep <> [] -> ~ occurs sep e ->
  split_from sep 0 cur e = [rev (rev e ++ cur)].
Proof.
  induction e as [|c e IH]; intros cur Hs Ho; [reflexivity|].
  rewrite split_from_step.
  - rewrite IH by eauto using not_occurs_cons. cbn [rev]. now rewrite <- app_assoc.
  - apply startswith_false. now apply not_occurs_prefix.
Qed.

Lemma split_join sep l :
  border_free sep -> sep <> [] -> l <> [] ->
  Forall (fun e => ~ occurs sep e) l ->
  split sep (join sep l) = l.
Proof.
  intros Hb Hs Hl Ho. unfold split.
  induction Ho as [|e l He Ho IH]; [congruence|].
  destruct l as [|e' l].
  - cbn [join]. rewrite split_from_last by assumption.
    now rewrite app_nil_r, rev_involutive.
  - change (join sep (e :: e' :: l)) with (e ++ sep ++ join sep (e' :: l)).
    rewrite split_from_element by assumption.
    rewrite app_nil_r, rev_involutive. f_equal. now apply IH.
Qed.

Lemma replace_from_skip old new k s :
  replace_from old new k s = replace_from old new 0 (drop k s).
Proof.
  revert k. induction s as [|c s IH]; intros [|k]; cbn [replace_from drop]; auto.
Qed.

Lemma replace_match old new rest :
  old <> [] -> replace old new (old ++ rest) = new ++ replace old new rest.
Proof.
  intros Hs. unfold replace. destruct old as [|c old]; [congruence|].
  change ((c :: old) ++ rest) with (c :: (old ++ rest)). cbn [replace_from].
  change (c :: old ++ rest) with ((c :: old) ++ rest). rewrite startswith_app.
  f_equal. rewrite replace_from_skip.
  replace (length (c :: old) - 1)%nat with (length old) by (cbn [length]; lia).
  now rewrite drop_app_length.
Qed.

Lemma replace_step old new c s :
  startswith (c :: s) old = false ->
  replace old new (c :: s) = c :: replace old new s.
Proof. intros H. unfold replace. cbn [replace_from]. now rewrite H. Qed.

Lemma replace_char_cons c0 new c s :
  replace [c0] new (c :: s)
  = if decide (c = c0) then new ++ replace [c0] new s else c :: replace [c0] new s.
Proof.
  destruct (decide (c = c0)) as [->|Hne].
  - apply (replace_match [c0] new s). discriminate.
  - apply replace_step. apply startswith_false. intros [t H]. now injection H.
Qed.

Section Marker.
(* a character c0 written as the marker a :: m, which holds neither c0 nor a second a *)
Variables (c0 a : ascii) (m : str).
Hypothesis a_fresh : a ∉ m.
Hypothesis c0_fresh : c0 ∉ a :: m.

Lemma marker_tail_prefix m' : forall s,
  a ∉ m' -> m' `prefix_of` replace [c0] (a :: m) s -> m' `prefix_of` s.
Proof.
  induction m' as [|x m' IH]; intros s Ha Hp; [apply prefix_nil|].
  destruct s as [|y s].
  - destruct Hp as [t Ht]. discriminate.
  - rewrite replace_char_cons in Hp. destruct (decide (y = c0)) as [->|Hy].
    + destruct Hp as [t Ht]. injection Ht as -> _.
      exfalso. apply Ha. now left.
    + destruct Hp as [t Ht]. injection Ht as -> Ht.
      apply prefix_cons. apply IH; [|now exists t].
      intros Hin. apply Ha. now right.
Qed.

Lemma decode_encode s :
  ~ occurs (a :: m) s ->
  replace (a :: m) [c0] (replace [c0] (a :: m) s) = s.
Proof.
  induction s as [|y s IH]; intros Ho; [reflexivity|].
  rewrite replace_char_cons. destruct (decide (y = c0)) as [->|Hy].
  - rewrite replace_match by discriminate. cbn [app]. f_equal.
    apply IH. eauto using not_occurs_cons.
  - rewrite replace_step.
    + f_equal. apply IH. eauto using not_occurs_cons.
    + apply startswith_false. intros [t Ht]. injection Ht as -> Ht.
      apply (not_occurs_prefix _ _ Ho). apply prefix_cons.
      apply marker_tail_prefix; [exact a_fresh|now exists t].
Qed.

Lemma encode_no_c0 s : c0 ∉ replace [c0] (a :: m) s.
Proof.
  induction s as [|y s IH]; [apply not_elem_of_nil|].
  rewrite replace_char_cons. destruct (decide (y = c0)) as [->|Hy].
  - rewrite elem_of_app. intros [H|H]; [now apply c0_fresh|now apply IH].
  - rewrite elem_of_cons. intros [H|H]; [congruence|now apply IH].
Qed.

Lemma encode_keeps_out (x : ascii) s :
  x ∉ a :: m -> x ∉ s -> x ∉ replace [c0] (a :: m) s.
Proof.
  intros Hx. induction s as [|y s IH]; intros Hs; [apply not_elem_of_nil|].
  rewrite replace_char_cons. apply not_elem_of_cons in Hs as [Hxy Hs].
  destruct (decide (y = c0)) as [->|Hy].
  - rewrite elem_of_app. intros [H|H]; [now apply Hx|now apply IH].
  - rewrite elem_of_cons. intros [H|H]; [congruence|now apply IH].
Qed.
End Marker.

Lemma lstrip_head s : (forall c, head s = Some c -> is_space c = false) -> lstrip s = s.
Proof. destruct s as [|c s]; [reflexivity|]. intros H. cbn. now rewrite (H c). Qed.

Lemma lstrip_spaces ws s :
  Forall (fun c => is_space c = true) ws -> lstrip (ws ++ s) = lstrip s.
Proof.
  induction 1 as [|c ws Hc _ IH]; [reflexivity|]. cbn. now rewrite Hc.
Qed.

Lemma last_rev_head {A} (s : list A) : head (rev s) = last s.
Proof.
  induction s as [|c s IH] using rev_ind; [reflexivity|].
  now rewrite rev_app_distr, last_snoc.
Qed.

Lemma rstrip_spaces s ws :
  (forall c, last s = Some c -> is_space c = false) ->
  Forall (fun c => is_space c = true) ws -> rstrip (s ++ ws) = s.
Proof.
  intros Hl Hws. unfold rstrip. rewrite rev_app_distr.
  rewrite lstrip_spaces by (now apply Forall_rev).
  rewrite lstrip_head; [apply rev_involutive|].
  intros c Hc. apply Hl. now rewrite <- last_rev_head.
Qed.

Lemma strip_trimmed s ws :
  trimmed s -> Forall (fun c => is_space c = true) ws -> strip (s ++ ws) = s.
Proof.
  intros [Hh Hl] Hws. unfold strip. destruct s as [|c s].
  - cbn [app]. rewrite <- (app_nil_r ws) at 1. rewrite lstrip_spaces by assumption.
    reflexivity.
  - rewrite lstrip_head; [now apply rstrip_spaces|].
    intros x Hx. apply Hh. exact Hx.
Qed.

Lemma strip_trimmed_id s : trimmed s -> strip s = s.
Proof. intros H. rewrite <- (app_nil_r s) at 1. apply strip_trimmed; [exact H|constructor]. Qed.

Lemma strip_line s : trimmed s -> strip (s ++ [LF]) = s.
Proof. intros H. apply strip_trimmed; [exact H|]. repeat constructor. Qed.

Lemma lstrip_length s : (length (lstrip s) <= length s)%nat.
Proof.
  induction s as [|c s IH]; [reflexivity|]. cbn. destruct (is_space c); cbn; lia.
Qed.

Lemma lstrip_same_length s : length (lstrip s) = length s -> lstrip s = s.
Proof.
  destruct s as [|c s]; [reflexivity|]. cbn. destruct (is_space c); [|reflexivity].
  intros H. pose proof (lstrip_length s). lia.
Qed.

Lemma lstrip_head_not_space s c : head (lstrip s) = Some c -> is_space c = false.
Proof.
  induction s as [|x s IH]; [discriminate|]. cbn.
  destruct (is_space x) eqn:E; [exact IH|]. cbn. now intros [= <-].
Qed.

Lemma strip_fixed_trimmed s : strip s = s -> trimmed s.
Proof.
  intros H.
  assert (Hl : lstrip s = s).
  { apply lstrip_same_length. apply (f_equal length) in H.
    unfold strip, rstrip in H. rewrite length_rev in H.
    pose proof (lstrip_length (rev (lstrip s))) as H1. rewrite length_rev in H1.
    pose proof (lstrip_length s). lia. }
  split.
  - intros c Hc. apply (lstrip_head_not_space s). now rewrite Hl.
  - intros c Hc. rewrite <- H in Hc. unfold strip, rstrip in Hc.
    rewrite <- last_rev_head, rev_involutive in Hc.
    now apply lstrip_head_not_space in Hc.
Qed.

Lemma universal_newlines_id s : CR ∉ s -> universal_newlines s = s.
Proof.
  induction s as [|c s IH]; intros H; [reflexivity|].
  apply not_elem_of_cons in H as [Hc Hs]. cbn [universal_newlines].
  destruct (decide (c = CR)); [congruence|]. now rewrite IH.
Qed.

Lemma readline_line l rest : LF ∉ l -> readline (l ++ LF :: rest) = (l ++ [LF], rest).
Proof.
  induction l as [|c l IH]; intros H; cbn [app readline].
  - destruct (decide (LF = LF)); [reflexivity|congruence].
  - apply not_elem_of_cons in H as [Hc Hl].
    destruct (decide (c = LF)); [congruence|]. now rewrite IH.
Qed.

Lemma not_space_not_LF l : Forall (fun c => is_space c = false) l -> LF ∉ l.
Proof.
  intros H Hin. rewrite Forall_forall in H. apply H in Hin. discriminate.
Qed.

Lemma digits_all_digits d : all_digits (digits d).
Proof. induction d; cbn [digits]; constructor; auto; discriminate. Qed.

Lemma digit_not_space c : digit_value c <> None -> is_space c = false.
Proof.
  unfold digit_value, is_space. intros H.
  destruct (48 <=? nat_of_ascii c)%nat eqn:E1; [|now destruct H].
  destruct (nat_of_ascii c <=? 57)%nat eqn:E2; [|now destruct H].
  apply Nat.leb_le in E1, E2.
  repeat match goal with
         | |- context [(?a <=? ?b)%nat] => destruct (Nat.leb_spec a b); try lia
         | |- context [(?a =? ?b)%nat] => destruct (Nat.eqb_spec a b); try lia
         end; reflexivity.
Qed.

Lemma all_digits_trimmed s : all_digits s -> trimmed s.
Proof.
  unfold all_digits. intros H. split; intros c Hc; apply digit_not_space;
    rewrite Forall_forall in H; apply H.
  - destruct s; [discriminate|]. injection Hc as ->. now left.
  - apply last_Some in Hc as [l' ->]. apply elem_of_app. right. now left.
Qed.

Lemma int_digits_of_uint d : forall acc b,
  (d <> Decimal.Nil \/ b = true) ->
  int_digits (Z.of_nat acc) b (digits d) = Some (Z.of_nat (Nat.of_uint_acc d acc)).
Proof.
  induction d; intros acc b Hb; cbn [digits int_digits Nat.of_uint_acc].
  1: destruct Hb as [H| ->]; [congruence|reflexivity].
  all: rewrite Nat.tail_mul_spec.
  all: match goal with
       | |- context [decide (?c = "_")] =>
           destruct (decide (c = "_")) as [E|_]; [discriminate E|]
       end.
  all: match goal with
       | |- context [digit_value ?c] =>
           let v := eval vm_compute in (digit_value c) in
           change (digit_value c) with v; cbv iota
       end.
  all: match goal with
       | |- int_digits ?z true _ = Some (Z.of_nat (Nat.of_uint_acc _ ?n)) =>
           replace z with (Z.of_nat n) by lia
       end.
  all: apply IHd; now right.
Qed.

Lemma revapp_nonnil d : forall acc,
  (d <> Decimal.Nil \/ acc <> Decimal.Nil) -> Decimal.revapp d acc <> Decimal.Nil.
Proof.
  induction d; intros acc H; cbn [Decimal.revapp];
    try (apply IHd; right; discriminate).
  destruct H; congruence.
Qed.

Lemma little_succ_nonnil d : Decimal.Little.succ d <> Decimal.Nil.
Proof. destruct d; discriminate. Qed.

Lemma to_little_uint_nonnil n : forall acc,
  acc <> Decimal.Nil -> Nat.to_little_uint n acc <> Decimal.Nil.
Proof.
  induction n as [|n IH]; intros acc H; cbn [Nat.to_little_uint]; [exact H|].
  apply IH, little_succ_nonnil.
Qed.

Lemma to_uint_nonnil n : Nat.to_uint n <> Decimal.Nil.
Proof.
  unfold Nat.to_uint, Decimal.rev. apply revapp_nonnil. left.
  apply to_little_uint_nonnil. discriminate.
Qed.

Lemma int_space_is_space c : is_int_space c = true -> is_space c = true.
Proof.
  unfold is_int_space, is_space. generalize (nat_of_ascii c). intros n.
  rewrite !orb_true_iff, !andb_true_iff, !Nat.leb_le, !Nat.eqb_eq. lia.
Qed.

Lemma lstrip_int_head s :
  (forall c, head s = Some c -> is_space c = false) -> lstrip_int s = s.
Proof.
  destruct s as [|c s]; [reflexivity|]. intros H. cbn.
  destruct (is_int_space c) eqn:E; [|reflexivity].
  apply int_space_is_space in E. rewrite (H c) in E by reflexivity. discriminate.
Qed.

Lemma strip_int_trimmed s : trimmed s -> strip_int s = s.
Proof.
  intros [Hh Hl]. unfold strip_int. rewrite (lstrip_int_head s Hh).
  rewrite lstrip_int_head; [apply rev_involutive|].
  intros c Hc. apply Hl. now rewrite <- last_rev_head.
Qed.

Lemma int_str_of_nat n : int (str_of_nat n) = Some (Z.of_nat n).
Proof.
  unfold int, str_of_nat.
  rewrite strip_int_trimmed by (apply all_digits_trimmed, digits_all_digits).
  assert (H : int_digits 0 false (digits (Nat.to_uint n)) = Some (Z.of_nat n)).
  { change 0%Z with (Z.of_nat 0). rewrite int_digits_of_uint.
    - f_equal. f_equal. apply DecimalNat.Unsigned.of_to.
    - left. apply to_uint_nonnil. }
  pose proof (digits_all_digits (Nat.to_uint n)) as Hd.
  destruct (digits (Nat.to_uint n)) as [|c r] eqn:E; [exact H|].
  apply Forall_cons_1 in Hd as [Hc _].
  destruct (decide (c = "-")) as [->|]; [now destruct Hc|].
  destruct (decide (c = "+")) as [->|]; [now destruct Hc|].
  destruct c as [[] [] [] [] [] [] [] []]; try exact H; congruence.
Qed.

Lemma no_space_Forall s : no_space s = true <-> Forall (fun c => is_space c = false) s.
Proof.
  unfold no_space. rewrite forallb_forall, Forall_forall. split; intros H c Hc.
  - apply list_elem_of_In in Hc. apply H in Hc. now destruct (is_space c).
  - apply list_elem_of_In in Hc. now rewrite (H c Hc).
Qed.

Lemma split_ws_from_word w : forall cur rest,
  no_space w = true -> split_ws_from cur (w ++ rest) = split_ws_from (rev w ++ cur) rest.
Proof.
  induction w as [|c w IH]; intros cur rest H; [reflexivity|].
  cbn in H. apply andb_true_iff in H as [Hc Hw].
  cbn [app split_ws_from rev]. destruct (is_space c); [discriminate|].
  rewrite IH by assumption. now rewrite <- app_assoc.
Qed.

Lemma split_ws_word_space w rest :
  w <> [] -> no_space w = true ->
  split_ws_from [] (w ++ " " :: rest) = w :: split_ws_from [] rest.
Proof.
  intros Hne H. rewrite split_ws_from_word by assumption. rewrite app_nil_r.
  cbn [split_ws_from]. change (is_space " ") with true. cbv iota.
  destruct (rev w) eqn:E; [|now rewrite <- E, rev_involutive].
  apply (f_equal (@rev ascii)) in E. rewrite rev_involutive in E. now destruct Hne.
Qed.

Lemma split_ws_word_end w :
  w <> [] -> no_space w = true -> split_ws_from [] w = [w].
Proof.
  intros Hne H. rewrite <- (app_nil_r w) at 1.
  rewrite split_ws_from_word by assumption. rewrite app_nil_r. cbn [split_ws_from].
  destruct (rev w) eqn:E; [|now rewrite <- E, rev_involutive].
  apply (f_equal (@rev ascii)) in E. rewrite rev_involutive in E. now destruct Hne.
Qed.

Lemma no_space_trimmed s : no_space s = true -> trimmed s.
Proof.
  intros H. apply no_space_Forall in H. rewrite Forall_forall in H.
  split; intros c Hc; apply H.
  - destruct s; [discriminate|]. injection Hc as ->. now left.
  - apply last_Some in Hc as [l' ->]. apply elem_of_app. right. now left.
Qed.

Lemma not_occurs_char c s : c ∉ s -> ~ occurs [c] s.
Proof.
  intros H (a & b & ->). apply H. apply elem_of_app. right. now left.
Qed.

Lemma component_ok_spec x :
  component_ok x = true -> x <> [] /\ x <> py "." /\ SEP ∉ x.
Proof.
  unfold component_ok. rewrite !andb_true_iff, !negb_true_iff, !bool_decide_eq_false.
  tauto.
Qed.

Lemma split_join_components ps :
  ps <> [] -> forallb component_ok ps = true -> split [SEP] (join [SEP] ps) = ps.
Proof.
  intros Hne H. apply split_join;
    [apply border_free_single|discriminate|exact Hne|].
  rewrite forallb_forall in H. apply Forall_forall. intros x Hx.
  apply not_occurs_char. apply list_elem_of_In, H, component_ok_spec in Hx. tauto.
Qed.

Lemma filter_components ps :
  forallb component_ok ps = true ->
  filter (fun x => x <> [] /\ x <> py ".") ps = ps.
Proof.
  induction ps as [|x ps IH]; [reflexivity|]. cbn [forallb].
  intros H. apply andb_true_iff in H as [Hx Hps]. apply component_ok_spec in Hx.
  rewrite filter_cons_True by tauto. now rewrite IH.
Qed.

Lemma join_components_head ps :
  forallb component_ok ps = true ->
  join [SEP] ps = [] \/ exists c s, join [SEP] ps = c :: s /\ c <> SEP.
Proof.
  destruct ps as [|x ps]; [now left|]. cbn [forallb]. intros H.
  apply andb_true_iff in H as [Hx _]. apply component_ok_spec in Hx as (Hne & _ & Hsep).
  right. destruct x as [|c x]; [congruence|]. exists c.
  assert (Hc : c <> SEP) by (intros ->; apply Hsep; now left).
  destruct ps as [|y ps].
  - exists x. now split.
  - exists (x ++ [SEP] ++ join [SEP] (y :: ps)). now split.
Qed.

Lemma parsed_components ps :
  forallb component_ok ps = true ->
  filter (fun x => x <> [] /\ x <> py ".") (split [SEP] (join [SEP] ps)) = ps.
Proof.
  intros H. destruct ps as [|x ps]; [reflexivity|].
  rewrite split_join_components by (auto; discriminate). now apply filter_components.
Qed.

Lemma Path_of_str_of_Path p : wf_path p = true -> Path_of_str (str_of_Path p) = p.
Proof.
  destruct p as [r ps]. unfold wf_path, str_of_Path. cbn [path_root path_parts].
  destruct r as [|r0 r].
  - intros H. destruct (join_components_head ps H) as [E|(c & s & E & Hc)].
    + rewrite E. destruct ps as [|x ps]; [reflexivity|].
      exfalso. cbn [forallb] in H. apply andb_true_iff in H as [Hx _].
      apply component_ok_spec in Hx as (Hne & _).
      destruct x; [congruence|]. destruct ps; discriminate E.
    + rewrite E. unfold Path_of_str, splitroot.
      destruct (decide (c = SEP)); [contradiction|].
      rewrite <- E. now rewrite parsed_components.
  - intros H. apply andb_true_iff in H as [Hr H].
    destruct ps as [|r' ps]; [discriminate|].
    apply andb_true_iff in H as [Hr' Hps]. apply bool_decide_eq_true in Hr'. subst r'.
    cbn [tail].
    assert (Hstrip : forall t, lstrip_char SEP (SEP :: t) = lstrip_char SEP t).
    { intros t. cbn. destruct (decide (SEP = SEP)); [reflexivity|congruence]. }
    assert (Hrel : lstrip_char SEP (join [SEP] ps) = join [SEP] ps).
    { destruct (join_components_head ps Hps) as [->|(c & s & -> & Hc)]; [reflexivity|].
      cbn. destruct (decide (c = SEP)); [contradiction|reflexivity]. }
    apply orb_true_iff in Hr as [Hr|Hr]; apply bool_decide_eq_true in Hr;
      injection Hr as -> ->; cbn [app]; unfold Path_of_str, splitroot;
      (destruct (decide (SEP = SEP)); [|congruence]);
      rewrite !Hstrip, Hrel; cbn [length];
      match goal with
      | |- context [(?a =? 2)%nat] =>
          let b := constr:((a =? 2)%nat) in
          first [ replace b with true by (symmetry; apply Nat.eqb_eq; lia)
                | replace b with false by (symmetry; apply Nat.eqb_neq; lia) ]
      end; now rewrite parsed_components.
Qed.

Example Path_dot_parsed : Path_of_str (py ".") = Path_dot.
Proof. reflexivity. Qed.

Lemma path_eqb_parts k k' : path_eqb k k' = true <-> path_parts k = path_parts k'.
Proof. unfold path_eqb. apply bool_decide_eq_true. Qed.

Lemma dict_get_eqb d k k' : path_eqb k k' = true -> dict_get d k = dict_get d k'.
Proof.
  intros H. apply path_eqb_parts in H.
  induction d as [|[k0 v] d IH]; [reflexivity|]. cbn [dict_get].
  unfold path_eqb in *. now rewrite H, IH.
Qed.

Lemma dict_set_fresh d k v :
  Forall (fun e => path_parts (fst e) <> path_parts k) d ->
  dict_set d k v = d ++ [(k, v)].
Proof.
  induction 1 as [|[k0 v0] d Hk _ IH]; [reflexivity|]. cbn [dict_set app fst] in *.
  unfold path_eqb. rewrite bool_decide_eq_false_2 by assumption. now rewrite IH.
Qed.

Lemma dict_get_app d1 d2 k :
  dict_get (d1 ++ d2) k = match dict_get d1 k with Some v => Some v | None => dict_get d2 k end.
Proof.
  induction d1 as [|[k0 v0] d1 IH]; [reflexivity|]. cbn [app dict_get].
  now destruct (path_eqb k0 k).
Qed.

Lemma str_of_bool_no_space b : no_space (str_of_bool b) = true.
Proof. now destruct b. Qed.

Lemma str_of_bool_True b : bool_decide (str_of_bool b = py "True") = b.
Proof. now destruct b. Qed.

Lemma str_of_Path_nonempty p : str_of_Path p <> [].
Proof. unfold str_of_Path. now destruct (match path_root p with [] => _ | _ => _ end). Qed.

Lemma no_space_app s t : no_space (s ++ t) = no_space s && no_space t.
Proof. unfold no_space. apply forallb_app. Qed.

Lemma no_space_no_CR s : no_space s = true -> CR ∉ s.
Proof.
  intros H Hin. apply no_space_Forall in H. rewrite Forall_forall in H.
  apply H in Hin. discriminate.
Qed.

Lemma no_space_no_LF s : no_space s = true -> LF ∉ s.
Proof. intros H. now apply not_space_not_LF, no_space_Forall. Qed.

Lemma words4_not_in c w1 w2 w3 w4 :
  c <> " " -> c ∉ w1 -> c ∉ w2 -> c ∉ w3 -> c ∉ w4 -> c ∉ words4 w1 w2 w3 w4.
Proof.
  intros Hc H1 H2 H3 H4. unfold words4.
  repeat (rewrite ?elem_of_app, ?elem_of_cons). tauto.
Qed.

Lemma words4_no_LF w1 w2 w3 w4 :
  no_space w1 = true -> no_space w2 = true -> no_space w3 = true -> no_space w4 = true ->
  (LF ∉ words4 w1 w2 w3 w4) /\ (CR ∉ words4 w1 w2 w3 w4).
Proof.
  intros H1 H2 H3 H4.
  split; apply words4_not_in; auto using no_space_no_LF, no_space_no_CR; discriminate.
Qed.

Lemma last_app_nonempty {A} (a b : list A) : b <> [] -> last (a ++ b) = last b.
Proof.
  intros H. rewrite last_app. destruct (last b) eqn:E; [reflexivity|].
  apply last_None in E. congruence.
Qed.

Lemma last_cons_nonempty {A} (x : A) b : b <> [] -> last (x :: b) = last b.
Proof. intros H. now apply (last_app_nonempty [x]). Qed.

Lemma words4_trimmed w1 w2 w3 w4 :
  w1 <> [] -> w4 <> [] -> no_space w1 = true -> no_space w4 = true ->
  trimmed (words4 w1 w2 w3 w4).
Proof.
  intros N1 N4 H1 H4. unfold words4. split; intros c Hc.
  - destruct w1 as [|x w1]; [congruence|]. cbn in Hc. injection Hc as <-.
    cbn in H1. apply andb_true_iff in H1 as [Hx _]. now destruct (is_space x).
  - destruct (no_space_trimmed _ H4) as [_ Hl]. apply Hl.
    rewrite last_app_nonempty, last_cons_nonempty in Hc by (try discriminate; now destruct w2).
    rewrite last_app_nonempty, last_cons_nonempty in Hc by (try discriminate; now destruct w3).
    rewrite last_app_nonempty, last_cons_nonempty in Hc by (try discriminate; assumption).
    exact Hc.
Qed.

Lemma split_ws_words4 w1 w2 w3 w4 :
  w1 <> [] -> w2 <> [] -> w3 <> [] -> w4 <> [] ->
  no_space w1 = true -> no_space w2 = true -> no_space w3 = true -> no_space w4 = true ->
  split_ws (words4 w1 w2 w3 w4) = [w1; w2; w3; w4].
Proof.
  intros. unfold split_ws, words4.
  rewrite !split_ws_word_space by assumption. now rewrite split_ws_word_end.
Qed.

Lemma save_line_words rc rf file v c f :
  dict_get rc file = Some c -> dict_get rf file = Some f ->
  save_line rc rf (file, v)
  = words4 (str_of_Path file) (str_of_bool v) (str_of_bool c) (str_of_bool f) ++ [LF].
Proof.
  intros Hc Hf. unfold save_line, words4. rewrite Hc, Hf.
  change (py " ") with [" "]. cbn [app].
  repeat (rewrite <- app_assoc; cbn [app]). reflexivity.
Qed.

Lemma str_of_bool_nonempty b : str_of_bool b <> [].
Proof. now destruct b. Qed.

Lemma load_files_step n file v c f rest s1 s2 s3 :
  path_ok file = true ->
  load_files (S n)
    ((words4 (str_of_Path file) (str_of_bool v) (str_of_bool c) (str_of_bool f) ++ [LF])
     ++ rest) s1 s2 s3
  = load_files n rest (dict_set s1 file v) (dict_set s2 file c) (dict_set s3 file f).
Proof.
  intros Hok. apply andb_true_iff in Hok as [Hwf Hns].
  cbn [load_files]. rewrite <- app_assoc. cbn [app].
  destruct (words4_no_LF (str_of_Path file) (str_of_bool v) (str_of_bool c) (str_of_bool f))
    as [HLF _]; auto using str_of_bool_no_space.
  rewrite readline_line by assumption.
  rewrite strip_line
    by (apply words4_trimmed; auto using str_of_bool_no_space, str_of_bool_nonempty,
          str_of_Path_nonempty).
  rewrite split_ws_words4
    by auto using str_of_bool_no_space, str_of_bool_nonempty, str_of_Path_nonempty.
  now rewrite Path_of_str_of_Path, !str_of_bool_True.
Qed.

Lemma fresh_of_keys (acc acc' : dict) k :
  map fst acc' = map fst acc ->
  Forall (fun e => path_parts (fst e) <> path_parts k) acc ->
  Forall (fun e => path_parts (fst e) <> path_parts k) acc'.
Proof.
  revert acc'. induction acc as [|e acc IH]; intros [|e' acc'] Hk H; try discriminate;
    [constructor|].
  cbn in Hk. injection Hk as He Hk. apply Forall_cons_1 in H as [H1 H2].
  constructor; [now rewrite He|now apply IH].
Qed.

Lemma load_files_saved rc rf sel : forall acc1 acc2 acc3 rest,
  Forall (fun e => path_ok (fst e) = true
                   /\ is_Some (dict_get rc (fst e)) /\ is_Some (dict_get rf (fst e))) sel ->
  keys_distinct (acc1 ++ sel) ->
  map fst acc2 = map fst acc1 -> map fst acc3 = map fst acc1 ->
  load_files (length sel) (concat (map (save_line rc rf) sel) ++ rest) acc1 acc2 acc3
  = (acc1 ++ sel, acc2 ++ flags_of rc sel, acc3 ++ flags_of rf sel, rest).
Proof.
  induction sel as [|[file v] sel IH]; intros acc1 acc2 acc3 rest Hsel Hnd H2 H3.
  - cbn. now rewrite !app_nil_r.
  - apply Forall_cons_1 in Hsel as [(Hok & [c Hc] & [f Hf]) Hsel]. cbn [fst] in *.
    cbn [length map concat]. rewrite (save_line_words rc rf file v c f Hc Hf).
    rewrite <- app_assoc. rewrite load_files_step by assumption.
    assert (Hfresh : Forall (fun e => path_parts (fst e) <> path_parts file) acc1).
    { unfold keys_distinct in Hnd. rewrite map_app in Hnd. cbn [map fst] in Hnd.
      apply NoDup_app in Hnd as (_ & Hnd & _).
      apply Forall_forall. intros e He Heq.
      apply (Hnd (path_parts (fst e))); [|rewrite Heq; now left].
      apply list_elem_of_fmap. now exists e. }
    rewrite !dict_set_fresh by eauto using fresh_of_keys.
    rewrite IH.
    + unfold flags_of. cbn [map fst]. rewrite Hc, Hf. cbn [default].
      now rewrite <- !app_assoc.
    + exact Hsel.
    + now rewrite <- app_assoc.
    + rewrite !map_app. now rewrite H2.
    + rewrite !map_app. now rewrite H3.
Qed.

Lemma dict_has_elem (d : dict) e : e ∈ d -> dict_has d (fst e) = true.
Proof.
  induction d as [|[k v] d IH]; intros H; [now apply not_elem_of_nil in H|].
  unfold dict_has. cbn [dict_get]. destruct (path_eqb k (fst e)) eqn:E; [reflexivity|].
  apply elem_of_cons in H as [->|H].
  - cbn in E. unfold path_eqb in E. now rewrite bool_decide_eq_true_2 in E.
  - now apply IH.
Qed.

Lemma dict_has_Some d k : dict_has d k = true <-> is_Some (dict_get d k).
Proof.
  unfold dict_has. destruct (dict_get d k); split; intros H; eauto; try discriminate.
  now destruct H.
Qed.

Lemma flags_of_get d sel k :
  Forall (fun e => is_Some (dict_get d (fst e))) sel ->
  dict_get (flags_of d sel) k = if dict_has sel k then dict_get d k else None.
Proof.
  induction 1 as [|[k0 v0] sel [c Hc] _ IH]; [reflexivity|].
  cbn [flags_of map fst dict_get] in *. unfold dict_has. cbn [dict_get].
  destruct (path_eqb k0 k) eqn:E.
  - rewrite <- (dict_get_eqb d k0 k E), Hc. reflexivity.
  - exact IH.
Qed.

Lemma flags_of_eq d sel :
  same_keys sel d -> dict_eq (flags_of d sel) d.
Proof.
  intros Hk k. rewrite flags_of_get.
  - rewrite (Hk k). unfold dict_has. now destruct (dict_get d k).
  - apply Forall_forall. intros e He. apply dict_has_Some.
    rewrite <- (Hk (fst e)). now apply dict_has_elem.
Qed.

Lemma join_not_in c sep l : c ∉ sep -> Forall (fun x => c ∉ x) l -> c ∉ join sep l.
Proof.
  intros Hsep. induction 1 as [|x l Hx Hl IH]; [apply not_elem_of_nil|].
  destruct l as [|y l]; [exact Hx|].
  change (join sep (x :: y :: l)) with (x ++ sep ++ join sep (y :: l)).
  rewrite !elem_of_app. tauto.
Qed.

Lemma join_nonempty sep x l : x <> [] -> join sep (x :: l) <> [].
Proof.
  intros Hx. destruct l; cbn [join]; [exact Hx|]. destruct x; [congruence|discriminate].
Qed.

Lemma join_trimmed sep l :
  Forall (fun x => x <> [] /\ trimmed x) l -> trimmed (join sep l).
Proof.
  induction 1 as [|x l [Hne [Hh Hl]] Hrest IH]; [split; discriminate|].
  destruct l as [|y l]; [now split|].
  change (join sep (x :: y :: l)) with (x ++ sep ++ join sep (y :: l)).
  split; intros c Hc.
  - apply Hh. destruct x; [congruence|exact Hc].
  - destruct IH as [_ IHl]. apply IHl.
    apply Forall_cons_1 in Hrest as [[Hy _] _].
    assert (Hj : join sep (y :: l) <> []) by now apply join_nonempty.
    rewrite last_app_nonempty in Hc by (destruct sep; cbn [app]; [exact Hj|discriminate]).
    rewrite last_app_nonempty in Hc by exact Hj.
    exact Hc.
Qed.

Lemma name_ok_spec x :
  name_ok x = true ->
  x <> [] /\ trimmed x /\ ~ occurs (py ", ") x /\ (LF ∉ x) /\ (CR ∉ x).
Proof.
  unfold name_ok. rewrite !andb_true_iff, !negb_true_iff, !bool_decide_eq_false,
    bool_decide_eq_true.
  intros ((((H1 & H2) & H3) & H4) & H5). repeat split; auto.
  - now apply strip_fixed_trimmed.
  - now apply strip_fixed_trimmed.
  - intros Ho. apply contains_occurs in Ho. congruence.
Qed.

Section Names.
Variable iter : gset str -> list str.
Hypothesis iter_elements : forall X x, x ∈ iter X <-> x ∈ X.
Variable X : gset str.
Hypothesis X_nonempty : X <> ∅.
Hypothesis X_names : forall x, x ∈ X -> name_ok x = true.

Let line := join (py ", ") (iter X).

Lemma iter_names : Forall (fun x => name_ok x = true) (iter X).
Proof. apply Forall_forall. intros x Hx. now apply X_names, iter_elements. Qed.

Lemma iter_nonempty : iter X <> [].
Proof.
  intros E. apply X_nonempty. apply set_eq. intros x.
  rewrite <- iter_elements, E.
  split; intros H; [now apply not_elem_of_nil in H|now apply not_elem_of_empty in H].
Qed.

Lemma names_line_nonempty : line <> [].
Proof.
  pose proof iter_names as H. pose proof iter_nonempty as Hne. unfold line.
  destruct (iter X) as [|x l]; [congruence|]. apply join_nonempty.
  apply Forall_cons_1 in H as [Hx _]. now apply name_ok_spec in Hx.
Qed.

Lemma names_line_no_LF : LF ∉ line.
Proof.
  apply join_not_in.
  - intros H. repeat (apply elem_of_cons in H as [H|H]; [discriminate|]).
    now apply not_elem_of_nil in H.
  - eapply Forall_impl; [apply iter_names|]. intros x Hx.
    apply name_ok_spec in Hx. tauto.
Qed.

Lemma names_line_no_CR : CR ∉ line.
Proof.
  apply join_not_in.
  - intros H. repeat (apply elem_of_cons in H as [H|H]; [discriminate|]).
    now apply not_elem_of_nil in H.
  - eapply Forall_impl; [apply iter_names|]. intros x Hx.
    apply name_ok_spec in Hx. tauto.
Qed.

Lemma names_line_strip : strip (line ++ [LF]) = line.
Proof.
  apply strip_line, join_trimmed.
  eapply Forall_impl; [apply iter_names|]. intros x Hx.
  apply name_ok_spec in Hx. tauto.
Qed.

Lemma names_line_split : list_to_set (split (py ", ") line) = X.
Proof.
  unfold line. rewrite split_join.
  - apply set_eq. intros x. now rewrite elem_of_list_to_set, iter_elements.
  - apply border_free_comma_space.
  - discriminate.
  - apply iter_nonempty.
  - eapply Forall_impl; [apply iter_names|]. intros x Hx.
    apply name_ok_spec in Hx. tauto.
Qed.
End Names.

Lemma replace_char_app c0 new s t :
  replace [c0] new (s ++ t) = replace [c0] new s ++ replace [c0] new t.
Proof.
  induction s as [|c s IH]; [reflexivity|]. cbn [app].
  rewrite !replace_char_cons. destruct (decide (c = c0)); rewrite IH.
  - now rewrite app_assoc.
  - reflexivity.
Qed.

Lemma trimmed_encode new s : trimmed s -> trimmed (replace [LF] new s).
Proof.
  intros [Hh Hl]. split; intros c Hc.
  - destruct s as [|x s]; [discriminate|].
    assert (Hx : is_space x = false) by now apply Hh.
    rewrite replace_char_cons in Hc.
    destruct (decide (x = LF)) as [->|]; [discriminate|]. cbn in Hc. congruence.
  - destruct s as [|x s] using rev_ind; [discriminate|].
    assert (Hx : is_space x = false) by (apply Hl; now rewrite last_snoc).
    rewrite replace_char_app, replace_char_cons in Hc.
    destruct (decide (x = LF)) as [->|]; [discriminate|].
    change (replace [LF] new []) with (@nil ascii) in Hc.
    rewrite last_snoc in Hc. congruence.
Qed.

Lemma save_line_no_CR rc rf e : path_ok (fst e) = true -> CR ∉ save_line rc rf e.
Proof.
  destruct e as [file v]. cbn [fst]. intros Hok.
  apply andb_true_iff in Hok as [_ Hns].
  destruct (dict_get rc file) as [c|] eqn:Hc;
    [|unfold save_line; rewrite Hc; apply not_elem_of_nil].
  destruct (dict_get rf file) as [f|] eqn:Hf;
    [|unfold save_line; rewrite Hc, Hf; apply not_elem_of_nil].
  rewrite (save_line_words rc rf file v c f Hc Hf).
  destruct (words4_no_LF (str_of_Path file) (str_of_bool v) (str_of_bool c) (str_of_bool f))
    as [_ HCR]; auto using str_of_bool_no_space.
  rewrite elem_of_app, list_elem_of_singleton. intros [H|H]; [contradiction|discriminate].
Qed.

Lemma concat_not_in {A} (x : A) (ls : list (list A)) :
  Forall (fun l => x ∉ l) ls -> x ∉ concat ls.
Proof.
  induction 1 as [|l ls Hl _ IH]; [apply not_elem_of_nil|].
  cbn [concat]. rewrite elem_of_app. tauto.
Qed.

Lemma str_of_nat_trimmed n : trimmed (str_of_nat n).
Proof. apply all_digits_trimmed, digits_all_digits. Qed.

Lemma str_of_nat_no_space n : Forall (fun c => is_space c = false) (str_of_nat n).
Proof.
  eapply Forall_impl; [apply digits_all_digits|]. intros c. apply digit_not_space.
Qed.

Lemma marker_fresh : ("<" : ascii) ∉ py "newline>".
Proof.
  intros H. repeat (apply elem_of_cons in H as [H|H]; [discriminate|]).
  now apply not_elem_of_nil in H.
Qed.

Lemma marker_no_LF : LF ∉ py "<newline>".
Proof.
  intros H. repeat (apply elem_of_cons in H as [H|H]; [discriminate|]).
  now apply not_elem_of_nil in H.
Qed.

Lemma marker_no_CR : CR ∉ py "<newline>".
Proof.
  intros H. repeat (apply elem_of_cons in H as [H|H]; [discriminate|]).
  now apply not_elem_of_nil in H.
Qed.

Lemma decode_description d :
  ~ occurs (py "<newline>") d ->
  replace (py "<newline>") [LF] (replace [LF] (py "<newline>") d) = d.
Proof. exact (decode_encode LF "<" (py "newline>") marker_fresh marker_no_LF d). Qed.

(* ---- what is left of the runs of newlines ---- *)
Lemma remove_extra_line_jumps_head s :
  head s ≠ Some LF -> head (remove_extra_line_jumps s) ≠ Some LF.
Proof.
  destruct s as [|x s]; [intros _; discriminate|]. intros Hx.
  assert (x ≠ LF) by (intros ->; now apply Hx).
  unfold remove_extra_line_jumps. rewrite sub_run_char by (auto; lia).
  cbn. congruence.
Qed.

Lemma run_length_remove_extra_line_jumps s :
  run_length LF (remove_extra_line_jumps s) = Nat.min (run_length LF s) 2.
Proof.
  destruct (run_length_split LF s) as [Hs Hh].
  rewrite Hs at 1. rewrite newline_run by assumption.
  apply run_length_repeat. now apply remove_extra_line_jumps_head.
Qed.

Lemma runs_below_three s : forall k,
  (run_length LF (drop k (remove_extra_line_jumps s)) < 3)%nat.
Proof.
  remember (length s) as m eqn:Hm. revert s Hm.
  induction m as [m IH] using lt_wf_ind. intros s Hm k.
  destruct k as [|k].
  { rewrite drop_0, run_length_remove_extra_line_jumps. lia. }
  destruct s as [|x s]; [destruct k; cbn; lia|].
  destruct (decide (x = LF)) as [->|Hx].
  - destruct (run_length_split LF (LF :: s)) as [Hs Hh].
    set (n := run_length LF (LF :: s)) in *.
    set (t := drop n (LF :: s)) in *.
    assert (Hn : (0 < n)%nat).
    { subst n. cbn. destruct (decide (LF = LF)); [lia|congruence]. }
    pose proof (f_equal length Hs) as Hlen.
    rewrite length_app, repeat_length in Hlen.
    rewrite Hs, newline_run by assumption.
    destruct (Nat.le_gt_cases (S k) (Nat.min n 2)) as [Hk|Hk].
    + replace (Nat.min n 2) with (S k + (Nat.min n 2 - S k))%nat by lia.
      rewrite repeat_app, <- app_assoc, drop_repeat_app.
      rewrite run_length_repeat by now apply remove_extra_line_jumps_head.
      lia.
    + rewrite drop_app_ge by (rewrite repeat_length; lia).
      rewrite repeat_length. apply (IH (length t)); [lia|reflexivity].
  - unfold remove_extra_line_jumps. rewrite sub_run_char by (auto; lia).
    cbn [drop]. apply (IH (length s)); [cbn in Hm; lia|reflexivity].
Qed.

Lemma run_length_prefix c n rest : (n <= run_length c (repeat c n ++ rest))%nat.
Proof.
  induction n as [|n IH]; cbn [repeat app run_length]; [lia|].
  destruct (decide (c = c)); [lia|congruence].
Qed.

(* ---- the body reducer, applied again ---- *)
Lemma reduced_body_visit body : reduced_body (reduced_body body) = reduced_body body.
Proof.
  destruct body as [|d body]; [reflexivity|].
  destruct d; try reflexivity. destruct value as [[]|]; reflexivity.
Qed.

Lemma map_visit_fixed (f : node -> node) (l : list node) :
  Forall (fun x => f x = x) l -> map f l = l.
Proof. induction 1 as [|x l Hx _ IH]; [reflexivity|]. cbn [map]. now rewrite Hx, IH. Qed.

Lemma map_visit_visit (l : list node) :
  Forall (fun x => visit (visit x) = visit x) l -> map visit (map visit l) = map visit l.
Proof. induction 1 as [|x l Hx _ IH]; [reflexivity|]. cbn [map]. now rewrite Hx, IH. Qed.

Lemma visit_reduced_body body : map visit (reduced_body body) = reduced_body body.
Proof.
  destruct body as [|d body]; [reflexivity|].
  destruct d; try reflexivity. destruct value as [[]|]; reflexivity.
Qed.

Lemma concat_app_nil {A} (l1 l2 : list A) : l1 ++ l2 = [] -> l1 = [] /\ l2 = [].
Proof. destruct l1; [intros H; now split|discriminate]. Qed.

Lemma all_defs_none (l : list node) :
  Forall (fun x => all_defs x = [] -> visit x = x) l ->
  concat (map all_defs l) = [] -> map visit l = l.
Proof.
  induction 1 as [|x l Hx _ IH]; [reflexivity|]. cbn [map concat]. intros H.
  apply concat_app_nil in H as [H1 H2]. now rewrite Hx, IH.
Qed.

(* ---- dictionaries ---- *)
Lemma path_eqb_refl k : path_eqb k k = true.
Proof. now apply path_eqb_parts. Qed.

Lemma path_eqb_sym k k' : path_eqb k k' = path_eqb k' k.
Proof. unfold path_eqb. apply bool_decide_ext. split; congruence. Qed.

Lemma path_eqb_trans k k' k'' :
  path_eqb k k' = true -> path_eqb k' k'' = path_eqb k k''.
Proof.
  intros H. apply path_eqb_parts in H. unfold path_eqb. now rewrite H.
Qed.

Lemma dict_get_set d k v k' :
  dict_get (dict_set d k v) k' = if path_eqb k k' then Some v else dict_get d k'.
Proof.
  induction d as [|[k0 v0] d IH]; cbn [dict_set dict_get]; [reflexivity|].
  destruct (path_eqb k0 k) eqn:E; cbn [dict_get].
  - rewrite (path_eqb_trans k0 k k' E). now destruct (path_eqb k0 k').
  - rewrite IH. destruct (path_eqb k0 k') eqn:E'; [|reflexivity].
    destruct (path_eqb k k') eqn:E''; [|reflexivity].
    rewrite path_eqb_sym in E''. rewrite (path_eqb_trans k0 k' k E') in E''.
    congruence.
Qed.

Lemma dict_has_set d k v k' :
  dict_has (dict_set d k v) k' = path_eqb k k' || dict_has d k'.
Proof. unfold dict_has. rewrite dict_get_set. now destruct (path_eqb k k'). Qed.

Lemma length_dict_set d k v : (length (dict_set d k v) <= S (length d))%nat.
Proof.
  induction d as [|[k0 v0] d IH]; cbn [dict_set length]; [lia|].
  destruct (path_eqb k0 k); cbn [length]; lia.
Qed.

Lemma same_keys_set d1 d2 k v1 v2 :
  same_keys d1 d2 -> same_keys (dict_set d1 k v1) (dict_set d2 k v2).
Proof. intros H k'. now rewrite !dict_has_set, H. Qed.

(* ---- the file lines of the settings file ---- *)
Lemma load_files_keys n : forall f s1 s2 s3,
  same_keys s1 s2 -> same_keys s1 s3 ->
  same_keys (load_files n f s1 s2 s3).1.1.1 (load_files n f s1 s2 s3).1.1.2
  /\ same_keys (load_files n f s1 s2 s3).1.1.1 (load_files n f s1 s2 s3).1.2.
Proof.
  induction n as [|n IH]; intros f s1 s2 s3 H2 H3; cbn [load_files]; [now split|].
  destruct (readline f) as [l f'].
  destruct (split_ws (strip l)) as [|l0 [|l1 [|l2 [|l3 rest]]]]; try now apply IH.
  apply IH; now apply same_keys_set.
Qed.

Lemma load_files_length n : forall f s1 s2 s3,
  (length (load_files n f s1 s2 s3).1.1.1 <= length s1 + n)%nat.
Proof.
  induction n as [|n IH]; intros f s1 s2 s3; cbn [load_files]; [cbn; lia|].
  destruct (readline f) as [l f'].
  destruct (split_ws (strip l)) as [|l0 [|l1 [|l2 [|l3 rest]]]];
    try (etransitivity; [apply IH|lia]).
  etransitivity; [apply IH|].
  pose proof (length_dict_set s1 (Path_of_str l0) (bool_decide (l1 = py "True"))). lia.
Qed.

Lemma split_from_nonempty sep s : forall skip cur, split_from sep skip cur s <> [].
Proof.
  induction s as [|c s IH]; intros skip cur; cbn [split_from]; [discriminate|].
  destruct skip; [|apply IH]. destruct (startswith (c :: s) sep); [discriminate|apply IH].
Qed.

Lemma list_to_set_nonempty (l : list str) : l <> [] -> (list_to_set l : gset str) <> ∅.
Proof.
  destruct l as [|x l]; [congruence|]. intros _ H.
  assert (Hx : x ∈ (list_to_set (x :: l) : gset str))
    by (apply elem_of_list_to_set; now left).
  rewrite H in Hx. now apply not_elem_of_empty in Hx.
Qed.

Lemma names_line_set (default : gset str) sep line :
  default <> ∅ ->
  match line with [] => default | _ => list_to_set (split sep line) end <> (∅ : gset str).
Proof.
  intros Hd. destruct line; [exact Hd|].
  apply list_to_set_nonempty, split_from_nonempty.
Qed.

Lemma DEFAULT_IGNORED_FOLDERS_nonempty : DEFAULT_IGNORED_FOLDERS <> ∅.
Proof. apply list_to_set_nonempty. discriminate. Qed.

Lemma DEFAULT_IGNORED_FILES_nonempty : DEFAULT_IGNORED_FILES <> ∅.
Proof. apply list_to_set_nonempty. discriminate. Qed.

(* load_settings on a file, step by step *)
Lemma load_settings_returned content st :
  load_settings (Some content) = Returned (Some st) ->
  exists l1 f1 l2 f2 z f3 l3 l4 f5,
    readline (universal_newlines content) = (l1, f1)
    /\ readline f1 = (l2, f2)
    /\ int (strip l2) = Some z
    /\ readline (load_files (Z.to_nat z) f2 [] [] []).2 = (l3, f3)
    /\ readline f3 = (l4, f5)
    /\ st = (replace (py "<newline>") [LF] (strip l1),
             (load_files (Z.to_nat z) f2 [] [] []).1.1.1,
             (load_files (Z.to_nat z) f2 [] [] []).1.1.2,
             (load_files (Z.to_nat z) f2 [] [] []).1.2,
             match strip l3 with
             | [] => DEFAULT_IGNORED_FOLDERS
             | _ => list_to_set (split (py ", ") (strip l3))
             end,
             match strip l4 with
             | [] => DEFAULT_IGNORED_FILES
             | _ => list_to_set (split (py ", ") (strip l4))
             end).
Proof.
  unfold load_settings.
  destruct (readline (universal_newlines content)) as [l1 f1] eqn:E1.
  destruct (readline f1) as [l2 f2] eqn:E2.
  destruct (int (strip l2)) as [z|] eqn:Ez; [|discriminate].
  destruct (load_files (Z.to_nat z) f2 [] [] []) as [[[sel rc] rf] f3'] eqn:El.
  destruct (readline f3') as [l3 f3] eqn:E3. destruct (readline f3) as [l4 f5] eqn:E4.
  intros [= <-]. exists l1, f1, l2, f2, z, f3, l3, l4, f5.
  rewrite El. cbn [fst snd]. rewrite E3. repeat split; try reflexivity; assumption.
Qed.

(* ---- the answers prompt_user takes ---- *)
Lemma lower_char_y c : lower_char c = "y" <-> c = "y" \/ c = "Y".
Proof.
  destruct c as [[] [] [] [] [] [] [] []]; cbv; split; intros H;
    try discriminate; try (destruct H; discriminate); auto.
Qed.

Lemma lower_char_n c : lower_char c = "n" <-> c = "n" \/ c = "N".
Proof.
  destruct c as [[] [] [] [] [] [] [] []]; cbv; split; intros H;
    try discriminate; try (destruct H; discriminate); auto.
Qed.

Lemma lower_accepted l :
  lower l ∈ [py "y"; py "n"; []] <-> l ∈ [py "y"; py "Y"; py "n"; py "N"; []].
Proof.
  rewrite !elem_of_cons, !elem_of_nil. unfold lower.
  destruct l as [|c [|c' l]]; cbn [map].
  - split; intros _; tauto.
  - change (py "y") with ["y"]. change (py "n") with ["n"]. change (py "Y") with ["Y"].
    change (py "N") with ["N"]. split.
    + intros [H|[H|[H|[]]]]; try discriminate; injection H as H.
      * apply lower_char_y in H as [->| ->]; tauto.
      * apply lower_char_n in H as [->| ->]; tauto.
    + intros [H|[H|[H|[H|[H|[]]]]]]; try discriminate; injection H as ->;
        cbv; tauto.
  - split; intros H; repeat (destruct H as [H|H]; try discriminate); destruct H.
Qed.

(* ---- the loop of prompt_user ---- *)
Lemma repeat_snoc {A} (x : A) n : repeat x n ++ [x] = x :: repeat x n.
Proof. induction n as [|n IH]; [reflexivity|]. cbn [repeat app]. now rewrite IH. Qed.

Lemma prompt_user_loop_answer (T : Type) message bad : forall fuel out good rest sf tf,
  Forall (fun l => lower l ∉ [py "y"; py "n"; []]) bad ->
  lower good ∈ [py "y"; py "n"; []] ->
  (length bad < fuel)%nat ->
  @prompt_user_loop T fuel message (mkWorld (bad ++ good :: rest) out sf tf)
  = Some (Returned (lower good),
          mkWorld rest (out ++ repeat message (S (length bad))) sf tf).
Proof.
  induction bad as [|b bad IH]; intros fuel out good rest sf tf Hbad Hgood Hfuel;
    (destruct fuel as [|fuel]; [cbn in Hfuel; lia|]);
    cbn [prompt_user_loop]; unfold bind, input, write; cbn [stdin stdout save_file
      template_file app length repeat].
  - rewrite bool_decide_eq_true_2 by assumption. reflexivity.
  - apply Forall_cons_1 in Hbad as [Hb Hbad].
    rewrite bool_decide_eq_false_2 by assumption.
    rewrite IH by (auto; cbn in Hfuel; lia).
    cbn [repeat]. now rewrite <- app_assoc.
Qed.

Lemma prompt_user_loop_eof (T : Type) message lines : forall fuel out sf tf,
  Forall (fun l => lower l ∉ [py "y"; py "n"; []]) lines ->
  (length lines < fuel)%nat ->
  @prompt_user_loop T fuel message (mkWorld lines out sf tf)
  = Some (Raised EOFError, mkWorld [] (out ++ repeat message (S (length lines))) sf tf).
Proof.
  induction lines as [|b lines IH]; intros fuel out sf tf Hbad Hfuel;
    (destruct fuel as [|fuel]; [cbn in Hfuel; lia|]);
    cbn [prompt_user_loop]; unfold bind, input, write; cbn [stdin stdout save_file
      template_file app length repeat].
  - reflexivity.
  - apply Forall_cons_1 in Hbad as [Hb Hbad].
    rewrite bool_decide_eq_false_2 by assumption.
    rewrite IH by (auto; cbn in Hfuel; lia).
    cbn [repeat]. now rewrite <- app_assoc.
Qed.

(* the lines up to the first one that is taken *)
Lemma first_accepted (lines : list str) :
  Forall (fun l => lower l ∉ [py "y"; py "n"; []]) lines
  \/ exists bad good rest,
       lines = bad ++ good :: rest
       /\ Forall (fun l => lower l ∉ [py "y"; py "n"; []]) bad
       /\ lower good ∈ [py "y"; py "n"; []].
Proof.
  induction lines as [|l lines IH]; [left; constructor|].
  destruct (decide (lower l ∈ [py "y"; py "n"; []])) as [Hl|Hl].
  - right. exists [], l, lines. repeat split; [constructor|assumption].
  - destruct IH as [IH|(bad & good & rest & -> & Hbad & Hgood)].
    + left. now constructor.
    + right. exists (l :: bad), good, rest. repeat split; [now constructor|assumption].
Qed.

(* what prompt_user ends in, in all cases *)
Lemma prompt_user_cases (T : Type) message w :
  (exists v w', @prompt_user T message w = Some (Returned v, w')
                /\ v ∈ [py "y"; py "n"; []]
                /\ save_file w' = save_file w /\ template_file w' = template_file w
                /\ (length (stdin w') < length (stdin w))%nat)
  \/ (exists w', @prompt_user T message w = Some (Raised EOFError, w')
                 /\ save_file w' = save_file w /\ template_file w' = template_file w).
Proof.
  destruct w as [lines out sf tf]. unfold prompt_user. cbn [stdin].
  destruct (first_accepted lines) as [Hbad|(bad & good & rest & -> & Hbad & Hgood)].
  - right. eexists. rewrite prompt_user_loop_eof by (auto; lia). split; [reflexivity|].
    now split.
  - left. eexists _, _. rewrite prompt_user_loop_answer by (auto; rewrite length_app; cbn; lia).
    split; [reflexivity|]. split; [assumption|]. cbn [save_file template_file stdin].
    repeat split. rewrite length_app. cbn [length]. lia.
Qed.

(* ---- the loop of is_parent_ignored, with fuel to spare ---- *)
Lemma is_parent_ignored_loop_fixed p ign :
  path_parent p = p -> path_eqb p Path_dot = false -> path_name p ∉ ign ->
  forall fuel, is_parent_ignored_loop fuel p ign = None.
Proof.
  intros Hp Hd Hn fuel. induction fuel as [|fuel IH]; [reflexivity|].
  cbn [is_parent_ignored_loop]. rewrite Hd, bool_decide_eq_false_2 by assumption.
  now rewrite Hp.
Qed.

Lemma is_parent_ignored_loop_never fuel : forall p ign,
  (length (path_parts p) < fuel)%nat ->
  is_parent_ignored_loop fuel p ign = None ->
  forall fuel', is_parent_ignored_loop fuel' p ign = None.
Proof.
  induction fuel as [|fuel IH]; intros p ign Hlen H; [lia|].
  cbn [is_parent_ignored_loop] in H.
  destruct (path_eqb p Path_dot) eqn:Hd; [discriminate|].
  destruct (bool_decide (path_name p ∈ ign)) eqn:Hn; [discriminate|].
  apply bool_decide_eq_false in Hn.
  destruct ((length (path_parts p) =? 1)%nat && negb (bool_decide (path_root p = [])))
    eqn:Hfix.
  { apply is_parent_ignored_loop_fixed; auto. unfold path_parent. now rewrite Hfix. }
  assert (Hshort : (length (path_parts (path_parent p)) < fuel)%nat).
  { unfold path_parent. rewrite Hfix. cbn [path_parts].
    destruct (path_parts p) as [|a ps _] eqn:E using rev_ind.
    - unfold path_eqb in Hd. rewrite E in Hd. cbn in Hd.
      now rewrite bool_decide_eq_true_2 in Hd.
    - rewrite removelast_last. rewrite length_app in Hlen. cbn in Hlen. lia. }
  intros [|fuel']; [reflexivity|]. cbn [is_parent_ignored_loop].
  rewrite Hd, bool_decide_eq_false_2 by assumption.
  now apply IH.
Qed.

Lemma path_parent_length p : (length (path_parts (path_parent p)) <= length (path_parts p))%nat.
Proof.
  unfold path_parent. destruct (_ && _); [lia|]. cbn [path_parts].
  destruct (path_parts p) as [|a ps] using rev_ind; [cbn; lia|].
  rewrite removelast_last, length_app. lia.
Qed.

Lemma is_parent_ignored_never file ign :
  is_parent_ignored (S (length (path_parts file))) file ign = None ->
  forall fuel, is_parent_ignored fuel file ign = None.
Proof.
  unfold is_parent_ignored. intros H fuel.
  apply (is_parent_ignored_loop_never (S (length (path_parts file)))); [|exact H].
  pose proof (path_parent_length file). lia.
Qed.

Lemma is_parent_ignored_relative file ign :
  relative file ->
  is_parent_ignored (S (length (path_parts file))) file ign
  = Some (bool_decide (Exists (fun d => d ∈ ign) (removelast (path_parts file)))).
Proof.
  destruct file as [r ps]. unfold relative. cbn [path_root path_parts]. intros ->.
  unfold is_parent_ignored, path_parent. cbn [path_parts path_root].
  rewrite bool_decide_eq_true_2 by reflexivity. rewrite andb_false_r.
  apply loop_relative.
  destruct ps as [|a ps] using rev_ind; [cbn; lia|].
  rewrite removelast_last, length_app. cbn. lia.
Qed.

(* ---- dictionaries: deleting, and keys held once ---- *)
Lemma dict_del_Some d k : dict_has d k = true -> is_Some (dict_del d k).
Proof.
  unfold dict_has. induction d as [|[k0 v0] d IH]; cbn [dict_get dict_del]; [discriminate|].
  destruct (path_eqb k0 k); [eauto|]. intros H. destruct (IH H) as [d' ->]. cbn. eauto.
Qed.

Lemma dict_get_del_other d k : forall d' k',
  dict_del d k = Some d' -> path_eqb k k' = false -> dict_get d' k' = dict_get d k'.
Proof.
  induction d as [|[k0 v0] d IH]; intros d' k' H Hk; cbn [dict_del] in H; [discriminate|].
  destruct (path_eqb k0 k) eqn:E.
  - injection H as <-. cbn [dict_get].
    destruct (path_eqb k0 k') eqn:E'; [|reflexivity].
    rewrite path_eqb_sym in E. rewrite (path_eqb_trans k k0 k' E) in E'. congruence.
  - destruct (dict_del d k) as [d0|] eqn:Ed; [|discriminate]. cbn in H. injection H as <-.
    cbn [dict_get]. now rewrite (IH d0 k' eq_refl Hk).
Qed.

Lemma dict_get_None_parts d k :
  path_parts k ∉ map (fun e => path_parts (fst e)) d -> dict_get d k = None.
Proof.
  induction d as [|[k0 v0] d IH]; cbn [map fst dict_get]; [reflexivity|].
  intros H. apply not_elem_of_cons in H as [H1 H2].
  unfold path_eqb at 1. rewrite bool_decide_eq_false_2 by congruence. now apply IH.
Qed.

Lemma dict_get_del_same d k : forall d' k',
  keys_distinct d -> dict_del d k = Some d' -> path_eqb k k' = true -> dict_get d' k' = None.
Proof.
  unfold keys_distinct.
  induction d as [|[k0 v0] d IH]; intros d' k' Hd H Hk; cbn [dict_del] in H; [discriminate|].
  cbn [map fst] in Hd. apply NoDup_cons in Hd as [Hk0 Hd].
  destruct (path_eqb k0 k) eqn:E.
  - injection H as <-. apply dict_get_None_parts.
    apply path_eqb_parts in E, Hk. congruence.
  - destruct (dict_del d k) as [d0|] eqn:Ed; [|discriminate]. cbn in H. injection H as <-.
    cbn [dict_get]. rewrite (IH d0 k' Hd eq_refl Hk).
    destruct (path_eqb k0 k') eqn:E'; [|reflexivity].
    apply path_eqb_parts in Hk, E'. unfold path_eqb in E.
    apply bool_decide_eq_false in E. congruence.
Qed.

Lemma dict_del_parts d k : forall d',
  dict_del d k = Some d' ->
  forall x, x ∈ map (fun e => path_parts (fst e)) d' -> x ∈ map (fun e => path_parts (fst e)) d.
Proof.
  induction d as [|[k0 v0] d IH]; intros d' H x Hx; cbn [dict_del] in H; [discriminate|].
  cbn [map fst]. destruct (path_eqb k0 k).
  - injection H as <-. now right.
  - destruct (dict_del d k) as [d0|] eqn:Ed; [|discriminate]. cbn in H. injection H as <-.
    cbn [map fst] in Hx. apply elem_of_cons in Hx as [->|Hx]; [now left|].
    right. now apply (IH d0).
Qed.

Lemma keys_distinct_del d k : forall d',
  keys_distinct d -> dict_del d k = Some d' -> keys_distinct d'.
Proof.
  unfold keys_distinct.
  induction d as [|[k0 v0] d IH]; intros d' Hd H; cbn [dict_del] in H; [discriminate|].
  cbn [map fst] in Hd. apply NoDup_cons in Hd as [Hk0 Hd].
  destruct (path_eqb k0 k).
  - now injection H as <-.
  - destruct (dict_del d k) as [d0|] eqn:Ed; [|discriminate]. cbn in H. injection H as <-.
    cbn [map fst]. apply NoDup_cons. split; [|now apply IH].
    intros Hin. apply Hk0. now apply (dict_del_parts d k d0).
Qed.

Lemma dict_set_parts d k v :
  forall x, x ∈ map (fun e => path_parts (fst e)) (dict_set d k v) ->
            x ∈ map (fun e => path_parts (fst e)) d \/ x = path_parts k.
Proof.
  induction d as [|[k0 v0] d IH]; intros x Hx; cbn [dict_set map fst] in *.
  - apply list_elem_of_singleton in Hx. now right.
  - destruct (path_eqb k0 k); cbn [map fst] in Hx.
    + now left.
    + apply elem_of_cons in Hx as [->|Hx]; [left; now left|].
      destruct (IH x Hx) as [H|H]; [left; now right|now right].
Qed.

Lemma keys_distinct_set d k v : keys_distinct d -> keys_distinct (dict_set d k v).
Proof.
  unfold keys_distinct.
  induction d as [|[k0 v0] d IH]; intros Hd; cbn [dict_set map fst].
  - apply NoDup_singleton.
  - cbn [map fst] in Hd. apply NoDup_cons in Hd as [Hk0 Hd].
    destruct (path_eqb k0 k) eqn:E; cbn [map fst].
    + now apply NoDup_cons.
    + apply NoDup_cons. split; [|now apply IH].
      intros Hin. apply dict_set_parts in Hin as [Hin|Hin]; [contradiction|].
      unfold path_eqb in E. apply bool_decide_eq_false in E. contradiction.
Qed.

Lemma load_files_distinct n : forall f s1 s2 s3,
  keys_distinct s1 -> keys_distinct (load_files n f s1 s2 s3).1.1.1.
Proof.
  induction n as [|n IH]; intros f s1 s2 s3 H1; cbn [load_files]; [exact H1|].
  destruct (readline f) as [l f'].
  destruct (split_ws (strip l)) as [|l0 [|l1 [|l2 [|l3 rest]]]]; try now apply IH.
  apply IH. now apply keys_distinct_set.
Qed.

Lemma dict_has_eqb d k k' : path_eqb k k' = true -> dict_has d k = dict_has d k'.
Proof. intros H. unfold dict_has. now rewrite (dict_get_eqb d k k' H). Qed.

Lemma dict_has_fst (d : dict) k : k ∈ map fst d -> dict_has d k = true.
Proof.
  intros H. apply list_elem_of_fmap in H as (e & -> & He). now apply dict_has_elem.
Qed.

(* ---- calls: what they end in ---- *)
Lemma safe_ret {T A : Type} (Q : A -> Prop) v : Q v -> @safe T A Q (ret v).
Proof. intros HQ w r w' [= <- <-]. exact HQ. Qed.

Lemma safe_raise {T A : Type} (Q : A -> Prop) (e : exception T) :
  (forall key, e <> KeyError key) -> @safe T A Q (raise e).
Proof. intros He w r w' [= <- <-]. exact He. Qed.

Lemma safe_bind {T A B : Type} (Q : A -> Prop) (R : B -> Prop)
  (m : M (exception T) A) (k : A -> M (exception T) B) :
  safe Q m -> (forall v, Q v -> safe R (k v)) -> safe R (bind m k).
Proof.
  intros Hm Hk w r w'. unfold bind.
  destruct (m w) as [[[e|v] w1]|] eqn:E; [| |discriminate].
  - intros [= <- <-]. exact (Hm w (Raised e) w1 E).
  - intros H. apply (Hk v (Hm w (Returned v) w1 E) w1 r w' H).
Qed.

Lemma safe_weaken {T A : Type} (Q Q' : A -> Prop) (m : M (exception T) A) :
  (forall v, Q v -> Q' v) -> safe Q m -> safe Q' m.
Proof.
  intros HQ Hm w r w' H. specialize (Hm w r w' H). destruct r; [exact Hm|now apply HQ].
Qed.

Lemma safe_input {T : Type} message : @safe T str (fun _ => True) (input message).
Proof.
  intros w r w'. unfold input. cbn [stdin write].
  destruct (stdin w); intros [= <- <-]; [discriminate|exact I].
Qed.

Lemma safe_print {T : Type} text : @safe T unit (fun _ => True) (print text).
Proof. intros w r w' [= <- <-]. exact I. Qed.

Lemma safe_prompt_user {T : Type} message :
  @safe T str (fun _ => True) (prompt_user message).
Proof.
  intros w r w' H.
  destruct (prompt_user_cases T message w)
    as [(v & w1 & E & _)|(w1 & E & _)]; rewrite E in H; injection H as <- <-;
    [exact I|discriminate].
Qed.

Lemma safe_parent_ignored {T : Type} file ign :
  @safe T bool (fun _ => True) (parent_ignored file ign).
Proof.
  intros w r w'. unfold parent_ignored.
  destruct (is_parent_ignored _ file ign); [|discriminate]. now intros [= <- <-].
Qed.

Lemma safe_lookup {T : Type} d k :
  dict_has d k = true -> @safe T bool (fun v => dict_get d k = Some v) (lookup d k).
Proof.
  unfold dict_has, lookup. destruct (dict_get d k); [|discriminate].
  intros _. now apply safe_ret.
Qed.

Lemma safe_del {T : Type} d k :
  dict_has d k = true -> @safe T dict (fun d' => dict_del d k = Some d') (del d k).
Proof.
  intros H. unfold del. destruct (dict_del_Some d k H) as [d' ->]. now apply safe_ret.
Qed.

Lemma safe_for_each {T A S : Type} (Inv : list A -> S -> Prop)
  (body : A -> S -> M (exception T) S) :
  (forall x l st, Inv (x :: l) st -> safe (Inv l) (body x st)) ->
  forall l st, Inv l st -> safe (Inv []) (for_each body l st).
Proof.
  intros Hbody l. induction l as [|x l IH]; intros st Hst; cbn [for_each].
  - now apply safe_ret.
  - apply (safe_bind (Inv l)); [apply Hbody; exact Hst|]. intros st' Hst'. now apply IH.
Qed.

Lemma ends_ret {E A : Type} (v : A) : @ends E A (ret v).
Proof. intros w. discriminate. Qed.

Lemma ends_raise {E A : Type} (e : E) : @ends E A (raise e).
Proof. intros w. discriminate. Qed.

Lemma ends_bind {E A B : Type} (m : M E A) (k : A -> M E B) :
  ends m -> (forall v, ends (k v)) -> ends (bind m k).
Proof.
  intros Hm Hk w. unfold bind. specialize (Hm w).
  destruct (m w) as [[[e|v] w1]|]; [discriminate|apply Hk|congruence].
Qed.

Lemma ends_input {T : Type} message : ends (@input T message).
Proof. intros w. unfold input. cbn [stdin write]. destruct (stdin w); discriminate. Qed.

Lemma ends_print {E : Type} text : ends (@print E text).
Proof. intros w. discriminate. Qed.

Lemma ends_prompt_user {T : Type} message : ends (@prompt_user T message).
Proof.
  intros w.
  destruct (prompt_user_cases T message w) as [(v & w1 & E & _)|(w1 & E & _)];
    rewrite E; discriminate.
Qed.

Lemma ends_parent_ignored {E : Type} file ign :
  relative file -> ends (@parent_ignored E file ign).
Proof.
  intros Hr w. unfold parent_ignored. rewrite is_parent_ignored_relative by assumption.
  discriminate.
Qed.

Lemma ends_lookup {T : Type} d k : ends (@lookup T d k).
Proof. unfold lookup. destruct (dict_get d k); [apply ends_ret|apply ends_raise]. Qed.

Lemma ends_del {T : Type} d k : ends (@del T d k).
Proof. unfold del. destruct (dict_del d k); [apply ends_ret|apply ends_raise]. Qed.

Lemma ends_for_each {E A S : Type} (body : A -> S -> M E S) (l : list A) :
  Forall (fun x => forall st, ends (body x st)) l -> forall st, ends (for_each body l st).
Proof.
  induction 1 as [|x l Hx _ IH]; intros st; cbn [for_each]; [apply ends_ret|].
  apply ends_bind; [apply Hx|apply IH].
Qed.

Lemma keeps_ret {E A : Type} (v : A) : @keeps_settings E A (ret v).
Proof. now intros w r w' [= <- <-]. Qed.

Lemma keeps_raise {E A : Type} (e : E) : @keeps_settings E A (raise e).
Proof. now intros w r w' [= <- <-]. Qed.

Lemma keeps_bind {E A B : Type} (m : M E A) (k : A -> M E B) :
  keeps_settings m -> (forall v, keeps_settings (k v)) -> keeps_settings (bind m k).
Proof.
  intros Hm Hk w r w'. unfold bind.
  destruct (m w) as [[[e|v] w1]|] eqn:Em; [| |discriminate].
  - intros [= <- <-]. exact (Hm w _ w1 Em).
  - intros H. rewrite (Hk v w1 r w' H). exact (Hm w _ w1 Em).
Qed.

Lemma keeps_input {T : Type} message : keeps_settings (@input T message).
Proof.
  intros w r w'. unfold input. cbn [stdin write]. destruct (stdin w); now intros [= <- <-].
Qed.

Lemma keeps_print {E : Type} text : keeps_settings (@print E text).
Proof. now intros w r w' [= <- <-]. Qed.

Lemma keeps_prompt_user {T : Type} message : keeps_settings (@prompt_user T message).
Proof.
  intros w r w' H.
  destruct (prompt_user_cases T message w)
    as [(v & w1 & E & _ & Hs & _)|(w1 & E & Hs & _)]; rewrite E in H;
    now injection H as <- <-.
Qed.

Lemma keeps_parent_ignored {E : Type} file ign : keeps_settings (@parent_ignored E file ign).
Proof.
  intros w r w'. unfold parent_ignored.
  destruct (is_parent_ignored _ file ign); [|discriminate]. now intros [= <- <-].
Qed.

Lemma keeps_lookup {T : Type} d k : keeps_settings (@lookup T d k).
Proof. unfold lookup. destruct (dict_get d k); [apply keeps_ret|apply keeps_raise]. Qed.

Lemma keeps_del {T : Type} d k : keeps_settings (@del T d k).
Proof. unfold del. destruct (dict_del d k); [apply keeps_ret|apply keeps_raise]. Qed.

Lemma keeps_for_each {E A S : Type} (body : A -> S -> M E S) (l : list A) :
  (forall x st, keeps_settings (body x st)) -> forall st, keeps_settings (for_each body l st).
Proof.
  intros Hb. induction l as [|x l IH]; intros st; cbn [for_each]; [apply keeps_ret|].
  apply keeps_bind; [apply Hb|apply IH].
Qed.

(* ---- the command line, call by call ---- *)
Ltac call_step lemmas :=
  first
    [ lemmas
    | match goal with |- forall _, _ => intro end
    | match goal with |- _ (if ?b then _ else _) => destruct b end
    | match goal with |- _ (match ?x with _ => _ end) => destruct x end ].

Ltac ends_tac :=
  repeat call_step
    ltac:(first [ apply ends_ret | apply ends_raise | apply ends_input | apply ends_print
                | apply ends_prompt_user | apply ends_lookup | apply ends_del
                | apply ends_bind ]).

Ltac keeps_tac :=
  repeat call_step
    ltac:(first [ apply keeps_ret | apply keeps_raise | apply keeps_input | apply keeps_print
                | apply keeps_prompt_user | apply keeps_lookup | apply keeps_del
                | apply keeps_parent_ignored | apply keeps_bind ]).

Lemma asked_tail f todo sel rc rf : asked (f :: todo) (sel, rc, rf) -> asked todo (sel, rc, rf).
Proof.
  intros (Hd & Hnd & Hfl). cbn [map] in Hnd. apply NoDup_cons in Hnd as [Hf Hnd].
  split; [exact Hd|]. split; [exact Hnd|].
  intros k [Hk|Hk] Hs; apply Hfl; auto. right. now right.
Qed.

Lemma asked_flagged sel rc rf : asked [] (sel, rc, rf) -> keys_distinct sel /\ flagged sel rc rf.
Proof.
  intros (Hd & _ & Hfl). split; [exact Hd|]. intros k Hk. apply Hfl; [now left|].
  unfold dict_has. now rewrite Hk.
Qed.

Lemma complete_asked todo sel rc rf :
  NoDup (map path_parts todo) -> keys_distinct sel -> complete sel rc rf ->
  asked todo (sel, rc, rf).
Proof. intros Hnd Hd Hc. split; [exact Hd|]. split; [exact Hnd|]. intros k _. apply Hc. Qed.

Lemma complete_flagged sel rc rf : complete sel rc rf -> flagged sel rc rf.
Proof. intros Hc k Hk. apply Hc. unfold dict_has. now rewrite Hk. Qed.

Lemma same_keys_complete sel rc rf :
  same_keys sel rc -> same_keys sel rf -> complete sel rc rf.
Proof. intros H1 H2 k Hk. now rewrite <- H1, <- H2. Qed.

Section CliFacts.
Variable TokenError : Type.
Variable generate_tokens : str -> TokenError + list TokenInfo.
Variable SyntaxError : Type.
Variable error_text : SyntaxError -> str.
Variable parse : str -> parsed SyntaxError.
Variable unparse : node -> AstError + str.
Variable iter : gset str -> list str.
Variable rglob_py : list Path.
Variable read_text : Path -> option str.
Variable iterdir : list entry.

Local Abbreviation exn := (exception TokenError).
Local Abbreviation settings_from := (get_user_settings TokenError iter rglob_py).
Local Abbreviation reduce := (reduced TokenError SyntaxError error_text parse unparse).
Local Abbreviation strip_code := (stripped TokenError generate_tokens).
Local Abbreviation embed :=
  (embed_file TokenError generate_tokens SyntaxError error_text parse unparse read_text).
Local Abbreviation template :=
  (write_template TokenError generate_tokens SyntaxError error_text parse unparse read_text).
Local Abbreviation chosen := (chosen_settings TokenError iter rglob_py).
Local Abbreviation finishing :=
  (finish TokenError generate_tokens SyntaxError error_text parse unparse iter read_text
     iterdir).
Local Abbreviation cli :=
  (run_cli TokenError generate_tokens SyntaxError error_text parse unparse iter rglob_py
     read_text iterdir).

(* ---- get_user_settings ---- *)
Lemma safe_settings_for_file fo fi f todo dicts :
  asked (f :: todo) dicts -> safe (asked todo) (settings_for_file TokenError fo fi f dicts).
Proof.
  destruct dicts as [[sel rc] rf]. intros Hst.
  pose proof (asked_tail _ _ _ _ _ Hst) as Htail.
  destruct Hst as (Hd & Hnd & Hfl). cbn [map] in Hnd. apply NoDup_cons in Hnd as [Hf Hnd].
  unfold settings_for_file.
  apply (safe_bind (fun _ => True)); [apply safe_parent_ignored|]. intros ignored _.
  destruct (ignored || _); [now apply safe_ret|].
  destruct (dict_get sel f) as [[|]|] eqn:Eg.
  - now apply safe_ret.
  - assert (Hs : dict_has sel f = true) by (unfold dict_has; now rewrite Eg).
    destruct (Hfl f (or_intror (list_elem_of_here _ _)) Hs) as [Hrc Hrf].
    apply (safe_bind (fun d' => dict_del sel f = Some d')); [now apply safe_del|].
    intros sel' Hsel'.
    apply (safe_bind (fun d' => dict_del rc f = Some d')); [now apply safe_del|].
    intros rc' Hrc'.
    apply (safe_bind (fun d' => dict_del rf f = Some d')); [now apply safe_del|].
    intros rf' Hrf'.
    apply safe_ret. split; [now apply (keys_distinct_del sel f)|]. split; [exact Hnd|].
    intros k Hk Hsk. destruct (path_eqb f k) eqn:E.
    + unfold dict_has in Hsk.
      rewrite (dict_get_del_same sel f sel' k Hd Hsel' E) in Hsk. discriminate.
    + unfold dict_has in *.
      rewrite (dict_get_del_other sel f sel' k Hsel' E) in Hsk, Hk.
      rewrite (dict_get_del_other rc f rc' k Hrc' E), (dict_get_del_other rf f rf' k Hrf' E).
      apply Hfl; [|exact Hsk]. destruct Hk as [Hk|Hk]; [now left|right; now right].
  - apply (safe_bind (fun _ => True)); [apply safe_prompt_user|]. intros include _.
    destruct (bool_decide (include = py "y")); cbv zeta.
    + apply (safe_bind (fun _ => True)); [apply safe_prompt_user|]. intros a1 _.
      apply (safe_bind (fun _ => True)); [apply safe_prompt_user|]. intros a2 _.
      apply safe_ret. split; [now apply keys_distinct_set|]. split; [exact Hnd|].
      intros k Hk Hsk. rewrite !dict_has_set. destruct (path_eqb f k) eqn:E; [now split|].
      cbn [orb]. rewrite dict_has_set, E in Hsk. cbn [orb] in Hsk.
      rewrite dict_get_set, E in Hk.
      apply Hfl; [|exact Hsk]. destruct Hk as [Hk|Hk]; [now left|right; now right].
    + apply safe_ret. split; [now apply keys_distinct_set|]. split; [exact Hnd|].
      intros k Hk Hsk. rewrite dict_get_set in Hk. rewrite dict_has_set in Hsk.
      destruct (path_eqb f k) eqn:E.
      * destruct Hk as [Hk|Hk]; [discriminate|].
        apply path_eqb_parts in E. rewrite <- E in Hk. contradiction.
      * cbn [orb] in Hsk. apply Hfl; [|exact Hsk].
        destruct Hk as [Hk|Hk]; [now left|right; now right].
Qed.

Lemma safe_get_user_settings saved :
  NoDup (map path_parts rglob_py) -> saved_ok saved ->
  safe (fun st : settings =>
          let '(_, sel, rc, rf, _, _) := st in keys_distinct sel /\ flagged sel rc rf)
       (settings_from saved).
Proof.
  intros Hnd Hsaved. unfold get_user_settings.
  apply (safe_bind (fun _ => True)); [apply safe_input|]. intros description _.
  apply (safe_bind (fun _ => True)).
  { destruct saved as [[[[[[d sel] rc] rf] fo] fi]|]; [now apply safe_ret|].
    apply (safe_bind (fun _ => True)); [apply safe_input|]. intros t1 _.
    apply (safe_bind (fun _ => True)); [apply safe_input|]. intros t2 _.
    now apply safe_ret. }
  intros [fo fi] _. cbv zeta.
  apply (safe_bind (asked [])).
  { apply (safe_for_each asked).
    - intros f todo st. apply safe_settings_for_file.
    - destruct saved as [[[[[[d sel] rc] rf] fo'] fi']|].
      + destruct Hsaved as [Hd Hc]. now apply complete_asked.
      + apply complete_asked; [exact Hnd|apply NoDup_nil_2|]. intros k Hk. discriminate. }
  intros [[sel rc] rf] Hasked. apply safe_ret. now apply asked_flagged.
Qed.

Lemma ends_settings_for_file fo fi f dicts :
  relative f -> ends (settings_for_file TokenError fo fi f dicts).
Proof.
  intros Hf. destruct dicts as [[sel rc] rf]. unfold settings_for_file.
  apply ends_bind; [now apply ends_parent_ignored|]. ends_tac.
Qed.

Lemma ends_get_user_settings saved :
  Forall relative rglob_py -> ends (settings_from saved).
Proof.
  intros Hrel. unfold get_user_settings.
  apply ends_bind; [apply ends_input|]. intros description.
  apply ends_bind; [destruct saved as [[[[[[d sel] rc] rf] fo] fi]|]; ends_tac|].
  intros [fo fi]. cbv zeta. apply ends_bind; [|ends_tac].
  apply ends_for_each. eapply Forall_impl; [exact Hrel|].
  intros f Hf st. now apply ends_settings_for_file.
Qed.

Lemma keeps_settings_for_file fo fi f dicts :
  keeps_settings (settings_for_file TokenError fo fi f dicts).
Proof. destruct dicts as [[sel rc] rf]. unfold settings_for_file. keeps_tac. Qed.

Lemma keeps_get_user_settings saved : keeps_settings (settings_from saved).
Proof.
  unfold get_user_settings.
  apply keeps_bind; [apply keeps_input|]. intros description.
  apply keeps_bind; [destruct saved as [[[[[[d sel] rc] rf] fo] fi]|]; keeps_tac|].
  intros [fo fi]. cbv zeta. apply keeps_bind; [|keeps_tac].
  apply keeps_for_each. intros f st. apply keeps_settings_for_file.
Qed.

(* ---- write_template ---- *)
Lemma safe_read file : safe (fun _ => True) (read TokenError read_text file).
Proof.
  unfold read. destruct (read_text file); [now apply safe_ret|].
  apply safe_raise. discriminate.
Qed.

Lemma safe_prints (printed : list str) :
  @safe TokenError unit (fun _ => True)
    (for_each (fun line (_ : unit) => print line) printed tt).
Proof.
  induction printed as [|l printed IH]; cbn [for_each]; [now apply safe_ret|].
  apply (safe_bind (fun _ => True)); [apply safe_print|]. now intros [] _.
Qed.

Lemma safe_reduced content : safe (fun _ => True) (reduce content).
Proof.
  unfold reduced. destruct (remove_function_body _ _ _ _ content) as [e|[code printed]].
  - apply safe_raise. discriminate.
  - apply (safe_bind (fun _ => True)); [apply safe_prints|]. intros _ _. now apply safe_ret.
Qed.

Lemma safe_stripped content : safe (fun _ => True) (strip_code content).
Proof.
  unfold stripped. destruct (remove_comments_and_docstrings _ _ content).
  - apply safe_raise. discriminate.
  - now apply safe_ret.
Qed.

Lemma safe_embed_file sel rc rf file arborescence :
  dict_has sel file = true -> flagged sel rc rf ->
  safe (fun _ => True) (embed sel rc rf file arborescence).
Proof.
  intros Hs Hfl. unfold embed_file.
  apply (safe_bind (fun v => dict_get sel file = Some v)); [now apply safe_lookup|].
  intros [|] Hv; cbn [negb]; [|now apply safe_ret].
  destruct (Hfl file Hv) as [Hrc Hrf].
  apply (safe_bind (fun _ => True)); [apply safe_read|]. intros content _.
  apply (safe_bind (fun _ => True)); [eapply safe_weaken; [|now apply safe_lookup]; auto|].
  intros remove _.
  apply (safe_bind (fun _ => True));
    [destruct remove; [apply safe_reduced|now apply safe_ret]|]. intros content' _.
  apply (safe_bind (fun _ => True)); [eapply safe_weaken; [|now apply safe_lookup]; auto|].
  intros remove' _.
  apply (safe_bind (fun _ => True));
    [destruct remove'; [apply safe_stripped|now apply safe_ret]|]. intros content'' _.
  now apply safe_ret.
Qed.

Lemma safe_write_template description arborescence sel rc rf :
  flagged sel rc rf ->
  safe (fun _ => True) (template description arborescence sel rc rf).
Proof.
  intros Hfl. unfold write_template.
  apply (safe_bind (fun _ => True)).
  { eapply safe_weaken;
      [|apply (safe_for_each (fun (l : list Path) (_ : str) =>
                                Forall (fun k => dict_has sel k = true) l))].
    - auto.
    - intros k l arb Hl. apply Forall_cons_1 in Hl as [Hk Hl].
      eapply safe_weaken; [|now apply safe_embed_file]. auto.
    - apply Forall_forall. intros k Hk. now apply dict_has_fst. }
  intros arb _. cbv zeta.
  apply (safe_bind (fun _ => True)); [|intros _ _; apply safe_print].
  intros w r w' [= <- <-]. exact I.
Qed.

Lemma ends_prints {E : Type} (printed : list str) :
  ends (for_each (fun line (_ : unit) => @print E line) printed tt).
Proof.
  apply ends_for_each, Forall_forall. intros l _ []. apply ends_print.
Qed.

Lemma ends_embed_file sel rc rf file arborescence :
  ends (embed sel rc rf file arborescence).
Proof.
  unfold embed_file, read, reduced, stripped.
  apply ends_bind; [apply ends_lookup|]. intros [|]; cbn [negb]; [|apply ends_ret].
  apply ends_bind; [destruct (read_text file); ends_tac|]. intros content.
  apply ends_bind; [apply ends_lookup|]. intros remove.
  apply ends_bind.
  { destruct remove; [|apply ends_ret].
    destruct (remove_function_body _ _ _ _ content) as [e|[code printed]];
      [apply ends_raise|].
    apply ends_bind; [apply ends_prints|]. ends_tac. }
  intros content'. apply ends_bind; [apply ends_lookup|]. intros remove'.
  apply ends_bind; [|ends_tac].
  destruct remove'; [|apply ends_ret].
  destruct (remove_comments_and_docstrings _ _ content'); ends_tac.
Qed.

Lemma ends_write_template description arborescence sel rc rf :
  ends (template description arborescence sel rc rf).
Proof.
  unfold write_template. apply ends_bind.
  - apply ends_for_each, Forall_forall. intros k _ arb. apply ends_embed_file.
  - intros arb. cbv zeta. apply ends_bind; [intros w; discriminate|]. ends_tac.
Qed.

Lemma keeps_prints {E : Type} (printed : list str) :
  keeps_settings (for_each (fun line (_ : unit) => @print E line) printed tt).
Proof. apply keeps_for_each. intros l []. apply keeps_print. Qed.

Lemma keeps_embed_file sel rc rf file arborescence :
  keeps_settings (embed sel rc rf file arborescence).
Proof.
  unfold embed_file, read, reduced, stripped.
  apply keeps_bind; [apply keeps_lookup|]. intros [|]; cbn [negb]; [|apply keeps_ret].
  apply keeps_bind; [destruct (read_text file); keeps_tac|]. intros content.
  apply keeps_bind; [apply keeps_lookup|]. intros remove.
  apply keeps_bind.
  { destruct remove; [|apply keeps_ret].
    destruct (remove_function_body _ _ _ _ content) as [e|[code printed]];
      [apply keeps_raise|].
    apply keeps_bind; [apply keeps_prints|]. keeps_tac. }
  intros content'. apply keeps_bind; [apply keeps_lookup|]. intros remove'.
  apply keeps_bind; [|keeps_tac].
  destruct remove'; [|apply keeps_ret].
  destruct (remove_comments_and_docstrings _ _ content'); keeps_tac.
Qed.

Lemma keeps_write_template description arborescence sel rc rf :
  keeps_settings (template description arborescence sel rc rf).
Proof.
  unfold write_template. apply keeps_bind.
  - apply keeps_for_each. intros k arb. apply keeps_embed_file.
  - intros arb. cbv zeta. apply keeps_bind; [now intros w r w' [= <- <-]|]. keeps_tac.
Qed.

(* a loop whose every turn gives the state back *)
Lemma for_each_skip {E A S : Type} (body : A -> S -> M E S) (l : list A) (st : S) w :
  Forall (fun x => body x st w = Some (Returned st, w)) l ->
  for_each body l st w = Some (Returned st, w).
Proof.
  induction 1 as [|x l Hx _ IH]; [reflexivity|].
  cbn [for_each]. unfold bind. now rewrite Hx.
Qed.

Lemma for_each_app {E A S : Type} (body : A -> S -> M E S) (l1 l2 : list A) (st : S) w :
  for_each body (l1 ++ l2) st w
  = bind (for_each body l1 st) (for_each body l2) w.
Proof.
  revert st w. induction l1 as [|x l1 IH]; intros st w; cbn [app for_each].
  - reflexivity.
  - unfold bind in *. destruct (body x st w) as [[[e|v] w1]|]; try reflexivity.
    apply IH.
Qed.

Lemma dict_get_fst (d : dict) k : k ∈ map fst d -> is_Some (dict_get d k).
Proof. intros H. apply dict_has_Some. now apply dict_has_fst. Qed.

(* ---- run_cli ---- *)
Lemma safe_load : safe saved_ok (load TokenError).
Proof.
  intros w r w'. unfold load.
  destruct (load_settings (save_file w)) as [e|saved] eqn:E; intros [= <- <-]; [discriminate|].
  destruct (save_file w) as [content|]; [|now injection E as <-].
  destruct saved as [st|]; [|exact I].
  apply load_settings_returned in E
    as (l1 & f1 & l2 & f2 & z & f3 & l3 & l4 & f5 & _ & _ & _ & _ & _ & ->).
  split.
  - apply load_files_distinct. apply NoDup_nil_2.
  - apply same_keys_complete; apply load_files_keys; intros k; reflexivity.
Qed.

Lemma safe_run_cli : NoDup (map path_parts rglob_py) -> safe (fun _ => True) cli.
Proof.
  intros Hnd. unfold run_cli.
  apply (safe_bind saved_ok); [apply safe_load|]. intros saved Hsaved.
  apply (safe_bind (fun st : settings =>
                      let '(_, sel, rc, rf, _, _) := st in flagged sel rc rf)).
  { destruct saved as [st|].
    - apply (safe_bind (fun _ => True)); [apply safe_prompt_user|]. intros use _.
      destruct (bool_decide (use = py "y")).
      + apply safe_ret. destruct st as [[[[[d sel] rc] rf] fo] fi].
        destruct Hsaved as [_ Hc]. now apply complete_flagged.
      + eapply safe_weaken; [|now apply safe_get_user_settings].
        intros [[[[[d sel] rc] rf] fo] fi]. tauto.
    - eapply safe_weaken; [|now apply safe_get_user_settings].
      intros [[[[[d sel] rc] rf] fo] fi]. tauto. }
  intros [[[[[d sel] rc] rf] fo] fi] Hfl. cbv zeta.
  apply (safe_bind (fun _ => True)); [apply safe_print|]. intros _ _.
  apply (safe_bind (fun _ => True)); [now apply safe_write_template|]. intros _ _.
  apply (safe_bind (fun _ => True)); [apply safe_prompt_user|]. intros choice _.
  destruct (bool_decide (choice = py "y")); [|now apply safe_ret].
  intros w r w' [= <- <-]. exact I.
Qed.

Lemma ends_run_cli : Forall relative rglob_py -> ends cli.
Proof.
  intros Hrel. unfold run_cli.
  apply ends_bind.
  { intros w. unfold load. destruct (load_settings (save_file w)); discriminate. }
  intros saved. apply ends_bind.
  { destruct saved as [st|]; [|now apply ends_get_user_settings].
    apply ends_bind; [apply ends_prompt_user|]. intros use.
    destruct (bool_decide (use = py "y")); [apply ends_ret|now apply ends_get_user_settings]. }
  intros [[[[[d sel] rc] rf] fo] fi]. cbv zeta.
  apply ends_bind; [apply ends_print|]. intros _.
  apply ends_bind; [apply ends_write_template|]. intros _.
  apply ends_bind; [apply ends_prompt_user|]. intros choice.
  destruct (bool_decide (choice = py "y")); [intros w; discriminate|apply ends_ret].
Qed.

(* ---- write_template, run by run ---- *)
Lemma embed_unselected sel rc rf k arborescence w :
  dict_get sel k = Some false ->
  embed sel rc rf k arborescence w = Some (Returned arborescence, w).
Proof. intros Hk. unfold embed_file, bind, lookup. now rewrite Hk. Qed.

Lemma embed_plain sel rc rf file content arborescence w :
  dict_get sel file = Some true -> read_text file = Some content ->
  dict_get rf file = Some false -> dict_get rc file = Some false ->
  embed sel rc rf file arborescence w
  = Some (Returned (replace (name_line file)
                      (fenced file (remove_extra_line_jumps content)) arborescence), w).
Proof.
  intros Hs Hread Hrf Hrc. unfold embed_file, bind, lookup, read.
  now rewrite Hs, Hread, Hrf, Hrc.
Qed.

Lemma write_template_returned description arborescence sel rc rf arborescence' w :
  for_each (embed sel rc rf) (map fst sel) arborescence w = Some (Returned arborescence', w) ->
  template description arborescence sel rc rf w
  = Some (Returned tt, template_written (template_text description arborescence') w).
Proof. intros H. unfold write_template, bind. now rewrite H. Qed.

Lemma write_template_raised description arborescence sel rc rf e w :
  for_each (embed sel rc rf) (map fst sel) arborescence w = Some (Raised e, w) ->
  template description arborescence sel rc rf w = Some (Raised e, w).
Proof. intros H. unfold write_template, bind. now rewrite H. Qed.

(* ---- run_cli and the settings file ---- *)
Lemma keeps_load : keeps_settings (load TokenError).
Proof.
  intros w r w'. unfold load. destruct (load_settings (save_file w)); now intros [= <- <-].
Qed.

Lemma keeps_chosen_settings : keeps_settings chosen.
Proof.
  unfold chosen_settings. apply keeps_bind; [apply keeps_load|]. intros saved.
  destruct saved as [st|]; [|apply keeps_get_user_settings].
  apply keeps_bind; [apply keeps_prompt_user|]. intros use.
  destruct (bool_decide (use = py "y")); [apply keeps_ret|apply keeps_get_user_settings].
Qed.

Lemma bind_cases {A B : Type} (m : M exn A) (k : A -> M exn B) w r w' :
  bind m k w = Some (r, w') ->
  (exists e, m w = Some (Raised e, w') /\ r = Raised e)
  \/ (exists v w1, m w = Some (Returned v, w1) /\ k v w1 = Some (r, w')).
Proof.
  unfold bind. destruct (m w) as [[[e|v] w1]|]; [| |discriminate].
  - intros [= <- <-]. left. now exists e.
  - intros H. right. now exists v, w1.
Qed.

Lemma run_cli_factored w : cli w = bind chosen finishing w.
Proof.
  unfold run_cli, chosen_settings, finish, bind.
  destruct (load TokenError w) as [[[e|[saved|]] w0]|]; reflexivity.
Qed.

Lemma finish_settings_file st w r w' :
  finishing st w = Some (r, w') ->
  match r with
  | Raised _ => save_file w' = save_file w
  | Returned _ => save_file w' = save_file w \/ save_file w' = Some (saved_text iter st)
  end.
Proof.
  destruct st as [[[[[d sel] rc] rf] fo] fi]. unfold finish, saved_text. cbv zeta.
  intros H.
  apply bind_cases in H as [(e & H1 & ->)|([] & w1 & H1 & H)];
    [exact (keeps_print _ w _ w' H1)|].
  pose proof (keeps_print _ w _ w1 H1) as K1.
  apply bind_cases in H as [(e & H2 & ->)|([] & w2 & H2 & H)];
    [rewrite <- K1; exact (keeps_write_template _ _ _ _ _ w1 _ w' H2)|].
  pose proof (keeps_write_template _ _ _ _ _ w1 _ w2 H2) as K2.
  apply bind_cases in H as [(e & H3 & ->)|(choice & w3 & H3 & H)];
    [rewrite <- K1, <- K2; exact (keeps_prompt_user _ w2 _ w' H3)|].
  pose proof (keeps_prompt_user _ w2 _ w3 H3) as K3.
  destruct (bool_decide (choice = py "y")); injection H as <- <-.
  - right. reflexivity.
  - left. congruence.
Qed.

End CliFacts.

(* ---- replacing a line in a text made of lines ---- *)
Lemma first_newline (a : str) : forall a' t t',
  LF ∉ a -> LF ∉ a' -> a ++ LF :: t = a' ++ LF :: t' -> a = a' /\ t = t'.
Proof.
  induction a as [|x a IH]; intros [|x' a'] t t' Ha Ha' H; cbn [app] in H.
  - now injection H as ->.
  - injection H as <- _. exfalso. apply Ha'. now left.
  - injection H as -> _. exfalso. apply Ha. now left.
  - injection H as -> H. apply not_elem_of_cons in Ha as [_ Ha], Ha' as [_ Ha'].
    destruct (IH a' t t' Ha Ha' H) as [-> ->]. now split.
Qed.

Lemma replace_line_suffix body new p rest :
  LF ∉ body -> LF ∉ p ->
  replace (body ++ [LF]) new (p ++ (body ++ [LF]) ++ rest)
  = p ++ new ++ replace (body ++ [LF]) new rest.
Proof.
  intros Hbody. induction p as [|c p IH]; intros Hp.
  - cbn [app]. apply replace_match. now destruct body.
  - apply not_elem_of_cons in Hp as [Hc Hp]. cbn [app].
    rewrite replace_step; [now rewrite IH|].
    apply startswith_false. intros [t Ht].
    rewrite <- !app_assoc in Ht. cbn [app] in Ht.
    change (c :: p ++ body ++ LF :: rest) with ((c :: p) ++ body ++ LF :: rest) in Ht.
    rewrite app_assoc in Ht.
    apply first_newline in Ht as [Ht _]; [|rewrite elem_of_app, elem_of_cons; tauto|assumption].
    apply (f_equal length) in Ht. rewrite length_app in Ht. cbn [length] in Ht. lia.
Qed.

Lemma replace_line_other body new b rest :
  LF ∉ body -> LF ∉ b -> ~ (body ++ [LF]) `suffix_of` (b ++ [LF]) ->
  replace (body ++ [LF]) new ((b ++ [LF]) ++ rest)
  = (b ++ [LF]) ++ replace (body ++ [LF]) new rest.
Proof.
  intros Hbody. induction b as [|c b IH]; intros Hb Hsuf.
  - cbn [app]. apply replace_step, startswith_false. intros [t Ht].
    rewrite <- app_assoc in Ht. cbn [app] in Ht.
    apply (first_newline [] body rest t) in Ht as [<- _];
      [|apply not_elem_of_nil|assumption].
    now apply Hsuf.
  - apply not_elem_of_cons in Hb as [Hc Hb]. cbn [app].
    rewrite replace_step.
    + f_equal. apply IH; [assumption|]. intros H. apply Hsuf. now apply suffix_cons_r.
    + apply startswith_false. intros [t Ht].
      rewrite <- !app_assoc in Ht. cbn [app] in Ht.
      change (c :: b ++ LF :: rest) with ((c :: b) ++ LF :: rest) in Ht.
      apply first_newline in Ht as [Ht _]; [|rewrite elem_of_cons; tauto|assumption].
      apply Hsuf. now rewrite Ht.
Qed.

Lemma endswith_suffix s suf : endswith s suf = true <-> suf `suffix_of` s.
Proof.
  unfold endswith. rewrite andb_true_iff, Nat.leb_le, bool_decide_eq_true. split.
  - intros [Hlen H]. exists (take (length s - length suf) s).
    rewrite <- (take_drop (length s - length suf) s) at 1. now rewrite H.
  - intros [k ->]. rewrite length_app. split; [lia|].
    replace (length k + length suf - length suf)%nat with (length k) by lia.
    now rewrite drop_app_length.
Qed.

Lemma replace_lines body new lines :
  LF ∉ body -> Forall one_line lines ->
  replace (body ++ [LF]) new (concat lines)
  = concat (map (fun l => if endswith l (body ++ [LF])
                          then take (length l - length (body ++ [LF])) l ++ new
                          else l) lines).
Proof.
  intros Hbody. induction 1 as [|l lines (b & El & Hb) _ IH]; [reflexivity|].
  cbn [concat map]. rewrite <- IH. clear IH.
  destruct (endswith l (body ++ [LF])) eqn:E.
  - apply endswith_suffix in E as [p Hp].
    assert (Hpb : LF ∉ p).
    { rewrite El, app_assoc in Hp. apply app_inj_tail in Hp as [-> _].
      now apply not_elem_of_app in Hb as [Hb _]. }
    rewrite Hp, length_app, Nat.add_sub, take_app_length.
    rewrite <- (app_assoc p), <- (app_assoc p new).
    now apply replace_line_suffix.
  - rewrite El. apply replace_line_other; [assumption..|].
    intros H. apply endswith_suffix in H. congruence.
Qed.

Lemma listing_line_one_line indent name : LF ∉ name -> one_line (listing_line indent name).
Proof.
  intros Hn. unfold listing_line.
  exists (concat (repeat (py "  ") indent) ++ py "- " ++ name).
  split; [now rewrite <- !app_assoc|].
  rewrite !elem_of_app. intros [H|[H|H]]; [|..|contradiction].
  - induction indent as [|n IH]; cbn [repeat concat] in H; [now apply elem_of_nil in H|].
    rewrite elem_of_app in H. destruct H as [H|H]; [|auto].
    repeat (apply elem_of_cons in H as [H|H]; [discriminate|]). now apply elem_of_nil in H.
  - repeat (apply elem_of_cons in H as [H|H]; [discriminate|]). now apply elem_of_nil in H.
Qed.

Lemma line_with_replace file content l :
  (if endswith l (name_line file)
   then take (length l - length (name_line file)) l ++ fenced file content
   else l)
  = line_with file content l.
Proof.
  unfold line_with. destruct (endswith l (name_line file)) eqn:E; [|reflexivity].
  apply endswith_suffix in E as [k ->].
  rewrite length_app, Nat.add_sub, take_app_length.
  unfold fenced, name_line. now rewrite <- !app_assoc.
Qed.

(* ---- the loop of is_parent_ignored on an absolute path ---- *)
Lemma loop_absolute_exact root ign : root <> [] ->
  forall ds fuel, (length ds < fuel)%nat ->
    is_parent_ignored_loop fuel (mkPath root (root :: ds)) ign
    = if bool_decide (Exists (fun d => d ∈ ign) ds \/ [] ∈ ign) then Some true else None.
Proof.
  intros Hroot ds. induction ds as [|d ds IH] using rev_ind; intros fuel Hfuel.
  - destruct fuel as [|fuel]; [cbn in Hfuel; lia|]. cbn [is_parent_ignored_loop].
    assert (Hdot : path_eqb (mkPath root [root]) Path_dot = false)
      by (apply bool_decide_eq_false_2; discriminate).
    assert (Hname : path_name (mkPath root [root]) = []).
    { unfold path_name. cbn [path_parts path_root length].
      destruct (decide (root = [])); [contradiction|reflexivity]. }
    rewrite Hdot, Hname.
    destruct (decide ([] ∈ ign)) as [Hin|Hin].
    + rewrite !bool_decide_eq_true_2; auto.
    + rewrite bool_decide_eq_false_2 by assumption.
      rewrite bool_decide_eq_false_2
        by (intros [H|H]; [now apply Exists_nil in H|contradiction]).
      assert (Hparent : path_parent (mkPath root [root]) = mkPath root [root]).
      { unfold path_parent. cbn [path_parts path_root length Nat.eqb].
        now rewrite bool_decide_eq_false_2. }
      rewrite Hparent. apply is_parent_ignored_loop_fixed; [exact Hparent|exact Hdot|].
      now rewrite Hname.
  - rewrite length_app in Hfuel. cbn [length] in Hfuel.
    destruct fuel as [|fuel]; [lia|]. cbn [is_parent_ignored_loop].
    assert (Hdot : path_eqb (mkPath root (root :: ds ++ [d])) Path_dot = false)
      by (apply bool_decide_eq_false_2; discriminate).
    assert (Hname : path_name (mkPath root (root :: ds ++ [d])) = d).
    { unfold path_name. cbn [path_parts path_root].
      replace (length (root :: ds ++ [d]) =? _)%nat with false.
      - now rewrite app_comm_cons, last_last.
      - symmetry. apply Nat.eqb_neq. cbn [length]. rewrite length_app. cbn [length].
        destruct (decide (root = [])); lia. }
    assert (Hparent : path_parent (mkPath root (root :: ds ++ [d])) = mkPath root (root :: ds)).
    { unfold path_parent. cbn [path_parts path_root].
      replace (length (root :: ds ++ [d]) =? 1)%nat with false.
      - cbn [andb]. now rewrite app_comm_cons, removelast_last.
      - symmetry. apply Nat.eqb_neq. cbn [length]. rewrite length_app. cbn [length]. lia. }
    rewrite Hdot, Hname, Hparent.
    destruct (decide (d ∈ ign)) as [Hin|Hin].
    + rewrite !bool_decide_eq_true_2; auto.
      left. apply Exists_app. right. now constructor.
    + rewrite bool_decide_eq_false_2 by assumption.
      rewrite IH by lia.
      rewrite (bool_decide_ext (Exists (fun d => d ∈ ign) ds \/ [] ∈ ign)
                 (Exists (fun d => d ∈ ign) (ds ++ [d]) \/ [] ∈ ign)); [reflexivity|].
      rewrite Exists_app, Exists_cons, Exists_nil. tauto.
Qed.

(* ---- the directory walk under larger exclusion sets ---- *)
Lemma sublist_concat_map {A B} (f g : A -> list B) (l : list A) :
  Forall (fun x => sublist (f x) (g x)) l -> sublist (concat (map f l)) (concat (map g l)).
Proof.
  induction 1 as [|x l Hx _ IH]; cbn [map concat]; [constructor|].
  now apply sublist_app.
Qed.

Lemma sublist_map {A B} (f : A -> B) (l1 l2 : list A) :
  sublist l1 l2 -> sublist (map f l1) (map f l2).
Proof. induction 1; cbn [map]; now constructor. Qed.

Lemma listed_of_item_sublist fo fi fo' fi' e :
  fo ⊆ fo' -> fi ⊆ fi' -> sublist (listed_of_item fo' fi' e) (listed_of_item fo fi e).
Proof.
  intros Hfo Hfi. induction e as [name children IH|name|name] using entry_rect_nested;
    cbn [listed_of_item entry_name].
  - destruct (decide (name ∈ fi')) as [H'|H'];
      [rewrite (bool_decide_eq_true_2 _ H'); apply sublist_nil_l|].
    rewrite (bool_decide_eq_false_2 _ H').
    assert (H : name ∉ fi) by (intros H; apply H'; now apply Hfi).
    rewrite (bool_decide_eq_false_2 _ H).
    destruct (decide (name ∈ fo')) as [G'|G'];
      [rewrite (bool_decide_eq_true_2 _ G'); apply sublist_nil_l|].
    rewrite (bool_decide_eq_false_2 _ G').
    assert (G : name ∉ fo) by (intros G; apply G'; now apply Hfo).
    rewrite (bool_decide_eq_false_2 _ G). cbn [negb].
    apply sublist_skip, sublist_map. now apply sublist_concat_map.
  - destruct (decide (name ∈ fi')) as [H'|H'];
      [rewrite (bool_decide_eq_true_2 _ H'); apply sublist_nil_l|].
    rewrite (bool_decide_eq_false_2 _ H').
    assert (H : name ∉ fi) by (intros H; apply H'; now apply Hfi).
    rewrite (bool_decide_eq_false_2 _ H). reflexivity.
  - destruct (bool_decide _), (bool_decide _); constructor.
Qed.

(* ---- the token loop: a token that is not written ---- *)
Lemma strip_step_text st t text :
  tok_type_of t = COMMENT \/ (tok_type_of t = STRING /\ prev_toktype st = INDENT) ->
  strip_step st (with_text t text) = strip_step st t.
Proof.
  destruct t as [ty s [sl sc] [el ec]]. unfold with_text, strip_step.
  cbn [tok_type_of tok_string tok_start tok_end].
  intros [->|[-> ->]]; [reflexivity|].
  now rewrite bool_decide_eq_true_2 by reflexivity.
Qed.

Lemma prev_toktype_fold pre : forall st,
  prev_toktype (fold_left strip_step pre st)
  = match last pre with Some t => tok_type_of t | None => prev_toktype st end.
Proof.
  induction pre as [|t pre _] using rev_ind; intros st; [reflexivity|].
  rewrite fold_left_app, last_snoc. cbn [fold_left].
  now destruct t as [ty s [sl sc] [el ec]].
Qed.

(* ---- the names typed at the command line ---- *)
Lemma join_comma_space x l :
  join (py ", ") (x :: l) = join (py ",") (x :: map (cons " ") l).
Proof.
  revert x. induction l as [|y l IH]; intros x; [reflexivity|].
  change (join (py ", ") (x :: y :: l)) with (x ++ py ", " ++ join (py ", ") (y :: l)).
  rewrite IH. cbn [map].
  change (join (py ",") (x :: (" " :: y) :: map (cons " ") l))
    with (x ++ py "," ++ join (py ",") ((" " :: y) :: map (cons " ") l)).
  f_equal. destruct l; reflexivity.
Qed.

(* ---- the settings file, line by line ---- *)
Lemma skip_lines_nil k : skip_lines k [] = [].
Proof. induction k as [|k IH]; [reflexivity|exact IH]. Qed.

Lemma skip_lines_end k : forall f, skip_lines (S k) f = snd (readline (skip_lines k f)).
Proof.
  induction k as [|k IH]; intros f; [reflexivity|]. cbn [skip_lines] in *. now rewrite IH.
Qed.

Lemma skip_lines_add a : forall b f, skip_lines (a + b) f = skip_lines b (skip_lines a f).
Proof.
  induction a as [|a IH]; intros b f; [reflexivity|]. cbn [Nat.add skip_lines]. apply IH.
Qed.

Lemma skip_lines_concat k : forall ls,
  Forall one_line ls -> skip_lines k (concat ls) = concat (drop k ls).
Proof.
  induction k as [|k IH]; intros ls Hls; [reflexivity|].
  destruct Hls as [|l ls (b & -> & Hb) Hls]; [apply skip_lines_nil|].
  cbn [concat skip_lines drop]. rewrite <- app_assoc. cbn [app].
  rewrite readline_line by assumption. cbn [snd]. now apply IH.
Qed.

Lemma load_files_rest n : forall f s1 s2 s3,
  snd (load_files n f s1 s2 s3) = skip_lines n f.
Proof.
  induction n as [|n IH]; intros f s1 s2 s3; cbn [load_files skip_lines]; [reflexivity|].
  destruct (readline f) as [l f']. cbn [snd].
  destruct (split_ws (strip l)) as [|l0 [|l1 [|l2 [|l3 rest]]]]; apply IH.
Qed.

Lemma load_settings_with_count content z :
  int (strip (count_line content)) = Some z ->
  exists st, load_settings (Some content) = Returned (Some st).
Proof.
  unfold load_settings, count_line.
  destruct (readline (universal_newlines content)) as [l1 f1]. cbn [snd].
  destruct (readline f1) as [l2 f2]. cbn [fst]. intros ->.
  destruct (load_files (Z.to_nat z) f2 [] [] []) as [[[sel rc] rf] f3].
  destruct (readline f3) as [l3 f4]. destruct (readline f4) as [l4 f5].
  eexists. reflexivity.
Qed.

Lemma concat_filter_nonempty (ls : list str) :
  concat (filter (fun l => l <> []) ls) = concat ls.
Proof.
  induction ls as [|l ls IH]; [reflexivity|]. rewrite filter_cons.
  destruct (decide (l <> [])) as [H|H]; cbn [concat]; rewrite IH; [reflexivity|].
  destruct l; [reflexivity|]. exfalso. now apply H.
Qed.

Lemma length_filter_missing {A} (f : A -> str) (l : list A) :
  Exists (fun e => f e = []) l ->
  (length (filter (fun l => l <> []) (map f l)) < length l)%nat.
Proof.
  induction 1 as [e l He|e l _ IH]; cbn [map length]; rewrite filter_cons.
  - rewrite He. destruct (decide (@nil ascii <> [])) as [H|H]; [congruence|].
    pose proof (length_filter (fun l : str => l <> []) (map f l)) as Hl.
    rewrite length_map in Hl. lia.
  - destruct (decide (f e <> [])); cbn [length]; lia.
Qed.

Lemma save_line_missing rc rf e :
  dict_has rc (fst e) = false \/ dict_has rf (fst e) = false -> save_line rc rf e = [].
Proof.
  destruct e as [file v]. unfold dict_has, save_line. cbn [fst].
  destruct (dict_get rc file), (dict_get rf file); intros [H|H]; try discriminate; reflexivity.
Qed.

Lemma save_line_one_line rc rf e :
  LF ∉ str_of_Path (fst e) -> save_line rc rf e <> [] -> one_line (save_line rc rf e).
Proof.
  destruct e as [file v]. cbn [fst]. intros Hp Hne.
  destruct (dict_get rc file) as [c|] eqn:Hc;
    [|exfalso; apply Hne; unfold save_line; now rewrite Hc].
  destruct (dict_get rf file) as [f|] eqn:Hf;
    [|exfalso; apply Hne; unfold save_line; now rewrite Hc, Hf].
  rewrite (save_line_words rc rf file v c f Hc Hf). eexists. split; [reflexivity|].
  apply words4_not_in; auto using no_space_no_LF, str_of_bool_no_space.
Qed.

Lemma save_line_CR rc rf e : CR ∉ str_of_Path (fst e) -> CR ∉ save_line rc rf e.
Proof.
  destruct e as [file v]. cbn [fst]. intros Hp.
  destruct (dict_get rc file) as [c|] eqn:Hc;
    [|unfold save_line; rewrite Hc; apply not_elem_of_nil].
  destruct (dict_get rf file) as [f|] eqn:Hf;
    [|unfold save_line; rewrite Hc, Hf; apply not_elem_of_nil].
  rewrite (save_line_words rc rf file v c f Hc Hf).
  rewrite elem_of_app, list_elem_of_singleton. intros [H|H]; [|discriminate].
  revert H. apply words4_not_in; auto using no_space_no_CR, str_of_bool_no_space.
Qed.

Lemma LF_not_in_separator : LF ∉ py ", ".
Proof.
  intros H. repeat (apply elem_of_cons in H as [H|H]; [discriminate|]).
  now apply elem_of_nil in H.
Qed.

Lemma CR_not_in_separator : CR ∉ py ", ".
Proof.
  intros H. repeat (apply elem_of_cons in H as [H|H]; [discriminate|]).
  now apply elem_of_nil in H.
Qed.

Section SavedLines.
Variable iter : gset str -> list str.
Hypothesis iter_in : forall X x, x ∈ iter X -> x ∈ X.
Variables (description : str) (sel rc rf : dict) (fo fi : gset str).
Hypothesis description_CR : CR ∉ description.
Hypothesis paths_plain :
  Forall (fun e => (LF ∉ str_of_Path (fst e)) /\ (CR ∉ str_of_Path (fst e))) sel.
Hypothesis folders_plain : forall x, x ∈ fo -> (LF ∉ x) /\ (CR ∉ x).
Hypothesis files_plain : forall x, x ∈ fi -> (LF ∉ x) /\ (CR ∉ x).

Lemma save_settings_lines :
  save_settings iter description sel rc rf fo fi
  = concat (saved_lines iter description sel rc rf fo fi).
Proof.
  unfold save_settings, saved_lines. rewrite !concat_app, concat_filter_nonempty.
  cbn [concat app]. now rewrite !app_nil_r, <- !app_assoc.
Qed.

Lemma names_line_plain (X : gset str) (c : ascii) :
  c ∉ py ", " -> (forall x, x ∈ X -> c ∉ x) -> c ∉ join (py ", ") (iter X).
Proof.
  intros Hc HX. apply join_not_in; [exact Hc|].
  apply Forall_forall. intros x Hx. apply HX. now apply iter_in.
Qed.

Lemma saved_lines_one_line : Forall one_line (saved_lines iter description sel rc rf fo fi).
Proof.
  unfold saved_lines. apply Forall_app. split; [|apply Forall_app; split].
  - constructor; [|constructor; [|constructor]].
    + eexists. split; [reflexivity|]. apply (encode_no_c0 LF "<" (py "newline>")).
      apply marker_no_LF.
    + eexists. split; [reflexivity|]. apply not_space_not_LF, str_of_nat_no_space.
  - apply Forall_forall. intros l Hl. apply list_elem_of_filter in Hl as [Hne Hl].
    apply list_elem_of_fmap in Hl as (e & -> & He).
    rewrite Forall_forall in paths_plain. destruct (paths_plain e He) as [HLF _].
    now apply save_line_one_line.
  - constructor; [|constructor; [|constructor]]; (eexists; split; [reflexivity|]);
      (apply names_line_plain; [apply LF_not_in_separator|]); intros x Hx;
      [now apply folders_plain|now apply files_plain].
Qed.

Lemma save_settings_no_CR : CR ∉ save_settings iter description sel rc rf fo fi.
Proof.
  unfold save_settings. rewrite !elem_of_app, !list_elem_of_singleton.
  assert (H1 : CR ∉ replace [LF] (py "<newline>") description)
    by (apply (encode_keeps_out LF "<" (py "newline>")); [apply marker_no_CR|assumption]).
  assert (H2 : CR ∉ str_of_nat (length sel)).
  { intros Hin. pose proof (str_of_nat_no_space (length sel)) as Hn.
    rewrite Forall_forall in Hn. apply Hn in Hin. discriminate. }
  assert (H3 : CR ∉ concat (map (save_line rc rf) sel)).
  { apply concat_not_in, Forall_map. eapply Forall_impl; [exact paths_plain|].
    intros e [_ He]. now apply save_line_CR. }
  assert (H4 : CR ∉ join (py ", ") (iter fo))
    by (apply names_line_plain; [apply CR_not_in_separator|]; intros x Hx;
        now apply folders_plain).
  assert (H5 : CR ∉ join (py ", ") (iter fi))
    by (apply names_line_plain; [apply CR_not_in_separator|]; intros x Hx;
        now apply files_plain).
  intros H; repeat match goal with H : _ \/ _ |- _ => destruct H end;
    try contradiction; discriminate.
Qed.

Lemma saved_lines_short :
  Exists (fun e => dict_has rc (fst e) = false \/ dict_has rf (fst e) = false) sel ->
  (length (saved_lines iter description sel rc rf fo fi) <= 3 + length sel)%nat.
Proof.
  intros Hm. unfold saved_lines. rewrite !length_app. cbn [length].
  pose proof (length_filter_missing (save_line rc rf) sel) as Hl.
  cut (length (filter (fun l : str => l <> []) (map (save_line rc rf) sel)) < length sel)%nat;
    [lia|].
  apply Hl. eapply Exists_impl; [exact Hm|]. intros e. apply save_line_missing.
Qed.

Lemma load_saved_with_missing_flags :
  Exists (fun e => dict_has rc (fst e) = false \/ dict_has rf (fst e) = false) sel ->
  exists description' sel' rc' rf' fo',
    load_settings (Some (save_settings iter description sel rc rf fo fi))
    = Returned (Some (description', sel', rc', rf', fo', DEFAULT_IGNORED_FILES)).
Proof.
  intros Hm.
  pose proof saved_lines_one_line as Hlines.
  pose proof (saved_lines_short Hm) as Hshort.
  pose proof save_settings_lines as Htext.
  pose proof (universal_newlines_id _ save_settings_no_CR) as Hnl.
  set (T := save_settings iter description sel rc rf fo fi) in *.
  set (ls := saved_lines iter description sel rc rf fo fi) in *.
  assert (Hfirst : readline T
                   = (replace [LF] (py "<newline>") description ++ [LF], skip_lines 1 T)).
  { cbn [skip_lines]. rewrite Htext. unfold ls, saved_lines. cbn [app concat].
    rewrite <- app_assoc. cbn [app].
    rewrite readline_line
      by (apply (encode_no_c0 LF "<" (py "newline>")); apply marker_no_LF).
    reflexivity. }
  assert (Hsecond : readline (skip_lines 1 T)
                    = (str_of_nat (length sel) ++ [LF], skip_lines 2 T)).
  { cbn [skip_lines]. rewrite Htext. unfold ls, saved_lines. cbn [app concat].
    rewrite <- app_assoc. cbn [app].
    rewrite readline_line
      by (apply (encode_no_c0 LF "<" (py "newline>")); apply marker_no_LF).
    cbn [snd]. rewrite <- app_assoc. cbn [app].
    rewrite readline_line by (apply not_space_not_LF, str_of_nat_no_space).
    reflexivity. }
  assert (Hcount : int (strip (count_line T)) = Some (Z.of_nat (length sel))).
  { unfold count_line. rewrite Hnl, Hfirst. cbn [snd]. rewrite Hsecond. cbn [fst].
    rewrite strip_line by apply str_of_nat_trimmed. apply int_str_of_nat. }
  destruct (load_settings_with_count T _ Hcount) as [st Hst].
  pose proof Hst as Hst'.
  apply load_settings_returned in Hst'
    as (l1 & f1 & l2 & f2 & z & f3 & l3 & l4 & f5 & E1 & E2 & Ez & E3 & E4 & Est).
  rewrite Hnl, Hfirst in E1.
  assert (Ef1 : f1 = skip_lines 1 T)
    by (apply (f_equal snd) in E1; cbn [snd] in E1; now symmetry).
  subst f1. rewrite Hsecond in E2.
  assert (Ef2 : f2 = skip_lines 2 T)
    by (apply (f_equal snd) in E2; cbn [snd] in E2; now symmetry).
  assert (El2 : l2 = str_of_nat (length sel) ++ [LF])
    by (apply (f_equal fst) in E2; cbn [fst] in E2; now symmetry).
  subst f2 l2.
  rewrite strip_line, int_str_of_nat in Ez by apply str_of_nat_trimmed.
  injection Ez as <-. rewrite Nat2Z.id in *.
  assert (Hf3 : f3 = []).
  { apply (f_equal snd) in E3. cbn [snd] in E3. rewrite <- E3, load_files_rest.
    rewrite <- skip_lines_end, <- skip_lines_add.
    rewrite Htext, skip_lines_concat by assumption.
    rewrite drop_ge by lia. reflexivity. }
  rewrite Hf3 in E4. cbn [readline] in E4. injection E4 as <- <-.
  rewrite Hst, Est. cbn [strip lstrip rstrip rev]. eexists _, _, _, _, _. reflexivity.
Qed.
End SavedLines.

(* ---- get_user_settings over files that are all ignored ---- *)
Lemma settings_for_file_ignored (TokenError : Type) (fo fi : gset str) (file : Path)
  (dicts : dict * dict * dict) (w : world) :
  relative file ->
  Exists (fun d => d ∈ fo) (removelast (path_parts file)) \/ path_name file ∈ fi ->
  settings_for_file TokenError fo fi file dicts w = Some (Returned dicts, w).
Proof.
  intros Hrel Hignored.
  destruct dicts as [[sel rc] rf]. unfold settings_for_file, bind, parent_ignored.
  rewrite is_parent_ignored_relative by assumption.
  destruct Hignored as [H|H].
  - now rewrite (bool_decide_eq_true_2 _ H).
  - rewrite (bool_decide_eq_true_2 _ H), orb_true_r. reflexivity.
Qed.

Lemma for_each_ignored (TokenError : Type) (fo fi : gset str) (files : list Path)
  (dicts : dict * dict * dict) (w : world) :
  Forall (fun file => relative file
                      /\ (Exists (fun d => d ∈ fo) (removelast (path_parts file))
                          \/ path_name file ∈ fi)) files ->
  for_each (settings_for_file TokenError fo fi) files dicts w = Some (Returned dicts, w).
Proof.
  induction 1 as [|file files [Hrel Hignored] _ IH]; [reflexivity|].
  cbn [for_each]. unfold bind at 1.
  now rewrite settings_for_file_ignored.
Qed.

(* ---- a text as the pieces between its runs of newlines ---- *)
Lemma remove_extra_line_jumps_unchanged code :
  (forall k, (run_length LF (drop k code) < 3)%nat) -> remove_extra_line_jumps code = code.
Proof.
  unfold remove_extra_line_jumps. induction code as [|c code IH]; intros H; [reflexivity|].
  cbn [sub_run]. pose proof (H 0%nat) as H0. cbn [drop] in H0.
  destruct (Nat.leb_spec 3 (run_length LF (c :: code))); [lia|].
  f_equal. apply IH. intros k. apply (H (S k)).
Qed.

Lemma remove_extra_line_jumps_plain text :
  LF ∉ text -> remove_extra_line_jumps text = text.
Proof.
  intros H. apply remove_extra_line_jumps_unchanged. intros k.
  destruct (drop k text) as [|c rest] eqn:E; [cbn; lia|].
  cbn [run_length]. destruct (decide (c = LF)) as [->|]; [|lia].
  exfalso. apply H. rewrite <- (take_drop k text), E.
  apply elem_of_app. right. now left.
Qed.

Lemma last_plain text : LF ∉ text -> last text <> Some LF.
Proof.
  intros H E. apply last_Some in E as [l ->]. apply H, elem_of_app. right. now left.
Qed.

Lemma maximal_runs_tail piece runs : maximal_runs (piece :: runs) -> maximal_runs runs.
Proof.
  intros [H1 H2]. apply Forall_cons_1 in H1 as [_ H1]. cbn [tail] in H2.
  split; [exact H1|]. destruct runs as [|q runs]; [constructor|].
  now apply Forall_cons_1 in H2 as [_ H2].
Qed.

Lemma head_after_run piece runs :
  maximal_runs (piece :: runs) -> head (text_of_runs runs) <> Some LF.
Proof.
  intros [H1 H2]. destruct runs as [|[text n] runs]; [discriminate|].
  apply Forall_cons_1 in H1 as [_ H1]. apply Forall_cons_1 in H1 as [H1 _].
  cbn [tail] in H2. apply Forall_cons_1 in H2 as [H2 _]. cbn [fst] in H1, H2.
  destruct text as [|c text]; [contradiction|].
  unfold text_of_runs. cbn [map concat fst app head].
  intros [= ->]. apply H1. now left.
Qed.

Lemma clipped_runs runs :
  maximal_runs runs ->
  remove_extra_line_jumps (text_of_runs runs) = text_of_runs (map clip runs).
Proof.
  induction runs as [|[text n] runs IH]; intros H; [reflexivity|].
  pose proof (head_after_run _ _ H) as Hhead.
  pose proof (maximal_runs_tail _ _ H) as Htail.
  destruct H as [H _]. apply Forall_cons_1 in H as [Htext _]. cbn [fst] in Htext.
  unfold text_of_runs in *. cbn [map concat fst snd clip].
  rewrite <- !app_assoc.
  rewrite remove_extra_line_jumps_app by now apply last_plain.
  rewrite remove_extra_line_jumps_plain by assumption.
  rewrite newline_run by assumption.
  now rewrite IH.
Qed.

Lemma runs_of_nonempty s : runs_of s <> [].
Proof.
  destruct s as [|c s]; [discriminate|]. cbn [runs_of].
  destruct (runs_of s) as [|[text n] runs]; [discriminate|].
  destruct (decide (c = LF)); [destruct text|]; discriminate.
Qed.

Lemma text_of_runs_of s : text_of_runs (runs_of s) = s.
Proof.
  induction s as [|c s IH]; [reflexivity|]. cbn [runs_of].
  pose proof (runs_of_nonempty s) as Hne.
  destruct (runs_of s) as [|[text n] runs]; [contradiction|].
  unfold text_of_runs in *. cbn [map concat fst snd] in *.
  destruct (decide (c = LF)) as [->|Hc].
  - destruct text as [|x text]; cbn [map concat fst snd repeat app] in *; now rewrite IH.
  - cbn [map concat fst snd app]. now rewrite IH.
Qed.

Lemma maximal_runs_of s : maximal_runs (runs_of s).
Proof.
  induction s as [|c s [IH1 IH2]].
  - split; [|constructor]. repeat constructor. apply not_elem_of_nil.
  - cbn [runs_of]. pose proof (runs_of_nonempty s) as Hne.
    destruct (runs_of s) as [|[text n] runs]; [contradiction|].
    apply Forall_cons_1 in IH1 as [Htext IH1]. cbn [fst tail] in *.
    destruct (decide (c = LF)) as [->|Hc]; [destruct text as [|x text]|].
    + split; [|exact IH2]. constructor; [apply not_elem_of_nil|exact IH1].
    + split; [|constructor; [discriminate|exact IH2]].
      constructor; [apply not_elem_of_nil|]. now constructor.
    + split; [|exact IH2]. constructor; [|exact IH1]. cbn [fst].
      apply not_elem_of_cons. split; [congruence|exact Htext].
Qed.

Lemma long_run_occurs s k :
  (3 <= run_length LF (drop k s))%nat -> occurs [LF; LF; LF] s.
Proof.
  intros H. destruct (run_length_split LF (drop k s)) as [Hs _].
  set (n := run_length LF (drop k s)) in *.
  exists (take k s), (repeat LF (n - 3) ++ drop n (drop k s)).
  rewrite <- (take_drop k s) at 1. f_equal. rewrite Hs at 1.
  replace n with (3 + (n - 3))%nat at 1 by lia.
  rewrite repeat_app, <- app_assoc. reflexivity.
Qed.

Lemma unchanged_without_triple code :
  remove_extra_line_jumps code = code <-> ~ occurs [LF; LF; LF] code.
Proof.
  split.
  - intros E (a & b & H).
    pose proof (runs_below_three code (length a)) as Hk.
    rewrite E, H, drop_app_length in Hk.
    pose proof (run_length_prefix LF 3 b) as H3. cbn [repeat app] in H3.
    cbn [app] in Hk. lia.
  - intros H. apply remove_extra_line_jumps_unchanged. intros k.
    destruct (Nat.lt_ge_cases (run_length LF (drop k code)) 3) as [Hlt|Hge]; [exact Hlt|].
    exfalso. apply H. now apply (long_run_occurs code k).
Qed.

(* ---- a settings file that ends within its first line ---- *)
Lemma readline_without_newline s : LF ∉ s -> readline s = (s, []).
Proof.
  induction s as [|c s IH]; intros H; [reflexivity|].
  apply not_elem_of_cons in H as [Hc Hs]. cbn [readline].
  destruct (decide (c = LF)); [congruence|]. now rewrite IH.
Qed.







(* ====================================================================== *)
(* The specification's claims                                             *)
(* ====================================================================== *)

(* ================= remove_extra_line_jumps ================= *)

(** C2 (as amended). Every text is a sequence of pieces, each a text without
    newline followed by a maximal run of n newlines, and remove_extra_line_jumps
    returns the same pieces with every run cut to min(n, 2) newlines: a run of
    three or more newlines, that is two or more blank lines after a line's end,
    becomes exactly two newlines (one blank line), a shorter run is kept, and
    every other character stays where it is. The text comes back unchanged
    exactly when it has no three newlines in a row. *)
Theorem remove_extra_line_jumps_run :
  (forall runs, maximal_runs runs ->
     remove_extra_line_jumps (text_of_runs runs) = text_of_runs (map clip runs))
  /\ (forall code, maximal_runs (runs_of code) /\ text_of_runs (runs_of code) = code)
  /\ (forall code, remove_extra_line_jumps code = text_of_runs (map clip (runs_of code)))
  /\ (forall code, remove_extra_line_jumps code = code <-> ~ occurs [LF; LF; LF] code).
Proof.
  split; [exact clipped_runs|].
  split; [intros code; split; [apply maximal_runs_of|apply text_of_runs_of]|].
  split; [|exact unchanged_without_triple].
  intros code. rewrite <- (text_of_runs_of code) at 1.
  apply clipped_runs, maximal_runs_of.
Qed.

Lemma remove_extra_line_jumps_run_witness :
  remove_extra_line_jumps (py "a" ++ repeat LF 6 ++ py "b" ++ repeat LF 2 ++ py "c")
  = py "a" ++ [LF; LF] ++ py "b" ++ [LF; LF] ++ py "c".
Proof.
  refine (proj1 remove_extra_line_jumps_run [(py "a", 6%nat); (py "b", 2%nat); (py "c", 0%nat)] _).
  split; repeat constructor; cbn [fst]; try discriminate;
    intros H; repeat (apply elem_of_cons in H as [H|H]; [discriminate|]);
    now apply not_elem_of_nil in H.
Defined.

Lemma two_blank_lines_are_collapsed :
  split_lines (py "a" ++ [LF; LF; LF] ++ py "b") = [py "a"; []; []; py "b"]
  /\ remove_extra_line_jumps (py "a" ++ [LF; LF; LF] ++ py "b") = py "a" ++ [LF; LF] ++ py "b"
  /\ remove_extra_line_jumps (py "a" ++ [LF; LF; LF] ++ py "b")
     <> py "a" ++ [LF; LF; LF] ++ py "b".
Proof. split; [reflexivity|split; [reflexivity|discriminate]]. Qed.

(* ================= is_parent_ignored ================= *)

(** C10. For a relative file path the loop of is_parent_ignored ends (any fuel
    above the number of parts is enough) and answers True exactly when the name
    of one of the directories above the file is in the ignored set; for an
    absolute path the chain of parents never equals Path('.'), and the call never
    answers False. *)
Theorem is_parent_ignored_relative_terminates (file : Path) (ign : gset str) :
  (relative file ->
     forall fuel, (length (path_parts file) < fuel)%nat ->
       is_parent_ignored fuel file ign
       = Some (bool_decide (Exists (fun d => d ∈ ign) (removelast (path_parts file)))))
  /\ (absolute file ->
      (forall k, path_eqb (Nat.iter k path_parent file) Path_dot = false)
      /\ (forall fuel, is_parent_ignored fuel file ign <> Some false)).
Proof.
  split.
  - destruct file as [r ps]. unfold relative. simpl. intros -> fuel Hf.
    unfold is_parent_ignored, path_parent. cbn [path_parts path_root].
    rewrite bool_decide_eq_true_2 by reflexivity. rewrite andb_false_r.
    apply loop_relative.
    destruct ps as [|a ps] using rev_ind; [simpl in *; lia|].
    rewrite removelast_last. rewrite length_app in Hf. simpl in Hf. lia.
  - intros Ha. split.
    + intros k. apply absolute_not_dot. now apply iter_parent_absolute.
    + intros fuel. unfold is_parent_ignored. apply loop_absolute.
      now apply parent_absolute.
Qed.

Lemma is_parent_ignored_relative_terminates_witness :
  is_parent_ignored 4 (P "pkg/venv/x.py") DEFAULT_IGNORED_FOLDERS = Some true
  /\ is_parent_ignored 4 (P "/pkg/x.py") DEFAULT_IGNORED_FOLDERS <> Some false.
Proof.
  split.
  - refine (eq_trans
      (proj1 (is_parent_ignored_relative_terminates (P "pkg/venv/x.py")
                DEFAULT_IGNORED_FOLDERS) eq_refl 4%nat _) _).
    + vm_compute. lia.
    + vm_compute. reflexivity.
  - refine (proj2 (proj2 (is_parent_ignored_relative_terminates (P "/pkg/x.py")
                DEFAULT_IGNORED_FOLDERS) _) 4%nat).
    split; [discriminate|reflexivity].
Defined.

Lemma is_parent_ignored_absolute_diverges fuel p ign :
  absolute p ->
  (forall k, path_name (Nat.iter k path_parent p) ∉ ign) ->
  is_parent_ignored_loop fuel p ign = None.
Proof.
  revert p. induction fuel as [|fuel IH]; intros p Ha Hn; [reflexivity|].
  cbn [is_parent_ignored_loop]. rewrite absolute_not_dot by assumption.
  rewrite bool_decide_eq_false_2 by apply (Hn 0%nat).
  apply IH; [now apply parent_absolute|].
  intros k. specialize (Hn (S k)). now rewrite Nat.iter_succ_r in Hn.
Qed.

(* ================= get_arborescence ================= *)

Lemma located_nonempty items p e : located items p e -> p <> [].
Proof. destruct 1; discriminate. Qed.

Lemma reaches_located fo fi items p e :
  reaches fo fi items p e <->
  located items p e
  /\ (forall d, d ∈ removelast p -> (d ∉ fo) /\ (d ∉ fi))
  /\ (entry_name e ∉ fi) /\ shown fo e.
Proof.
  split.
  - intros H. split.
    + induction H as [items e He Hfi Hsh|items name children p e Hd Hfi Hfo Hr IH];
        [now constructor|]. now apply (located_below items name children).
    + pose proof (reaches_ancestors fo fi items p e H) as (_ & Hanc & Hfi & _).
      split; [exact Hanc|]. split; [exact Hfi|].
      clear Hanc Hfi. induction H; assumption.
  - intros (Hloc & Hanc & Hfi & Hshown).
    induction Hloc as [items e He|items name children p e Hd Hloc IH].
    + now constructor.
    + pose proof (located_nonempty _ _ _ Hloc) as Hp.
      assert (Hrm : removelast (name :: p) = name :: removelast p)
        by (destruct p; [congruence|reflexivity]).
      rewrite Hrm in Hanc.
      destruct (Hanc name ltac:(now left)) as [Hfo Hfi'].
      apply (reaches_below fo fi items name children); auto.
      apply IH; auto. intros d Hin. apply Hanc. now right.
Qed.

(** C9 (as amended). The text get_arborescence returns is the lines, in walk
    order and indented by depth, of exactly these entries below the root: those
    none of whose ancestor directories has its name in the folder set or in the
    file set, whose own name is not in the file set, and which are a directory
    whose name is not in the folder set or a regular file whose name ends with a
    recognized suffix. So a directory named in the folder set and everything
    below it are left out, and so is everything below a directory named in the
    file set. *)
Theorem get_arborescence_listing (items : list entry) (fo fi : gset str) (indent : nat) :
  get_arborescence items fo fi indent
  = concat (map (path_line indent) (listed_paths items fo fi))
  /\ (forall p, p ∈ listed_paths items fo fi <->
        exists e, located items p e
                  /\ (forall d, d ∈ removelast p -> (d ∉ fo) /\ (d ∉ fi))
                  /\ (entry_name e ∉ fi) /\ shown fo e)
  /\ (forall p d, p ∈ listed_paths items fo fi -> d ∈ removelast p -> d ∉ fo).
Proof.
  split; [apply get_arborescence_lines|]. split.
  - intros p. rewrite listed_paths_iff. split; intros [e H]; exists e;
      now apply reaches_located.
  - intros p d Hin Hd. apply listed_paths_iff in Hin as [e Hr].
    apply reaches_located in Hr as (_ & Hanc & _). now apply Hanc.
Qed.

Lemma file_below_directory_named_in_file_set :
  let items := [Dir (py "LICENSE") [RegularFile (py "a.py")]] in
  let fo : gset str := ∅ in
  let fi : gset str := {[ py "LICENSE" ]} in
  located items [py "LICENSE"; py "a.py"] (RegularFile (py "a.py"))
  /\ (py "a.py" ∉ fi)
  /\ (py "LICENSE" ∉ fo)
  /\ existsb (endswith (py "a.py")) ALLOWED_EXTENSIONS = true
  /\ get_arborescence items fo fi 0 = [].
Proof.
  cbv zeta. repeat split.
  - apply (located_below _ (py "LICENSE") [RegularFile (py "a.py")]); [now left|].
    apply (located_here _ (RegularFile (py "a.py"))). now left.
  - intros H. apply elem_of_singleton in H. discriminate.
  - apply not_elem_of_empty.
Qed.

(* ================= remove_comments_and_docstrings ================= *)

(** C1. On the assignment of a triple-quoted string to x the stripper drops the
    string token,
    which is not in docstring position: only the text before it and the newline
    are left. *)
Theorem triple_quoted_value_is_dropped :
  sample_tokens assigned_string_source = inr assigned_string_tokens
  /\ remove_comments_and_docstrings unit sample_tokens assigned_string_source
     = Returned (py "x = " ++ [LF]).
Proof. split; reflexivity. Qed.

(** What the stripper writes for a token stream: for each token the spaces up to
    its start column, then its text unless it is a comment, a string that follows
    an INDENT token (or opens the stream), or a string that starts with three
    quotes. *)
Theorem strip_tokens_written (toks : list TokenInfo) :
  strip_tokens toks = pieces INDENT (-1) 0 toks.
Proof. apply strip_tokens_pieces. Qed.





(* ================= remove_function_body ================= *)









(** C6 (as amended). When ast.parse raises SyntaxError, remove_function_body
    returns the source unchanged and prints one line, "Error: " followed by the
    error's text. Any other exception of ast.parse ends the call. Whenever the
    call returns, either the source did not parse, and the text is the source
    with that one line printed, or it parsed, and the text is what ast.unparse
    wrote for the visited tree with nothing printed. *)
Theorem remove_function_body_parse_failure (SyntaxError : Type)
  (error_text : SyntaxError -> str)
  (parse : str -> parsed SyntaxError) (unparse : node -> AstError + str)
  (code : str) :
  (forall e, parse code = SyntaxFailure e ->
     remove_function_body SyntaxError error_text parse unparse code
     = Returned (code, [py "Error: " ++ error_text e]))
  /\ (forall e, parse code = OtherFailure e ->
       remove_function_body SyntaxError error_text parse unparse code = Raised e)
  /\ (forall text printed,
       remove_function_body SyntaxError error_text parse unparse code
       = Returned (text, printed) ->
       (exists e, parse code = SyntaxFailure e /\ text = code
                  /\ printed = [py "Error: " ++ error_text e])
       \/ (exists tree, parse code = Parsed tree /\ unparse (visit tree) = inr text
                        /\ printed = [])).
Proof.
  unfold remove_function_body. repeat split.
  - now intros e ->.
  - now intros e ->.
  - intros text printed. destruct (parse code) as [tree|e|e]; [| |discriminate].
    + destruct (unparse (visit tree)) as [e|modified_code] eqn:E; [discriminate|].
      intros [= <- <-]. right. now exists tree.
    + intros [= <- <-]. left. now exists e.
Qed.

Lemma remove_function_body_parse_failure_witness :
  remove_function_body str id sample_parse sample_unparse broken_source
  = Returned (broken_source, [py "Error: invalid syntax (<unknown>, line 1)"]).
Proof.
  exact (proj1 (remove_function_body_parse_failure str id sample_parse sample_unparse
                  broken_source) (py "invalid syntax (<unknown>, line 1)") eq_refl).
Defined.

Lemma null_byte_is_not_caught :
  sample_parse null_source = OtherFailure null_bytes
  /\ remove_function_body str id sample_parse sample_unparse null_source
     = Raised null_bytes
  /\ ~ exists printed,
        remove_function_body str id sample_parse sample_unparse null_source
        = Returned (null_source, printed).
Proof.
  split; [reflexivity|]. split; [reflexivity|].
  intros (printed & H). discriminate H.
Qed.

(* ================= save_settings and load_settings ================= *)

(** C3 (as amended). Loading the file save_settings has just written gives back
    the description, the three flags of every file and both exclusion sets,
    whatever order the sets are iterated in, provided that: the description has
    no blank at either end, holds neither the marker <newline> nor a carriage
    return; the three dictionaries have the same keys, no two of them equal, each
    a path whose text has no blank; and each exclusion set is non-empty and made
    of non-empty names with no blank at either end, no ", " and no line break
    inside. *)
Theorem load_after_save (iter : gset str -> list str)
  (description : str) (selected_files remove_comments remove_functions : dict)
  (ignored_folders ignored_files : gset str)
  (Hiter : forall X x, x ∈ iter X <-> x ∈ X)
  (Hstrip : strip description = description)
  (Hmarker : contains (py "<newline>") description = false)
  (Hcr : CR ∉ description)
  (Hdistinct : keys_distinct selected_files)
  (Hrc : same_keys selected_files remove_comments)
  (Hrf : same_keys selected_files remove_functions)
  (Hpaths : Forall (fun e => path_ok (fst e) = true) selected_files)
  (Hfolders : ignored_folders <> ∅)
  (Hfolder_names : forall x, x ∈ ignored_folders -> name_ok x = true)
  (Hfiles : ignored_files <> ∅)
  (Hfile_names : forall x, x ∈ ignored_files -> name_ok x = true) :
  exists sel rc rf,
    load_settings (Some (save_settings iter description selected_files remove_comments
                           remove_functions ignored_folders ignored_files))
    = Returned (Some (description, sel, rc, rf, ignored_folders, ignored_files))
    /\ dict_eq sel selected_files
    /\ dict_eq rc remove_comments
    /\ dict_eq rf remove_functions.
Proof.
  exists selected_files, (flags_of remove_comments selected_files),
    (flags_of remove_functions selected_files).
  split; [|split; [intros k; reflexivity|split; now apply flags_of_eq]].
  assert (Htrim : trimmed description) by now apply strip_fixed_trimmed.
  assert (Hocc : ~ occurs (py "<newline>") description).
  { intros H. apply contains_occurs in H. congruence. }
  set (enc := replace [LF] (py "<newline>") description).
  assert (Henc_LF : LF ∉ enc) by (apply encode_no_c0; apply marker_no_LF).
  assert (Henc_CR : CR ∉ enc) by (apply encode_keeps_out; [apply marker_no_CR|exact Hcr]).
  set (fo_line := join (py ", ") (iter ignored_folders)).
  set (fi_line := join (py ", ") (iter ignored_files)).
  set (lines := concat (map (save_line remove_comments remove_functions) selected_files)).
  assert (Hsome : Forall (fun e => path_ok (fst e) = true
                     /\ is_Some (dict_get remove_comments (fst e))
                     /\ is_Some (dict_get remove_functions (fst e))) selected_files).
  { rewrite Forall_forall in Hpaths. apply Forall_forall. intros e He.
    split; [now apply Hpaths|].
    split; apply dict_has_Some; [rewrite <- (Hrc (fst e))|rewrite <- (Hrf (fst e))];
      now apply dict_has_elem. }
  unfold load_settings, save_settings. fold enc fo_line fi_line lines.
  rewrite universal_newlines_id.
  2:{ rewrite !elem_of_app, !list_elem_of_singleton.
      pose proof (names_line_no_CR iter Hiter ignored_folders Hfolder_names) as H1.
      pose proof (names_line_no_CR iter Hiter ignored_files Hfile_names) as H2.
      assert (H3 : CR ∉ lines).
      { apply concat_not_in, Forall_map. cbn.
        eapply Forall_impl; [exact Hpaths|]. intros e. apply save_line_no_CR. }
      assert (H4 : CR ∉ str_of_nat (length selected_files)).
      { intros Hin. pose proof (str_of_nat_no_space (length selected_files)) as Hn.
        rewrite Forall_forall in Hn. apply Hn in Hin. discriminate. }
      fold fo_line in H1. fold fi_line in H2.
      intros H; repeat match goal with H : _ \/ _ |- _ => destruct H end;
        try contradiction; discriminate. }
  rewrite <- !app_assoc. cbn [app].
  rewrite readline_line by assumption.
  rewrite strip_line by now apply trimmed_encode.
  unfold enc. rewrite (decode_description description Hocc).
  rewrite readline_line
    by (apply not_space_not_LF, str_of_nat_no_space).
  rewrite strip_line by apply str_of_nat_trimmed.
  rewrite int_str_of_nat, Nat2Z.id.
  unfold lines. rewrite load_files_saved; [|exact Hsome|exact Hdistinct|reflexivity..].
  cbn [app].
  pose proof (names_line_no_LF iter Hiter ignored_folders Hfolder_names) as L1.
  pose proof (names_line_no_LF iter Hiter ignored_files Hfile_names) as L2.
  pose proof (names_line_strip iter Hiter ignored_folders Hfolder_names) as T1.
  pose proof (names_line_strip iter Hiter ignored_files Hfile_names) as T2.
  pose proof (names_line_nonempty iter Hiter ignored_folders Hfolders Hfolder_names) as N1.
  pose proof (names_line_nonempty iter Hiter ignored_files Hfiles Hfile_names) as N2.
  pose proof (names_line_split iter Hiter ignored_folders Hfolders Hfolder_names) as S1.
  pose proof (names_line_split iter Hiter ignored_files Hfiles Hfile_names) as S2.
  fold fo_line in L1, T1, N1, S1. fold fi_line in L2, T2, N2, S2.
  rewrite readline_line by assumption. rewrite T1.
  change (fi_line ++ [LF]) with (fi_line ++ LF :: []).
  rewrite readline_line by assumption.
  change (fi_line ++ LF :: []) with (fi_line ++ [LF]) in *. rewrite T2.
  destruct fo_line; [congruence|]. destruct fi_line; [congruence|].
  now rewrite S1, S2.
Qed.

Lemma load_after_save_witness :
  exists sel rc rf,
    load_settings
      (Some (save_settings elements (py "demo" ++ [LF] ++ py "tool")
               [(P "pkg/a.py", true); (P "b.py", false)]
               [(P "pkg/a.py", true); (P "b.py", false)]
               [(P "pkg/a.py", false); (P "b.py", false)]
               {[ py ".git"; py "venv" ]} {[ py "LICENSE" ]}))
    = Returned (Some (py "demo" ++ [LF] ++ py "tool", sel, rc, rf,
                      {[ py ".git"; py "venv" ]}, {[ py "LICENSE" ]}))
    /\ dict_eq sel [(P "pkg/a.py", true); (P "b.py", false)]
    /\ dict_eq rc [(P "pkg/a.py", true); (P "b.py", false)]
    /\ dict_eq rf [(P "pkg/a.py", false); (P "b.py", false)].
Proof.
  apply (load_after_save elements).
  - intros X x. apply elem_of_elements.
  - reflexivity.
  - reflexivity.
  - intros H. repeat (apply elem_of_cons in H as [H|H]; [discriminate|]).
    now apply not_elem_of_nil in H.
  - unfold keys_distinct. cbn [map fst]. repeat constructor.
    + intros H. apply list_elem_of_singleton in H. discriminate.
    + apply not_elem_of_nil.
  - intros k. reflexivity.
  - intros k. unfold dict_has. cbn [dict_get].
    destruct (path_eqb (P "pkg/a.py") k); [reflexivity|].
    destruct (path_eqb (P "b.py") k); reflexivity.
  - repeat constructor.
  - intros H. apply (f_equal (fun X : gset str => bool_decide (py "venv" ∈ X))) in H.
    vm_compute in H. discriminate.
  - intros x Hx. apply elem_of_union in Hx as [Hx|Hx];
      apply elem_of_singleton in Hx; subst x; reflexivity.
  - intros H. apply (f_equal (fun X : gset str => bool_decide (py "LICENSE" ∈ X))) in H.
    vm_compute in H. discriminate.
  - intros x Hx. apply elem_of_singleton in Hx. subst x. reflexivity.
Defined.

Lemma path_with_a_space_is_not_reloaded :
  load_settings
    (Some (save_settings elements (py "demo")
             [(P "my file.py", true)] [(P "my file.py", true)] [(P "my file.py", false)]
             {[ py ".git" ]} {[ py "LICENSE" ]}))
  = Returned (Some (py "demo", [(P "my", false)], [(P "my", true)], [(P "my", true)],
                    {[ py ".git" ]}, {[ py "LICENSE" ]}))
  /\ dict_get [(P "my", false)] (P "my file.py") = None
  /\ dict_get [(P "my file.py", true)] (P "my file.py") = Some true.
Proof. split; [vm_compute; reflexivity|split; reflexivity]. Qed.

(** C8 (as amended). load_settings returns None exactly when there is no settings
    file. With a file it never does: when the second line is not an integer
    literal it raises ValueError, and so it does for every file that ends within
    its first line, the empty file among them. *)
Theorem load_settings_missing_or_malformed :
  (forall file, load_settings file = Returned None <-> file = None)
  /\ (forall content, int (strip (count_line content)) = None ->
       load_settings (Some content) = Raised invalid_literal_for_int)
  /\ (forall content, LF ∉ content -> CR ∉ content ->
       load_settings (Some content) = Raised invalid_literal_for_int).
Proof.
  assert (Hcount : forall content, int (strip (count_line content)) = None ->
            load_settings (Some content) = Raised invalid_literal_for_int).
  { intros content. unfold load_settings, count_line.
    destruct (readline (universal_newlines content)) as [l1 f1]. cbn [snd].
    destruct (readline f1) as [l2 f2]. cbn [fst]. now intros ->. }
  split; [|split; [exact Hcount|]].
  - intros [content|]; [|now split]. split; [|discriminate].
    unfold load_settings.
    destruct (readline (universal_newlines content)) as [l1 f1].
    destruct (readline f1) as [l2 f2].
    destruct (int (strip l2)) as [n|]; [|discriminate].
    destruct (load_files (Z.to_nat n) f2 [] [] []) as [[[sel rc] rf] f3].
    destruct (readline f3) as [l3 f4]. destruct (readline f4) as [l4 f5]. discriminate.
  - intros content HLF HCR. apply Hcount. unfold count_line.
    rewrite universal_newlines_id by assumption.
    rewrite (readline_without_newline content) by assumption. reflexivity.
Qed.

Lemma empty_settings_file_raises :
  load_settings (Some []) = Raised invalid_literal_for_int
  /\ load_settings (Some []) <> Returned None.
Proof. split; [reflexivity|discriminate]. Qed.

(* ====================================================================== *)
(* Further properties of the code                                         *)
(* ====================================================================== *)

(* ================= remove_extra_line_jumps, further ================= *)

(** X1. The text remove_extra_line_jumps returns holds no three newline
    characters in a row, whatever the input. *)
Theorem remove_extra_line_jumps_no_triple (code : str) :
  ~ occurs [LF; LF; LF] (remove_extra_line_jumps code).
Proof.
  intros (a & b & H).
  pose proof (runs_below_three code (length a)) as Hk.
  rewrite H, drop_app_length in Hk.
  pose proof (run_length_prefix LF 3 b) as H3. cbn [repeat app] in H3.
  cbn [app] in Hk. lia.
Qed.

(** X2. remove_extra_line_jumps is idempotent: applied to its own result it
    changes nothing. *)
Theorem remove_extra_line_jumps_idempotent (code : str) :
  remove_extra_line_jumps (remove_extra_line_jumps code) = remove_extra_line_jumps code.
Proof. apply remove_extra_line_jumps_unchanged, runs_below_three. Qed.

(* ================= remove_function_body, further ================= *)

(** X3. The body reducer is idempotent on trees: visiting the visited tree
    again gives the same tree. *)
Theorem visit_idempotent (tree : node) : visit (visit tree) = visit tree.
Proof.
  induction tree as [n IH] using node_ind_blocks.
  destruct n; cbn [blocks] in IH;
    repeat match goal with
           | H : Forall _ (_ :: _) |- _ => apply Forall_cons_1 in H as [? ?]
           end;
    try (rewrite ?visit_FunctionDef, ?visit_AsyncFunctionDef, reduced_body_visit;
         reflexivity);
    cbn [visit]; repeat rewrite map_visit_visit by assumption; reflexivity.
Qed.

(** X4. A tree that holds no function definition is left as it is by the body
    reducer. *)
Theorem visit_without_functions (tree : node) :
  all_defs tree = [] -> visit tree = tree.
Proof.
  induction tree as [n IH] using node_ind_blocks.
  destruct n; cbn [blocks] in IH;
    repeat match goal with
           | H : Forall _ (_ :: _) |- _ => apply Forall_cons_1 in H as [? ?]
           end;
    cbn [all_defs]; intros Hd; try discriminate; try reflexivity;
    repeat match goal with
           | H : _ ++ _ = [] |- _ => apply concat_app_nil in H as [? ?]
           end;
    cbn [visit]; repeat rewrite all_defs_none by assumption; reflexivity.
Qed.

Lemma visit_without_functions_witness :
  visit (Module [ClassDef (py "C") [] [] [Pass] []; SimpleStmt (py "Import") [py "os"] []])
  = Module [ClassDef (py "C") [] [] [Pass] []; SimpleStmt (py "Import") [py "os"] []].
Proof. apply visit_without_functions. reflexivity. Defined.

(* ================= load_settings, further ================= *)

(** X5. Whatever the settings file holds, the three dictionaries load_settings
    returns have the same keys: a file is in selected_files exactly when it is
    in remove_comments and in remove_functions. *)
Theorem loaded_dictionaries_share_keys (content description : str)
  (selected_files remove_comments remove_functions : dict)
  (ignored_folders ignored_files : gset str) :
  load_settings (Some content)
  = Returned (Some (description, selected_files, remove_comments, remove_functions,
                    ignored_folders, ignored_files)) ->
  same_keys selected_files remove_comments /\ same_keys selected_files remove_functions.
Proof.
  intros H. apply load_settings_returned in H
    as (l1 & f1 & l2 & f2 & z & f3 & l3 & l4 & f5 & _ & _ & _ & _ & _ & E).
  injection E as -> -> -> -> -> ->.
  apply load_files_keys; intros k; reflexivity.
Qed.

Lemma loaded_dictionaries_share_keys_witness :
  same_keys [(P "a.py", true)] [(P "a.py", false)]
  /\ same_keys [(P "a.py", true)] [(P "a.py", true)].
Proof.
  apply (loaded_dictionaries_share_keys
           (lines_of ["d"; "2"; "a.py True False True"; "short line"; "x"; "y"]%string)
           (py "d") _ _ _ (list_to_set [py "x"]) (list_to_set [py "y"])).
  lazy -[list_to_set]. reflexivity.
Defined.

(** X6. load_settings never returns an empty exclusion set: an empty line in the
    file gives the default set, and any other line gives at least one name. *)
Theorem loaded_exclusion_sets_nonempty (content description : str)
  (selected_files remove_comments remove_functions : dict)
  (ignored_folders ignored_files : gset str) :
  load_settings (Some content)
  = Returned (Some (description, selected_files, remove_comments, remove_functions,
                    ignored_folders, ignored_files)) ->
  ignored_folders <> ∅ /\ ignored_files <> ∅.
Proof.
  intros H. apply load_settings_returned in H
    as (l1 & f1 & l2 & f2 & z & f3 & l3 & l4 & f5 & _ & _ & _ & _ & _ & E).
  injection E as -> -> -> -> -> ->.
  split; apply names_line_set;
    [apply DEFAULT_IGNORED_FOLDERS_nonempty|apply DEFAULT_IGNORED_FILES_nonempty].
Qed.

Lemma loaded_exclusion_sets_nonempty_witness :
  DEFAULT_IGNORED_FOLDERS <> ∅ /\ (list_to_set [py "y"] : gset str) <> ∅.
Proof.
  apply (loaded_exclusion_sets_nonempty
           (lines_of ["d"; "0"; ""; "y"]%string) (py "d") [] [] []).
  lazy -[list_to_set DEFAULT_IGNORED_FOLDERS]. reflexivity.
Defined.

(** X7. load_settings reads at most as many files as the count on the second
    line says: with the count z the dictionary of selected files has at most
    max(z, 0) keys, so a zero or negative count gives an empty one. *)
Theorem loaded_files_within_count (content description : str)
  (selected_files remove_comments remove_functions : dict)
  (ignored_folders ignored_files : gset str) :
  load_settings (Some content)
  = Returned (Some (description, selected_files, remove_comments, remove_functions,
                    ignored_folders, ignored_files)) ->
  exists z, int (strip (count_line content)) = Some z
            /\ (Z.of_nat (length selected_files) <= Z.max z 0)%Z.
Proof.
  intros H. apply load_settings_returned in H
    as (l1 & f1 & l2 & f2 & z & f3 & l3 & l4 & f5 & E1 & E2 & Ez & _ & _ & E).
  injection E as -> -> -> -> -> ->.
  exists z. unfold count_line. rewrite E1. cbn [snd]. rewrite E2. cbn [fst].
  split; [exact Ez|].
  pose proof (load_files_length (Z.to_nat z) f2 [] [] []) as Hl. cbn [length] in Hl. lia.
Qed.

Lemma loaded_files_within_count_witness :
  exists z, int (strip (count_line (lines_of ["d"; "-3"; "a.py True False True"]%string)))
            = Some z
            /\ (Z.of_nat (length (@nil (Path * bool))) <= Z.max z 0)%Z.
Proof.
  apply (loaded_files_within_count
           (lines_of ["d"; "-3"; "a.py True False True"]%string) (py "d") [] [] []
           (list_to_set [py "a.py True False True"]) DEFAULT_IGNORED_FILES).
  lazy -[list_to_set DEFAULT_IGNORED_FILES]. reflexivity.
Defined.

(* ================= prompt_user ================= *)

(** X8. prompt_user asks again until a line is y, Y, n, N or empty: it passes over
    every other line, writing the prompt once per line read, and returns the
    first such line in lower case, leaving the lines after it unread. *)
Theorem prompt_user_answer (T : Type) (message : str) (bad : list str) (good : str)
  (rest out : list str) (sf tf : option str)
  (Hbad : Forall (fun l => l ∉ [py "y"; py "Y"; py "n"; py "N"; []]) bad)
  (Hgood : good ∈ [py "y"; py "Y"; py "n"; py "N"; []]) :
  @prompt_user T message (mkWorld (bad ++ good :: rest) out sf tf)
  = Some (Returned (lower good),
          mkWorld rest (out ++ repeat message (S (length bad))) sf tf)
  /\ lower good ∈ [py "y"; py "n"; []].
Proof.
  apply lower_accepted in Hgood. split; [|exact Hgood].
  unfold prompt_user. cbn [stdin]. apply prompt_user_loop_answer.
  - eapply Forall_impl; [exact Hbad|]. intros l Hl H. now apply Hl, lower_accepted.
  - exact Hgood.
  - rewrite length_app. cbn [length]. lia.
Qed.

Lemma prompt_user_answer_witness :
  @prompt_user unit (py "ok? ") (mkWorld [py "yes"; py " y"; py "Y"; py "n"] [] None None)
  = Some (Returned (lower (py "Y")),
          mkWorld [py "n"] ([] ++ repeat (py "ok? ") 3) None None)
  /\ lower (py "Y") ∈ [py "y"; py "n"; []].
Proof.
  apply (prompt_user_answer unit (py "ok? ") [py "yes"; py " y"] (py "Y") [py "n"] []
           None None).
  - repeat constructor; intros H;
      repeat (apply elem_of_cons in H as [H|H]; [discriminate|]);
      now apply not_elem_of_nil in H.
  - apply elem_of_cons. right. now left.
Defined.

(** X9. When no line left on the input is y, Y, n, N or empty, prompt_user reads
    them all, writes the prompt once more and ends in EOFError: it returns no
    answer of its own. *)
Theorem prompt_user_end_of_input (T : Type) (message : str) (lines out : list str)
  (sf tf : option str)
  (Hbad : Forall (fun l => l ∉ [py "y"; py "Y"; py "n"; py "N"; []]) lines) :
  @prompt_user T message (mkWorld lines out sf tf)
  = Some (Raised EOFError,
          mkWorld [] (out ++ repeat message (S (length lines))) sf tf).
Proof.
  unfold prompt_user. cbn [stdin]. apply prompt_user_loop_eof; [|lia].
  eapply Forall_impl; [exact Hbad|]. intros l Hl H. now apply Hl, lower_accepted.
Qed.

Lemma prompt_user_end_of_input_witness :
  @prompt_user unit (py "ok? ") (mkWorld [py "yes"; py "no"] [] None None)
  = Some (Raised EOFError, mkWorld [] ([] ++ repeat (py "ok? ") 3) None None).
Proof.
  apply (prompt_user_end_of_input unit (py "ok? ") [py "yes"; py "no"] [] None None).
  repeat constructor; intros H;
    repeat (apply elem_of_cons in H as [H|H]; [discriminate|]);
    now apply not_elem_of_nil in H.
Defined.

(* ================= get_user_settings ================= *)

(** X10. When no path comes twice from rglob and the saved settings, if there
    are any, hold each selected file once and with both of its flags,
    get_user_settings never ends in KeyError, and in the settings it returns
    every file whose value is True has an entry in remove_comments and in
    remove_functions. *)
Theorem get_user_settings_flags (TokenError : Type) (iter : gset str -> list str)
  (rglob_py : list Path) (saved : option settings) (w w' : world)
  (r : outcome (exception TokenError) settings)
  (Hfiles : NoDup (map path_parts rglob_py))
  (Hsaved : saved_ok saved)
  (Hrun : get_user_settings TokenError iter rglob_py saved w = Some (r, w')) :
  no_KeyError r
  /\ match r with
     | Returned (_, selected_files, remove_comments, remove_functions, _, _) =>
         flagged selected_files remove_comments remove_functions
     | Raised _ => True
     end.
Proof.
  pose proof (safe_get_user_settings TokenError iter rglob_py saved Hfiles Hsaved
                w r w' Hrun) as H.
  destruct r as [e|[[[[[d sel] rc] rf] fo] fi]].
  - split; [|exact I]. destruct e; try exact I. now apply (H key).
  - split; [exact I|]. now destruct H.
Qed.

Lemma get_user_settings_flags_witness :
  no_KeyError (Returned (py "demo", [(P "a.py", true); (P "b.py", false)],
                         [(P "a.py", false)], [(P "a.py", true)],
                         list_to_set [py "venv"], list_to_set [py "setup.py"])
               : outcome (exception unit) settings)
  /\ flagged [(P "a.py", true); (P "b.py", false)] [(P "a.py", false)] [(P "a.py", true)].
Proof.
  apply (get_user_settings_flags unit (fun _ => []) [P "a.py"; P "b.py"] None
           (mkWorld [py "demo"; py "venv"; py "setup.py"; py "y"; py "n"; py "Y"; py "n"]
              [] None None)
           (mkWorld []
              [py "Enter the description: ";
               py "Enter ignored folders (comma-separated, default: ): ";
               py "Enter ignored files (comma-separated, default: ): ";
               py "Include a.py? (y/n): ";
               py "Remove comments and docstrings from a.py? (y/n): ";
               py "Remove function bodies from a.py? (y/n): ";
               py "Include b.py? (y/n): "] None None)).
  - repeat constructor; intros H;
      repeat (apply elem_of_cons in H as [H|H]; [discriminate|]);
      now apply not_elem_of_nil in H.
  - exact I.
  - vm_compute. reflexivity.
Defined.

(** X11. When every path that comes from rglob is relative, get_user_settings
    ends, in a value or in an exception, from every world: its loops over the
    input stop at the end of the input at the latest, and the walk up the
    parents of a relative path stops. *)
Theorem get_user_settings_ends (TokenError : Type) (iter : gset str -> list str)
  (rglob_py : list Path) (saved : option settings) (w : world)
  (Hrel : Forall relative rglob_py) :
  is_Some (get_user_settings TokenError iter rglob_py saved w).
Proof.
  pose proof (ends_get_user_settings TokenError iter rglob_py saved Hrel w) as H.
  destruct (get_user_settings TokenError iter rglob_py saved w); [eauto|congruence].
Qed.

Lemma get_user_settings_ends_witness :
  is_Some (get_user_settings unit elements [P "pkg/a.py"] None session_start).
Proof.
  apply get_user_settings_ends. repeat constructor.
Defined.

(* ================= write_template ================= *)

(** X12. When every selected file has an entry in remove_comments and in
    remove_functions, write_template does not end in KeyError, whatever the
    files hold. *)
Theorem write_template_no_KeyError (TokenError : Type)
  (generate_tokens : str -> TokenError + list TokenInfo)
  (SyntaxError : Type) (error_text : SyntaxError -> str)
  (parse : str -> parsed SyntaxError) (unparse : node -> AstError + str)
  (read_text : Path -> option str)
  (description arborescence : str) (selected_files remove_comments remove_functions : dict)
  (w w' : world) (r : outcome (exception TokenError) unit)
  (Hflags : flagged selected_files remove_comments remove_functions)
  (Hrun : write_template TokenError generate_tokens SyntaxError error_text parse unparse
            read_text description arborescence selected_files remove_comments
            remove_functions w = Some (r, w')) :
  no_KeyError r.
Proof.
  pose proof (safe_write_template TokenError generate_tokens SyntaxError error_text parse
                unparse read_text description arborescence _ _ _ Hflags w r w' Hrun) as H.
  destruct r as [e|v]; [|exact I]. destruct e; try exact I. now apply (H key).
Qed.

Lemma write_template_no_KeyError_witness :
  no_KeyError (Returned tt : outcome (exception unit) unit).
Proof.
  apply (write_template_no_KeyError unit sample_tokens str id sample_parse sample_unparse
           session_files (py "demo") (py "- a.py" ++ [LF])
           [(P "a.py", true)] [(P "a.py", false)] [(P "a.py", true)]
           (mkWorld [] [] None None)
           (mkWorld [] [py "Template generated in template.txt" ++ [LF]] None
              (Some session_template))).
  - unfold flagged, dict_has. cbn [dict_get]. intros k.
    destruct (path_eqb _ k); [now split|discriminate].
  - vm_compute. reflexivity.
Defined.

(** X13. When no file is selected, write_template opens no file and looks up no
    flag: it writes the description, the fixed sentence and the arborescence as
    given to template.txt, prints its message and returns. *)
Theorem write_template_nothing_selected (TokenError : Type)
  (generate_tokens : str -> TokenError + list TokenInfo)
  (SyntaxError : Type) (error_text : SyntaxError -> str)
  (parse : str -> parsed SyntaxError) (unparse : node -> AstError + str)
  (read_text : Path -> option str)
  (description arborescence : str) (selected_files remove_comments remove_functions : dict)
  (w : world)
  (Hnone : forall k, dict_get selected_files k <> Some true) :
  write_template TokenError generate_tokens SyntaxError error_text parse unparse
    read_text description arborescence selected_files remove_comments remove_functions w
  = Some (Returned tt, template_written (template_text description arborescence) w).
Proof.
  apply write_template_returned, for_each_skip, Forall_forall. intros k Hk.
  apply embed_unselected.
  destruct (dict_get_fst _ _ Hk) as [[|] Hv]; [|exact Hv]. now apply Hnone in Hv.
Qed.

Lemma write_template_nothing_selected_witness :
  write_template unit sample_tokens str id sample_parse sample_unparse (fun _ => None)
    (py "demo") (py "- a.py" ++ [LF]) [(P "a.py", false)] [] [] (mkWorld [] [] None None)
  = Some (Returned tt,
          template_written (template_text (py "demo") (py "- a.py" ++ [LF]))
            (mkWorld [] [] None None)).
Proof.
  apply write_template_nothing_selected. intros k. cbn [dict_get].
  destruct (path_eqb _ k); discriminate.
Defined.

(** X14. write_template opens a selected file before it looks up its flags: for
    the first selected file, a file that cannot be read ends the call in
    OSError even when its flags are missing, and a readable file without an
    entry in remove_functions ends it in KeyError; in both cases nothing has
    been printed and template.txt is not written. *)
Theorem write_template_first_selected (TokenError : Type)
  (generate_tokens : str -> TokenError + list TokenInfo)
  (SyntaxError : Type) (error_text : SyntaxError -> str)
  (parse : str -> parsed SyntaxError) (unparse : node -> AstError + str)
  (read_text : Path -> option str)
  (description arborescence : str) (selected_files remove_comments remove_functions : dict)
  (before after : list Path) (file : Path) (w : world)
  (Hkeys : map fst selected_files = before ++ file :: after)
  (Hbefore : Forall (fun k => dict_get selected_files k = Some false) before)
  (Hfile : dict_get selected_files file = Some true) :
  (read_text file = None ->
   write_template TokenError generate_tokens SyntaxError error_text parse unparse
     read_text description arborescence selected_files remove_comments remove_functions w
   = Some (Raised (OSError file), w))
  /\ (forall content, read_text file = Some content ->
      dict_get remove_functions file = None ->
      write_template TokenError generate_tokens SyntaxError error_text parse unparse
        read_text description arborescence selected_files remove_comments remove_functions w
      = Some (Raised (KeyError file), w)).
Proof.
  assert (Hskip : for_each (embed_file TokenError generate_tokens SyntaxError error_text
                              parse unparse read_text selected_files remove_comments
                              remove_functions) before arborescence w
                  = Some (Returned arborescence, w)).
  { apply for_each_skip. eapply Forall_impl; [exact Hbefore|].
    intros k Hk. now apply embed_unselected. }
  split; [intros Hread|intros content Hread Hrf];
    apply write_template_raised; rewrite Hkeys, for_each_app; unfold bind at 1;
    rewrite Hskip; cbn [for_each]; unfold bind at 1;
    unfold embed_file, bind, lookup, read; rewrite Hfile, Hread; cbn [negb];
    [reflexivity|now rewrite Hrf].
Qed.

Lemma write_template_first_selected_witness :
  write_template unit sample_tokens str id sample_parse sample_unparse (fun _ => None)
    (py "demo") (py "- a.py" ++ [LF]) [(P "b.py", false); (P "a.py", true)] [] []
    (mkWorld [] [] None None)
  = Some (Raised (OSError (P "a.py")), mkWorld [] [] None None)
  /\ write_template unit sample_tokens str id sample_parse sample_unparse session_files
       (py "demo") (py "- a.py" ++ [LF]) [(P "b.py", false); (P "a.py", true)] [] []
       (mkWorld [] [] None None)
     = Some (Raised (KeyError (P "a.py")), mkWorld [] [] None None).
Proof.
  split.
  - apply (proj1 (write_template_first_selected unit sample_tokens str id sample_parse
                    sample_unparse (fun _ => None) (py "demo") (py "- a.py" ++ [LF])
                    [(P "b.py", false); (P "a.py", true)] [] [] [P "b.py"] [] (P "a.py")
                    (mkWorld [] [] None None) eq_refl
                    ltac:(repeat constructor) eq_refl)).
    reflexivity.
  - apply (proj2 (write_template_first_selected unit sample_tokens str id sample_parse
                    sample_unparse session_files (py "demo") (py "- a.py" ++ [LF])
                    [(P "b.py", false); (P "a.py", true)] [] [] [P "b.py"] [] (P "a.py")
                    (mkWorld [] [] None None) eq_refl
                    ltac:(repeat constructor) eq_refl) documented_source);
      reflexivity.
Defined.

(** X15. With one file selected and neither of its flags set, the template holds
    the arborescence of get_arborescence in which every line that ends with
    the name line of the file (a dash, a space, the file's name) is followed by
    the file's content, newline runs collapsed, between code fences: the line of
    the file itself, and as well the line of every other entry of that name in
    any directory. No name may hold a newline. *)
Theorem template_holds_content_after_matching_lines (TokenError : Type)
  (generate_tokens : str -> TokenError + list TokenInfo)
  (SyntaxError : Type) (error_text : SyntaxError -> str)
  (parse : str -> parsed SyntaxError) (unparse : node -> AstError + str)
  (read_text : Path -> option str)
  (description : str) (items : list entry) (ignored_folders ignored_files : gset str)
  (selected_files remove_comments remove_functions : dict)
  (before after : list Path) (file : Path) (content : str) (w : world)
  (Hkeys : map fst selected_files = before ++ file :: after)
  (Hothers : Forall (fun k => dict_get selected_files k = Some false) (before ++ after))
  (Hfile : dict_get selected_files file = Some true)
  (Hread : read_text file = Some content)
  (Hrc : dict_get remove_comments file = Some false)
  (Hrf : dict_get remove_functions file = Some false)
  (Hnames : Forall (fun p => LF ∉ List.last p [])
              (listed_paths items ignored_folders ignored_files))
  (Hname : LF ∉ path_name file) :
  write_template TokenError generate_tokens SyntaxError error_text parse unparse read_text
    description (get_arborescence items ignored_folders ignored_files 0)
    selected_files remove_comments remove_functions w
  = Some (Returned tt,
          template_written
            (template_text description
               (concat (map (fun p => line_with file (remove_extra_line_jumps content)
                                        (path_line 0 p))
                          (listed_paths items ignored_folders ignored_files)))) w).
Proof.
  apply Forall_app in Hothers as [Hbefore Hafter].
  apply write_template_returned. rewrite Hkeys, for_each_app. unfold bind at 1.
  rewrite for_each_skip
    by (eapply Forall_impl; [exact Hbefore|]; intros k Hk; now apply embed_unselected).
  cbn [for_each]. unfold bind at 1. erewrite embed_plain by eassumption.
  rewrite for_each_skip
    by (eapply Forall_impl; [exact Hafter|]; intros k Hk; now apply embed_unselected).
  do 2 f_equal. rewrite get_arborescence_lines.
  unfold name_line at 1. rewrite (app_assoc (py "- ")).
  rewrite replace_lines.
  - rewrite <- (app_assoc (py "- ")). fold (name_line file). rewrite map_map.
    f_equal. apply (f_equal (@concat ascii)), map_ext. intros p. apply line_with_replace.
  - rewrite elem_of_app. intros [H|H]; [|contradiction].
    repeat (apply elem_of_cons in H as [H|H]; [discriminate|]). now apply elem_of_nil in H.
  - apply Forall_map. eapply Forall_impl; [exact Hnames|].
    intros p Hp. now apply listing_line_one_line.
Qed.

Lemma template_holds_content_after_matching_lines_witness :
  write_template unit sample_tokens str id sample_parse sample_unparse
    (fun _ => Some (py "x = 1" ++ [LF]))
    (py "demo")
    (get_arborescence [Dir (py "pkg") [RegularFile (py "a.py")]; RegularFile (py "a.py")]
       ∅ ∅ 0)
    [(P "a.py", true)] [(P "a.py", false)] [(P "a.py", false)] (mkWorld [] [] None None)
  = Some (Returned tt,
          template_written
            (template_text (py "demo")
               (concat (map (fun p => line_with (P "a.py")
                                        (remove_extra_line_jumps (py "x = 1" ++ [LF]))
                                        (path_line 0 p))
                          (listed_paths
                             [Dir (py "pkg") [RegularFile (py "a.py")];
                              RegularFile (py "a.py")] ∅ ∅))))
            (mkWorld [] [] None None)).
Proof.
  apply (template_holds_content_after_matching_lines unit sample_tokens str id sample_parse
           sample_unparse (fun _ => Some (py "x = 1" ++ [LF])) (py "demo")
           [Dir (py "pkg") [RegularFile (py "a.py")]; RegularFile (py "a.py")] ∅ ∅
           [(P "a.py", true)] [(P "a.py", false)] [(P "a.py", false)] [] [] (P "a.py")).
  - reflexivity.
  - constructor.
  - reflexivity.
  - reflexivity.
  - reflexivity.
  - reflexivity.
  - vm_compute. repeat constructor; intros H;
      repeat (apply elem_of_cons in H as [H|H]; [discriminate|]);
      now apply not_elem_of_nil in H.
  - vm_compute. intros H.
    repeat (apply elem_of_cons in H as [H|H]; [discriminate|]).
    now apply not_elem_of_nil in H.
Defined.

(* ================= run_cli ================= *)

(** X16. When no path comes twice from rglob, run_cli never ends in KeyError,
    whatever the settings file, the input and the files hold: the settings it
    loads, asks for or completes always give every selected file both flags. *)
Theorem run_cli_no_KeyError (TokenError : Type)
  (generate_tokens : str -> TokenError + list TokenInfo)
  (SyntaxError : Type) (error_text : SyntaxError -> str)
  (parse : str -> parsed SyntaxError) (unparse : node -> AstError + str)
  (iter : gset str -> list str) (rglob_py : list Path)
  (read_text : Path -> option str) (iterdir : list entry)
  (w w' : world) (r : outcome (exception TokenError) unit)
  (Hfiles : NoDup (map path_parts rglob_py))
  (Hrun : run_cli TokenError generate_tokens SyntaxError error_text parse unparse iter
            rglob_py read_text iterdir w = Some (r, w')) :
  no_KeyError r.
Proof.
  pose proof (safe_run_cli TokenError generate_tokens SyntaxError error_text parse unparse
                iter rglob_py read_text iterdir Hfiles w r w' Hrun) as H.
  destruct r as [e|v]; [|exact I]. destruct e; try exact I. now apply (H key).
Qed.

Lemma run_cli_no_KeyError_witness :
  no_KeyError (Returned tt : outcome (exception unit) unit).
Proof.
  apply (run_cli_no_KeyError unit sample_tokens str id sample_parse sample_unparse
           elements [P "a.py"] session_files session_entries session_start session_end).
  - repeat constructor. apply not_elem_of_nil.
  - vm_compute. reflexivity.
Defined.

(** X17. When every path that comes from rglob is relative, run_cli ends, in a
    value or in an exception, from every world. *)
Theorem run_cli_ends (TokenError : Type)
  (generate_tokens : str -> TokenError + list TokenInfo)
  (SyntaxError : Type) (error_text : SyntaxError -> str)
  (parse : str -> parsed SyntaxError) (unparse : node -> AstError + str)
  (iter : gset str -> list str) (rglob_py : list Path)
  (read_text : Path -> option str) (iterdir : list entry) (w : world)
  (Hrel : Forall relative rglob_py) :
  is_Some (run_cli TokenError generate_tokens SyntaxError error_text parse unparse iter
             rglob_py read_text iterdir w).
Proof.
  pose proof (ends_run_cli TokenError generate_tokens SyntaxError error_text parse unparse
                iter rglob_py read_text iterdir Hrel w) as H.
  destruct (run_cli _ _ _ _ _ _ _ _ _ _ w); [eauto|congruence].
Qed.

Lemma run_cli_ends_witness :
  is_Some (run_cli unit sample_tokens str id sample_parse sample_unparse
             elements [P "pkg/a.py"] session_files session_entries session_start).
Proof. apply run_cli_ends. repeat constructor. Defined.

(** X18. A run of run_cli that ends in an exception leaves the settings file as
    it was. A run that returns leaves it as it was or holding exactly what
    save_settings writes for the settings the run worked with: the saved ones
    when the user chose to use them, those get_user_settings returned
    otherwise. *)
Theorem run_cli_settings_file (TokenError : Type)
  (generate_tokens : str -> TokenError + list TokenInfo)
  (SyntaxError : Type) (error_text : SyntaxError -> str)
  (parse : str -> parsed SyntaxError) (unparse : node -> AstError + str)
  (iter : gset str -> list str) (rglob_py : list Path)
  (read_text : Path -> option str) (iterdir : list entry)
  (w w' : world) (r : outcome (exception TokenError) unit)
  (Hrun : run_cli TokenError generate_tokens SyntaxError error_text parse unparse iter
            rglob_py read_text iterdir w = Some (r, w')) :
  match r with
  | Raised _ => save_file w' = save_file w
  | Returned _ =>
      exists chosen w1,
        chosen_settings TokenError iter rglob_py w = Some (Returned chosen, w1)
        /\ (save_file w' = save_file w \/ save_file w' = Some (saved_text iter chosen))
  end.
Proof.
  rewrite run_cli_factored in Hrun.
  apply bind_cases in Hrun as [(e & H & ->)|(st & w1 & H & Hfinish)].
  - exact (keeps_chosen_settings TokenError iter rglob_py w _ w' H).
  - pose proof (keeps_chosen_settings TokenError iter rglob_py w _ w1 H) as K.
    apply finish_settings_file in Hfinish. destruct r as [e|[]].
    + congruence.
    + exists st, w1. split; [exact H|]. now rewrite <- K.
Qed.

Lemma run_cli_settings_file_witness :
  save_file session_end = Some session_saved
  /\ exists chosen w1,
       chosen_settings unit elements [P "a.py"] session_start = Some (Returned chosen, w1)
       /\ (save_file session_end = save_file session_start
           \/ save_file session_end = Some (saved_text elements chosen)).
Proof.
  split; [reflexivity|].
  refine (run_cli_settings_file unit sample_tokens str id sample_parse sample_unparse
            elements [P "a.py"] session_files session_entries session_start session_end
            (Returned tt) _).
  vm_compute. reflexivity.
Defined.

(* ================= is_parent_ignored, further ================= *)

(** X19. On an absolute path is_parent_ignored never returns False. It returns
    True when a folder between the root and the file has an ignored name, or
    when the empty name, the name of the root, is ignored; otherwise its loop
    stays at the root and the call does not return. *)
Theorem is_parent_ignored_absolute (file : Path) (ignored_folders : gset str) (fuel : nat)
  (Habsolute : absolute file)
  (Hfuel : (length (path_parts file) < fuel)%nat) :
  is_parent_ignored fuel file ignored_folders
  = if bool_decide (Exists (fun d => d ∈ ignored_folders)
                      (removelast (tail (path_parts file)))
                    \/ [] ∈ ignored_folders)
    then Some true else None.
Proof.
  destruct file as [root parts]. destruct Habsolute as [Hroot Hhead].
  cbn [path_root path_parts] in *.
  destruct parts as [|r rest]; [discriminate|]. injection Hhead as ->.
  cbn [tail]. unfold is_parent_ignored.
  destruct rest as [|a rest].
  - replace (path_parent (mkPath root [root])) with (mkPath root [root]).
    + apply loop_absolute_exact; [assumption|cbn in *; lia].
    + unfold path_parent. cbn [path_parts path_root length Nat.eqb].
      now rewrite bool_decide_eq_false_2.
  - replace (path_parent (mkPath root (root :: a :: rest)))
      with (mkPath root (root :: removelast (a :: rest))).
    + apply loop_absolute_exact; [assumption|].
      destruct (a :: rest) as [|x l _] using rev_ind; [cbn in *; lia|].
      rewrite removelast_last. cbn [length] in Hfuel. rewrite length_app in Hfuel. lia.
    + unfold path_parent. cbn [path_parts path_root length Nat.eqb andb]. reflexivity.
Qed.

Lemma is_parent_ignored_absolute_witness :
  is_parent_ignored 5 (P "/venv/lib/a.py") {[ py "venv" ]}
  = if bool_decide (Exists (fun d => d ∈ ({[ py "venv" ]} : gset str))
                      (removelast (tail (path_parts (P "/venv/lib/a.py"))))
                    \/ [] ∈ ({[ py "venv" ]} : gset str))
    then Some true else None.
Proof.
  apply is_parent_ignored_absolute.
  - split; [discriminate|reflexivity].
  - vm_compute. lia.
Defined.

(* ================= get_arborescence, further ================= *)

(** X20. Ignoring more names only takes lines away: when both exclusion sets
    grow, the lines get_arborescence writes are a subsequence, in the same
    order, of the lines it wrote before. *)
Theorem get_arborescence_more_ignored (items : list entry)
  (fo fi fo' fi' : gset str) (indent : nat)
  (Hfo : fo ⊆ fo') (Hfi : fi ⊆ fi') :
  get_arborescence items fo fi indent
  = concat (map (path_line indent) (listed_paths items fo fi))
  /\ get_arborescence items fo' fi' indent
     = concat (map (path_line indent) (listed_paths items fo' fi'))
  /\ sublist (map (path_line indent) (listed_paths items fo' fi'))
       (map (path_line indent) (listed_paths items fo fi)).
Proof.
  split; [apply get_arborescence_lines|]. split; [apply get_arborescence_lines|].
  apply sublist_map. unfold listed_paths. apply sublist_concat_map, Forall_forall.
  intros e _. now apply listed_of_item_sublist.
Qed.

Lemma get_arborescence_more_ignored_witness :
  get_arborescence [Dir (py "venv") [RegularFile (py "b.py")]; RegularFile (py "a.py")] ∅ ∅ 0
  = concat (map (path_line 0)
              (listed_paths [Dir (py "venv") [RegularFile (py "b.py")]; RegularFile (py "a.py")]
                 ∅ ∅))
  /\ get_arborescence [Dir (py "venv") [RegularFile (py "b.py")]; RegularFile (py "a.py")]
       {[ py "venv" ]} ∅ 0
     = concat (map (path_line 0)
                 (listed_paths
                    [Dir (py "venv") [RegularFile (py "b.py")]; RegularFile (py "a.py")]
                    {[ py "venv" ]} ∅))
  /\ sublist
       (map (path_line 0)
          (listed_paths [Dir (py "venv") [RegularFile (py "b.py")]; RegularFile (py "a.py")]
             {[ py "venv" ]} ∅))
       (map (path_line 0)
          (listed_paths [Dir (py "venv") [RegularFile (py "b.py")]; RegularFile (py "a.py")]
             ∅ ∅)).
Proof.
  apply get_arborescence_more_ignored; intros x Hx; now apply not_elem_of_empty in Hx.
Defined.

(* ================= remove_comments_and_docstrings, further ================= *)

(** X21. The text of a comment token, and of a string token that opens the
    stream or follows an INDENT token, never reaches the output: with any
    other text in its place the stripper returns the same. *)
Theorem unwritten_token_text_is_irrelevant (pre post : list TokenInfo) (t : TokenInfo)
  (text : str)
  (Hremoved : tok_type_of t = COMMENT
              \/ (tok_type_of t = STRING /\ type_before pre = INDENT)) :
  strip_tokens (pre ++ with_text t text :: post) = strip_tokens (pre ++ t :: post).
Proof.
  unfold strip_tokens. rewrite !fold_left_app. cbn [fold_left].
  rewrite strip_step_text; [reflexivity|].
  rewrite prev_toktype_fold. exact Hremoved.
Qed.

Lemma unwritten_token_text_is_irrelevant_witness :
  strip_tokens ([tok NAME "x" 1 0 1 1] ++ with_text (tok COMMENT "# c" 1 3 1 6) (py "# other")
                :: [tok ENDMARKER "" 2 0 2 0])
  = strip_tokens ([tok NAME "x" 1 0 1 1] ++ tok COMMENT "# c" 1 3 1 6
                  :: [tok ENDMARKER "" 2 0 2 0]).
Proof. apply unwritten_token_text_is_irrelevant. now left. Defined.

(* ================= get_user_settings, further ================= *)

(** X22. At the command line the names of folders and files to ignore are split
    at every comma and at nothing else: typed with a comma and a space between
    them, the way the prompt shows the default names, every name after the
    first keeps the space in front of it. *)
Theorem names_after_a_comma_keep_their_space (default : gset str) (x : str) (l : list str)
  (Hx : x <> []) (Hcomma : Forall (fun n => "," ∉ n) (x :: l)) :
  names_or default (join (py ", ") (x :: l)) = list_to_set (x :: map (cons " ") l).
Proof.
  rewrite join_comma_space. unfold names_or.
  destruct (join (py ",") (x :: map (cons " ") l)) as [|c s] eqn:E;
    [now apply join_nonempty in E|].
  rewrite <- E. rewrite split_join; [reflexivity|apply border_free_single|discriminate..|].
  apply Forall_cons_1 in Hcomma as [Hx' Hl]. constructor.
  - now apply not_occurs_char.
  - apply Forall_map. eapply Forall_impl; [exact Hl|]. intros n Hn.
    apply not_occurs_char. rewrite elem_of_cons. intros [H|H]; [discriminate|contradiction].
Qed.

Lemma names_after_a_comma_keep_their_space_witness :
  names_or DEFAULT_IGNORED_FOLDERS (join (py ", ") [py ".git"; py "venv"])
  = list_to_set (py ".git" :: map (cons " ") [py "venv"]).
Proof.
  apply names_after_a_comma_keep_their_space; [discriminate|].
  repeat constructor; intros H;
    repeat (apply elem_of_cons in H as [H|H]; [discriminate|]);
    now apply not_elem_of_nil in H.
Defined.

(** X23. When every file rglob yields lies below an ignored folder or has an
    ignored name, get_user_settings with saved settings asks for the
    description and for nothing else, and returns the saved dictionaries as
    they are: a file that was saved as selected stays selected although it is
    ignored now. *)
Theorem get_user_settings_all_ignored (TokenError : Type) (iter : gset str -> list str)
  (rglob_py : list Path) (saved_description line : str)
  (selected_files remove_comments remove_functions : dict)
  (ignored_folders ignored_files : gset str)
  (rest out : list str) (sf tf : option str)
  (Hignored : Forall (fun file =>
                 relative file
                 /\ (Exists (fun d => d ∈ ignored_folders) (removelast (path_parts file))
                     \/ path_name file ∈ ignored_files)) rglob_py) :
  get_user_settings TokenError iter rglob_py
    (Some (saved_description, selected_files, remove_comments, remove_functions,
           ignored_folders, ignored_files))
    (mkWorld (line :: rest) out sf tf)
  = Some (Returned (line, selected_files, remove_comments, remove_functions,
                    ignored_folders, ignored_files),
          mkWorld rest (out ++ [py "Enter the description: "]) sf tf).
Proof.
  unfold get_user_settings, bind, input, write, ret. cbn [stdin stdout save_file template_file].
  now rewrite for_each_ignored.
Qed.

Lemma get_user_settings_all_ignored_witness :
  get_user_settings unit (fun _ => []) [P "venv/lib/a.py"; P "setup.py"]
    (Some (py "old", [(P "venv/lib/a.py", true)], [(P "venv/lib/a.py", false)],
           [(P "venv/lib/a.py", false)], {[ py "venv" ]}, {[ py "setup.py" ]}))
    (mkWorld [py "new"; py "y"] [] None None)
  = Some (Returned (py "new", [(P "venv/lib/a.py", true)], [(P "venv/lib/a.py", false)],
                    [(P "venv/lib/a.py", false)], {[ py "venv" ]}, {[ py "setup.py" ]}),
          mkWorld [py "y"] ([] ++ [py "Enter the description: "]) None None).
Proof.
  apply get_user_settings_all_ignored.
  constructor; [|constructor; [|constructor]].
  - split; [reflexivity|]. left. apply Exists_exists. exists (py "venv"). split.
    + vm_compute. constructor.
    + now apply elem_of_singleton.
  - split; [reflexivity|]. right. now apply elem_of_singleton.
Defined.

(* ================= save_settings and load_settings, further ================= *)

(** X24. save_settings counts every selected file on the second line but writes
    a line only for the files that have both flags. When a file lacks a flag,
    as a file declined at the command line does, load_settings reads the lines
    of the exclusion sets as file lines, and the set of ignored files it
    returns is the default set whatever was saved. Paths and names hold no line
    break and the description no carriage return. *)
Theorem missing_flags_lose_the_ignored_files (iter : gset str -> list str)
  (description : str) (selected_files remove_comments remove_functions : dict)
  (ignored_folders ignored_files : gset str)
  (Hiter : forall X x, x ∈ iter X -> x ∈ X)
  (Hcr : CR ∉ description)
  (Hpaths : Forall (fun e => (LF ∉ str_of_Path (fst e)) /\ (CR ∉ str_of_Path (fst e)))
              selected_files)
  (Hfolders : forall x, x ∈ ignored_folders -> (LF ∉ x) /\ (CR ∉ x))
  (Hfiles : forall x, x ∈ ignored_files -> (LF ∉ x) /\ (CR ∉ x))
  (Hmissing : Exists (fun e => dict_has remove_comments (fst e) = false
                               \/ dict_has remove_functions (fst e) = false)
                selected_files) :
  exists description' selected_files' remove_comments' remove_functions' ignored_folders',
    load_settings
      (Some (save_settings iter description selected_files remove_comments remove_functions
               ignored_folders ignored_files))
    = Returned (Some (description', selected_files', remove_comments', remove_functions',
                      ignored_folders', DEFAULT_IGNORED_FILES)).
Proof. now apply load_saved_with_missing_flags. Qed.

Lemma missing_flags_lose_the_ignored_files_witness :
  exists description' selected_files' remove_comments' remove_functions' ignored_folders',
    load_settings
      (Some (save_settings elements (py "demo")
               [(P "a.py", true); (P "b.py", false)] [(P "a.py", false)] [(P "a.py", true)]
               {[ py "venv" ]} {[ py "setup.py" ]}))
    = Returned (Some (description', selected_files', remove_comments', remove_functions',
                      ignored_folders', DEFAULT_IGNORED_FILES)).
Proof.
  apply missing_flags_lose_the_ignored_files.
  - intros X x. apply elem_of_elements.
  - intros H. repeat (apply elem_of_cons in H as [H|H]; [discriminate|]).
    now apply not_elem_of_nil in H.
  - repeat constructor; vm_compute; intros H;
      repeat (apply elem_of_cons in H as [H|H]; [discriminate|]);
      now apply not_elem_of_nil in H.
  - intros x Hx. apply elem_of_singleton in Hx. subst x.
    split; intros H; repeat (apply elem_of_cons in H as [H|H]; [discriminate|]);
      now apply not_elem_of_nil in H.
  - intros x Hx. apply elem_of_singleton in Hx. subst x.
    split; intros H; repeat (apply elem_of_cons in H as [H|H]; [discriminate|]);
      now apply not_elem_of_nil in H.
  - right. left. left. reflexivity.
Defined.
